(** * Pavement Condition Index (ASTM D6433) calculator: a shallow embedding

    The Python sources [curves.py], [distresses.py] and [calculator.py] are
    rendered as Rocq functions.  Dictionaries are [gmap]s; Python list
    objects that are mutated in place live in an explicit store, so that
    aliasing (and its absence after [list.copy()]) is visible in the
    model.

    The code is rendered twice.  The first rendering idealises Python
    floats as exact rationals ([Q]); it carries the statements about
    control flow, the store, the lookup keys and the errors, which do not
    depend on how a float operation rounds.  The second rendering, the
    module [F64], computes with binary64 floats as Python does; it
    carries the statements in which rounding matters. *)

From Stdlib Require Import QArith Qround ZArith Lia Lqa List Sorted Permutation.
From Stdlib Require Floats.
From stdpp Require Import gmap strings list fin_maps sorting.
From Equations Require Import Equations.

Open Scope Q_scope.

(** ** Outcomes of Python calls *)

(** Exceptions carry the constant part of the Python message; the values
    an f-string interpolates are left out. *)
Inductive exn : Type :=
| ValueError (msg : string)
| IndexError (msg : string).

(** [Timeout] is not a Python outcome: it is what a bounded unrolling of
    [while True] answers when its budget is spent.  The termination
    theorems show that it is never the answer once the budget covers the
    number of observations, and that a larger budget changes nothing. *)
Inductive outcome (A : Type) : Type :=
| Return (a : A)
| Raise (e : exn)
| Timeout.
Arguments Return {A} a.
Arguments Raise {A} e.
Arguments Timeout {A}.

Definition obind {A B} (m : outcome A) (k : A -> outcome B) : outcome B :=
  match m with
  | Return a => k a
  | Raise e => Raise e
  | Timeout => Timeout
  end.

Declare Scope py_scope.
Delimit Scope py_scope with py.
Notation "'try' x <- m ; k" := (obind m (fun x => k))
  (at level 10, x name, m at level 100, k at level 200) : py_scope.
Open Scope py_scope.

(** ** Numbers: comparisons, [max], [min], [sum], [int] *)

Module Py.

(** [a < b] on floats. *)
Definition ltb (a b : Q) : bool := negb (Qle_bool b a).
(** [a <= b]. *)
Definition leb (a b : Q) : bool := Qle_bool a b.
(** [a == b]. *)
Definition eqb (a b : Q) : bool := Qeq_bool a b.

(** Python's two-argument [max(a, b)]: the first argument is kept
    unless the second is strictly greater. *)
Definition max2 (a b : Q) : Q := if ltb a b then b else a.
(** Python's two-argument [min(a, b)]: the first argument is kept
    unless the second is strictly smaller. *)
Definition min2 (a b : Q) : Q := if ltb b a then b else a.

(** [max(0, min(100, v))], the clamp used by the curves and the engine. *)
Definition clamp100 (v : Q) : Q := max2 0 (min2 100 v).

(** [sum(l)]: left fold starting from [0]. *)
Definition sum (l : list Q) : Q := fold_left Qplus l 0.

(** [max(l)] on a list: [ValueError] when empty, otherwise the first
    maximal element. *)
Definition max_list (l : list Q) : outcome Q :=
  match l with
  | [] => Raise (ValueError "max() arg is an empty sequence")
  | x :: l' => Return (fold_left max2 l' x)
  end.

(** [max(keys)] on integers. *)
Definition max_keys (l : list Z) : outcome Z :=
  match l with
  | [] => Raise (ValueError "max() arg is an empty sequence")
  | x :: l' => Return (fold_left Z.max l' x)
  end.

(** [int(v)]: truncation toward zero. *)
Definition int (v : Q) : Z := Z.quot (Qnum v) (Zpos (Qden v)).

(** [l[i]] with Python's indexing: a negative index counts from the
    end, an index out of range raises [IndexError]. *)
Definition getitem {A} (l : list A) (i : Z) : outcome A :=
  let n := Z.of_nat (length l) in
  let j := if (i <? 0)%Z then (i + n)%Z else i in
  if (j <? 0)%Z then Raise (IndexError "list index out of range")
  else match l !! Z.to_nat j with
       | Some a => Return a
       | None => Raise (IndexError "list index out of range")
       end.

(** [l[:m]]. *)
Definition slice_to {A} (l : list A) (m : Z) : list A :=
  if (m <? 0)%Z then take (length l - Z.to_nat (- m)) l
  else take (Z.to_nat m) l.

End Py.

(** ** curves.py *)

(** The loop of [bisect.bisect_right(a, x)] from Python's library:
    [while lo < hi: mid = (lo + hi) // 2; if x < a[mid]: hi = mid
     else: lo = mid + 1].  The index [mid] is always below [hi], hence
    inside [a] when [hi <= len(a)]; [nth] never uses its default there. *)
Equations? bisect_loop (a : list Q) (x : Q) (lo hi : nat) : nat
  by wf (hi - lo)%nat lt :=
  bisect_loop a x lo hi with lt_dec lo hi => {
    | right _ := lo
    | left _ :=
        let mid := ((lo + hi) / 2)%nat in
        if Py.ltb x (nth mid a 0) then bisect_loop a x lo mid
        else bisect_loop a x (mid + 1)%nat hi }.
Proof.
  all: assert (Hmid : mid = ((lo + hi) / 2)%nat) by reflexivity;
    clearbody mid;
    pose proof (Nat.div_mod_eq (lo + hi) 2) as Hd; rewrite <- Hmid in Hd;
    pose proof (Nat.mod_upper_bound (lo + hi) 2); lia.
Qed.

Definition bisect_right (a : list Q) (x : Q) : nat :=
  bisect_loop a x 0 (length a).

Definition interpolate_curve (points : list (Q * Q)) (x : Q) : outcome Q :=
  match points with
  | [] => Raise (ValueError "Points list cannot be empty")
  | p0 :: _ =>
      if Py.leb x (fst p0) then Return (snd p0)
      else
        try plast <- Py.getitem points (-1);
        if Py.leb (fst plast) x then Return (snd plast)
        else
          let x_values := map fst points in
          let idx := Z.of_nat (bisect_right x_values x) in
          try p_lo <- Py.getitem points (idx - 1);
          try p_hi <- Py.getitem points idx;
          let '(x0, y0) := p_lo in
          let '(x1, y1) := p_hi in
          if Py.eqb x1 x0 then Return y0
          else
            let t := (x - x0) / (x1 - x0) in
            Return (y0 + t * (y1 - y0))
  end.

(** [sorted(points, key=lambda p: p[0])]: a stable ascending sort on the
    first component (insertion from the right keeps equal keys in their
    original order). *)
Fixpoint insert_by_x (p : Q * Q) (l : list (Q * Q)) : list (Q * Q) :=
  match l with
  | [] => [p]
  | p' :: l' => if Py.ltb (fst p') (fst p) then p' :: insert_by_x p l'
                else p :: l
  end.

Definition sorted_by_x (points : list (Q * Q)) : list (Q * Q) :=
  foldr insert_by_x [] points.

(** [for i in range(1, len(points)): if points[i][0] <= points[i-1][0]]. *)
Fixpoint x_strictly_increasing (points : list (Q * Q)) : bool :=
  match points with
  | [] => true
  | p :: rest =>
      match rest with
      | [] => true
      | p' :: _ => if Py.leb (fst p') (fst p) then false
                   else x_strictly_increasing rest
      end
  end.

(** [for x, y in points: if x < 0 or y < 0]. *)
Definition all_non_negative (points : list (Q * Q)) : bool :=
  forallb (fun p => negb (Py.ltb (fst p) 0 || Py.ltb (snd p) 0)) points.

(** The [name] argument only feeds the error messages; the messages are
    kept without it. *)
Definition validate_curve (points : list (Q * Q)) : outcome bool :=
  match points with
  | [] => Raise (ValueError "Points list cannot be empty")
  | _ :: _ =>
      if (length points <? 2)%nat
      then Raise (ValueError "Need at least 2 points for interpolation")
      else if negb (x_strictly_increasing points)
      then Raise (ValueError "X values must be monotonically increasing")
      else if negb (all_non_negative points)
      then Raise (ValueError "X and Y values must be non-negative")
      else Return true
  end.

Module DeductCurve.
Record t : Type := Build
  { distress_id : Z; severity : option string; points : list (Q * Q) }.

(** [DeductCurve.__init__]. *)
Definition init (distress_id : Z) (severity : option string)
    (points : list (Q * Q)) : outcome t :=
  let self_points := sorted_by_x points in
  try _ok <- validate_curve self_points;
  Return (Build distress_id severity self_points).

Definition get_deduct_value (self : t) (density : Q) : outcome Q :=
  try dv <- interpolate_curve (points self) density;
  Return (Py.clamp100 dv).
End DeductCurve.

Module CDVCurve.
Record t : Type := Build { q : Z; points : list (Q * Q) }.

(** [CDVCurve.__init__]. *)
Definition init (q : Z) (points : list (Q * Q)) : outcome t :=
  let self_points := sorted_by_x points in
  try _ok <- validate_curve self_points;
  Return (Build q self_points).

Definition get_cdv (self : t) (tdv : Q) : outcome Q :=
  try cdv <- interpolate_curve (points self) tdv;
  Return (Py.clamp100 cdv).
End CDVCurve.

Definition EXAMPLE_DEDUCT_CURVES : gmap (Z * option string) (list (Q * Q)) :=
  list_to_map
    [ ((1%Z, Some "L"%string), [(0, 0); (1, 6); (5, 18); (10, 26); (20, 34); (50, 44); (100, 52)]);
      ((1%Z, Some "M"%string), [(0, 0); (1, 12); (5, 32); (10, 44); (20, 56); (50, 72); (100, 84)]);
      ((1%Z, Some "H"%string), [(0, 0); (1, 18); (5, 42); (10, 56); (20, 70); (50, 88); (100, 100)]);
      ((3%Z, Some "L"%string), [(0, 0); (1, 2); (5, 6); (10, 10); (20, 15); (50, 22); (100, 30)]);
      ((3%Z, Some "M"%string), [(0, 0); (1, 4); (5, 12); (10, 18); (20, 26); (50, 38); (100, 50)]);
      ((3%Z, Some "H"%string), [(0, 0); (1, 8); (5, 20); (10, 30); (20, 42); (50, 60); (100, 78)]);
      ((10%Z, Some "L"%string), [(0, 0); (1, 2); (5, 6); (10, 10); (20, 14); (50, 20); (100, 28)]);
      ((10%Z, Some "M"%string), [(0, 0); (1, 5); (5, 14); (10, 22); (20, 32); (50, 46); (100, 62)]);
      ((10%Z, Some "H"%string), [(0, 0); (1, 10); (5, 26); (10, 38); (20, 52); (50, 72); (100, 90)]);
      ((13%Z, Some "L"%string), [(0, 0); (1 # 10, 8); (1 # 2, 18); (1, 24); (2, 32); (5, 42); (10, 52)]);
      ((13%Z, Some "M"%string), [(0, 0); (1 # 10, 15); (1 # 2, 32); (1, 42); (2, 54); (5, 70); (10, 84)]);
      ((13%Z, Some "H"%string), [(0, 0); (1 # 10, 22); (1 # 2, 48); (1, 62); (2, 78); (5, 94); (10, 100)]);
      ((15%Z, Some "L"%string), [(0, 0); (1, 4); (5, 10); (10, 14); (20, 20); (50, 28); (100, 36)]);
      ((15%Z, Some "M"%string), [(0, 0); (1, 8); (5, 20); (10, 30); (20, 42); (50, 58); (100, 74)]);
      ((15%Z, Some "H"%string), [(0, 0); (1, 14); (5, 34); (10, 48); (20, 64); (50, 84); (100, 98)]);
      ((19%Z, Some "L"%string), [(0, 0); (1, 1); (5, 3); (10, 5); (20, 8); (50, 14); (100, 20)]);
      ((19%Z, Some "M"%string), [(0, 0); (1, 4); (5, 10); (10, 16); (20, 24); (50, 36); (100, 50)]);
      ((19%Z, Some "H"%string), [(0, 0); (1, 8); (5, 20); (10, 32); (20, 46); (50, 66); (100, 86)]) ].

Definition EXAMPLE_CDV_CURVES : gmap Z (list (Q * Q)) :=
  list_to_map
    [ (1%Z, [(0, 0); (10, 10); (20, 20); (50, 50); (100, 100); (150, 100); (200, 100)]);
      (2%Z, [(0, 0); (10, 8); (20, 15); (50, 40); (100, 72); (150, 88); (200, 96)]);
      (3%Z, [(0, 0); (10, 6); (20, 12); (50, 32); (100, 58); (150, 76); (200, 88)]);
      (4%Z, [(0, 0); (10, 5); (20, 10); (50, 26); (100, 48); (150, 66); (200, 80)]);
      (5%Z, [(0, 0); (10, 4); (20, 8); (50, 22); (100, 42); (150, 58); (200, 72)]);
      (6%Z, [(0, 0); (10, 4); (20, 7); (50, 19); (100, 37); (150, 52); (200, 66)]);
      (7%Z, [(0, 0); (10, 3); (20, 6); (50, 17); (100, 33); (150, 47); (200, 60)]) ].

(** ** distresses.py *)

Inductive Severity : Type := LOW | MEDIUM | HIGH.

Definition Severity_value (s : Severity) : string :=
  match s with LOW => "L" | MEDIUM => "M" | HIGH => "H" end.

Inductive DistressUnit : Type := AREA | LINEAR | COUNT.

Module DistressType.
Record t : Type := Build
  { id : Z; name : string; unit : DistressUnit; has_severity : bool }.

Definition calculate_density (self : t) (quantity sample_area : Q)
  : outcome Q :=
  if Py.leb sample_area 0
  then Raise (ValueError "Sample area must be positive")
  else Return ((quantity / sample_area) * 100).
End DistressType.


Definition ASPHALT_DISTRESSES : gmap Z DistressType.t :=
  list_to_map
    [ (1%Z, DistressType.Build 1 "Alligator Cracking" AREA true);
      (2%Z, DistressType.Build 2 "Bleeding" AREA true);
      (3%Z, DistressType.Build 3 "Block Cracking" AREA true);
      (4%Z, DistressType.Build 4 "Bumps and Sags" LINEAR true);
      (5%Z, DistressType.Build 5 "Corrugation" AREA true);
      (6%Z, DistressType.Build 6 "Depression" AREA true);
      (7%Z, DistressType.Build 7 "Edge Cracking" LINEAR true);
      (8%Z, DistressType.Build 8 "Joint Reflection Cracking" LINEAR true);
      (9%Z, DistressType.Build 9 "Lane/Shoulder Drop-off" LINEAR true);
      (10%Z, DistressType.Build 10 "Longitudinal & Transverse Cracking" LINEAR true);
      (11%Z, DistressType.Build 11 "Patching and Utility Cut Patching" AREA true);
      (12%Z, DistressType.Build 12 "Polished Aggregate" AREA false);
      (13%Z, DistressType.Build 13 "Potholes" COUNT true);
      (14%Z, DistressType.Build 14 "Railroad Crossing" AREA true);
      (15%Z, DistressType.Build 15 "Rutting" AREA true);
      (16%Z, DistressType.Build 16 "Shoving" AREA true);
      (17%Z, DistressType.Build 17 "Slippage Cracking" AREA true);
      (18%Z, DistressType.Build 18 "Swell" AREA true);
      (19%Z, DistressType.Build 19 "Weathering/Raveling" AREA true) ].

Definition get_distress_by_id (distress_id : Z) : outcome DistressType.t :=
  match ASPHALT_DISTRESSES !! distress_id with
  | None => Raise (ValueError "Unknown distress ID")
  | Some distress => Return distress
  end.

Module DistressObservation.
Record t : Type := Build
  { distress_type : DistressType.t;
    severity : option Severity;
    quantity : Q }.

(** The dataclass constructor followed by [__post_init__]. *)
Definition init (distress_type : DistressType.t)
    (severity : option Severity) (quantity : Q) : outcome t :=
  if DistressType.has_severity distress_type && negb (bool_decide (is_Some severity))
  then Raise (ValueError "requires a severity level")
  else if negb (DistressType.has_severity distress_type) && bool_decide (is_Some severity)
  then Raise (ValueError "does not use severity levels")
  else if Py.ltb quantity 0
  then Raise (ValueError "Quantity cannot be negative")
  else Return (Build distress_type severity quantity).
End DistressObservation.

(** ** calculator.py *)

Inductive PCIRating : Type :=
| GOOD | SATISFACTORY | FAIR | POOR | VERY_POOR | SERIOUS | FAILED.

Definition get_pci_rating (pci : Q) : PCIRating :=
  if Py.leb 85 pci then GOOD
  else if Py.leb 70 pci then SATISFACTORY
  else if Py.leb 55 pci then FAIR
  else if Py.leb 40 pci then POOR
  else if Py.leb 25 pci then VERY_POOR
  else if Py.leb 10 pci then SERIOUS
  else FAILED.

Record PCIResult : Type := Build_PCIResult
  { pci : Q;
    rating : PCIRating;
    deduct_values : list Q;
    max_cdv : Q;
    iteration_cdvs : list Q }.

(** The calculator object: its two curve tables. *)
Record PCICalculator : Type := Build_PCICalculator
  { deduct_curves : gmap (Z * option string) DeductCurve.t;
    cdv_curves : gmap Z CDVCurve.t }.

Definition MAX_DEDUCT_VALUES_FORMULA : bool := true.

(** [for key, points in curves.items(): table[key] = mk(key, points)]:
    the first curve that fails validation raises.  The loaded table does
    not depend on the order of the items; when several curves are
    invalid, the one reported follows the order of [map_to_list], which
    need not be Python's insertion order. *)
Fixpoint load_items {K} `{Countable K} {A B} (mk : K -> A -> outcome B)
    (items : list (K * A)) (table : gmap K B) : outcome (gmap K B) :=
  match items with
  | [] => Return table
  | (k, a) :: rest =>
      try c <- mk k a;
      load_items mk rest (<[k := c]> table)
  end.

Definition load_deduct_curves (self : PCICalculator)
    (curves : gmap (Z * option string) (list (Q * Q)))
  : outcome PCICalculator :=
  try table <- load_items (fun k pts => DeductCurve.init (fst k) (snd k) pts)
                 (map_to_list curves) (∅ : gmap (Z * option string) DeductCurve.t);
  Return (Build_PCICalculator table (cdv_curves self)).

Definition load_cdv_curves (self : PCICalculator)
    (curves : gmap Z (list (Q * Q))) : outcome PCICalculator :=
  try table <- load_items CDVCurve.init (map_to_list curves) (∅ : gmap Z CDVCurve.t);
  Return (Build_PCICalculator (deduct_curves self) table).

(** [PCICalculator()]: both tables start empty and receive the example
    curves ([_load_example_curves]). *)
Definition PCICalculator_init : outcome PCICalculator :=
  try self <- load_deduct_curves (Build_PCICalculator ∅ ∅) EXAMPLE_DEDUCT_CURVES;
  load_cdv_curves self EXAMPLE_CDV_CURVES.

Definition get_deduct_value (self : PCICalculator) (distress_id : Z)
    (severity : option Severity) (density : Q) : outcome Q :=
  let severity_key := Severity_value <$> severity in
  let key := (distress_id, severity_key) in
  match deduct_curves self !! key with
  | None => Raise (ValueError "No deduct curve for distress")
  | Some curve => DeductCurve.get_deduct_value curve density
  end.

Definition get_cdv (self : PCICalculator) (tdv : Q) (q : Z) : outcome Q :=
  try largest <- Py.max_keys (fst <$> map_to_list (cdv_curves self));
  let q_clamped := Z.min q largest in
  let q_clamped := Z.max 1 q_clamped in
  match cdv_curves self !! q_clamped with
  | None => Raise (ValueError "No CDV curve for q")
  | Some curve => CDVCurve.get_cdv curve tdv
  end.

Definition _calculate_max_deduct_values (highest_dv : Q) : Z :=
  if negb MAX_DEDUCT_VALUES_FORMULA then 100%Z
  else
    let m := 1 + (9 / 98) * (100 - highest_dv) in
    Z.max 1 (Py.int m).

(** *** The store of list objects

    [calculate_sample_pci] builds and mutates Python lists
    ([deduct_values], its slice, [iteration_cdvs] and the working copy
    [dvs]).  Each list object is a cell of a store; a Python variable
    holding a list is a location.  [list.copy()] and slicing allocate a
    new cell, [append], [sort] and item assignment update a cell in
    place.  A variable of the code always holds an allocated location, so
    the total lookup [!!!] never falls back to its default. *)

Definition loc : Type := nat.
Abbreviation store := (gmap loc (list Q)).

Definition M (A : Type) : Type := store -> outcome (A * store).

Definition ret {A} (a : A) : M A := fun h => Return (a, h).

Definition bind {A B} (m : M A) (k : A -> M B) : M B :=
  fun h => match m h with
           | Return (a, h') => k a h'
           | Raise e => Raise e
           | Timeout => Timeout
           end.

Definition lift {A} (o : outcome A) : M A :=
  fun h => match o with
           | Return a => Return (a, h)
           | Raise e => Raise e
           | Timeout => Timeout
           end.

Notation "'do' x <- m ; k" := (bind m (fun x => k))
  (at level 10, x name, m at level 100, k at level 200) : py_scope.

Module PyList.
(** A new list object holding [v]. *)
Definition new (v : list Q) : M loc :=
  fun h => let l := fresh (dom h) in Return (l, <[l := v]> h).

(** The current contents of the object at [l]. *)
Definition read (l : loc) : M (list Q) :=
  fun h => Return (h !!! l, h).

(** [l.append(x)]. *)
Definition append (l : loc) (x : Q) : M () :=
  fun h => Return (tt, <[l := (h !!! l) ++ [x]]> h).

(** [l[i]] for [i >= 0]. *)
Definition getitem (l : loc) (i : nat) : M Q :=
  fun h => match (h !!! l) !! i with
           | Some v => Return (v, h)
           | None => Raise (IndexError "list index out of range")
           end.

(** [l[i] = v] for [i >= 0]. *)
Definition setitem (l : loc) (i : nat) (v : Q) : M () :=
  fun h => if decide (i < length (h !!! l))%nat
           then Return (tt, <[l := <[i := v]> (h !!! l)]> h)
           else Raise (IndexError "list assignment index out of range").

(** [len(l)]. *)
Definition len (l : loc) : M nat :=
  fun h => Return (length (h !!! l), h).

(** [l.copy()]. *)
Definition copy (l : loc) : M loc :=
  fun h => new (h !!! l) h.

(** [l[:m]]. *)
Definition slice_to (l : loc) (m : Z) : M loc :=
  fun h => new (Py.slice_to (h !!! l) m) h.
End PyList.

(** [deduct_values.sort(reverse=True)]: stable, descending. *)
Fixpoint insert_desc (x : Q) (l : list Q) : list Q :=
  match l with
  | [] => [x]
  | y :: l' => if Py.ltb x y then y :: insert_desc x l' else x :: l
  end.

Definition sort_reverse (l : list Q) : list Q := foldr insert_desc [] l.

Definition list_sort_reverse (l : loc) : M () :=
  fun h => Return (tt, <[l := sort_reverse (h !!! l)]> h).

(** [sum(1 for dv in dvs if dv > 2.0)]. *)
Fixpoint count_gt2 (dvs : list Q) : nat :=
  match dvs with
  | [] => 0
  | dv :: rest => (if Py.ltb 2 dv then 1 else 0) + count_gt2 rest
  end.

(** [while True: body], unrolled at most [fuel] times; the body answers
    [true] when it executes [break]. *)
Fixpoint while_true (fuel : nat) (body : M bool) : M () :=
  match fuel with
  | O => fun _ => Timeout
  | S fuel' => do stop <- body;
               if (stop : bool) then ret tt else while_true fuel' body
  end.

(** Step 1: [for obs in observations: ... deduct_values.append(dv)]. *)
Fixpoint collect_deduct_values (self : PCICalculator) (sample_area : Q)
    (deduct_values : loc) (observations : list DistressObservation.t)
  : M () :=
  match observations with
  | [] => ret tt
  | obs :: rest =>
      do density <- lift (DistressType.calculate_density
                            (DistressObservation.distress_type obs)
                            (DistressObservation.quantity obs) sample_area);
      do dv <- lift (get_deduct_value self
                       (DistressType.id (DistressObservation.distress_type obs))
                       (DistressObservation.severity obs) density);
      do _u <- (if Py.ltb 0 dv then PyList.append deduct_values dv else ret tt);
      collect_deduct_values self sample_area deduct_values rest
  end.

(** [for i in range(len(dvs) - 1, -1, -1): if dvs[i] > 2.0: dvs[i] = 2.0;
    break], with [n] the number of indices still to visit (the next index
    is [n - 1]). *)
Fixpoint flatten_lowest (dvs : loc) (n : nat) : M () :=
  match n with
  | O => ret tt
  | S i =>
      do v <- PyList.getitem dvs i;
      if Py.ltb 2 v then PyList.setitem dvs i 2
      else flatten_lowest dvs i
  end.

(** One round of the [while True] loop of step 3. *)
Definition cdv_round (self : PCICalculator) (dvs iteration_cdvs : loc)
  : M bool :=
  do cur <- PyList.read dvs;
  let q := Z.of_nat (count_gt2 cur) in
  let q := if (q =? 0)%Z then 1%Z else q in
  let tdv := Py.sum cur in
  do cdv <- lift (get_cdv self tdv q);
  do _u <- PyList.append iteration_cdvs cdv;
  if (q <=? 1)%Z then ret true
  else
    do n <- PyList.len dvs;
    do _v <- flatten_lowest dvs n;
    ret false.

Definition perfect_pavement : PCIResult :=
  Build_PCIResult 100 GOOD [] 0 [].

(** The body of [calculate_sample_pci], run in the store.  The lists of
    the returned [PCIResult] are the contents, at the time of the return,
    of the objects its fields refer to. *)
Definition calculate_sample_pci_body (fuel : nat) (self : PCICalculator)
    (observations : list DistressObservation.t) (sample_area : Q)
  : M PCIResult :=
  if Py.leb sample_area 0
  then lift (Raise (ValueError "Sample area must be positive"))
  else
    match observations with
    | [] => ret perfect_pavement
    | _ :: _ =>
        (* Step 1 *)
        do deduct_values <- PyList.new [];
        do _u <- collect_deduct_values self sample_area deduct_values observations;
        do collected <- PyList.read deduct_values;
        match collected with
        | [] => ret perfect_pavement
        | _ :: _ =>
            (* Step 2 *)
            do _s <- list_sort_reverse deduct_values;
            do hdv <- PyList.getitem deduct_values 0;
            let max_dvs := _calculate_max_deduct_values hdv in
            do deduct_values <- PyList.slice_to deduct_values max_dvs;
            (* Step 3 *)
            do iteration_cdvs <- PyList.new [];
            do dvs <- PyList.copy deduct_values;
            do _w <- while_true fuel (cdv_round self dvs iteration_cdvs);
            (* Step 4 *)
            do cdvs <- PyList.read iteration_cdvs;
            do max_cdv <- lift (Py.max_list cdvs);
            let pci := 100 - max_cdv in
            let pci := Py.max2 0 (Py.min2 100 pci) in
            do reported <- PyList.read deduct_values;
            do history <- PyList.read iteration_cdvs;
            ret (Build_PCIResult pci (get_pci_rating pci) reported max_cdv history)
        end
    end.

Definition calculate_sample_pci (fuel : nat) (self : PCICalculator)
    (observations : list DistressObservation.t) (sample_area : Q)
  : outcome PCIResult :=
  match calculate_sample_pci_body fuel self observations sample_area ∅ with
  | Return (r, _) => Return r
  | Raise e => Raise e
  | Timeout => Timeout
  end.

Module SampleUnit.
Record t : Type := Build
  { id : string; area : Q; observations : list DistressObservation.t }.

End SampleUnit.

Module PavementSection.
Record t : Type := Build { id : string; sample_units : list SampleUnit.t }.

(** [for su in self.sample_units: ... weighted_sum += result.pci * su.area]. *)
Fixpoint accumulate (fuel : nat) (calculator : PCICalculator)
    (units : list SampleUnit.t) (weighted_sum : Q) : outcome Q :=
  match units with
  | [] => Return weighted_sum
  | su :: rest =>
      try result <- calculate_sample_pci fuel calculator
                      (SampleUnit.observations su) (SampleUnit.area su);
      accumulate fuel calculator rest (weighted_sum + pci result * SampleUnit.area su)
  end.

Definition calculate_section_pci (fuel : nat) (self : t)
    (calculator : PCICalculator) : outcome Q :=
  match sample_units self with
  | [] => Return 100
  | _ :: _ =>
      let total_area := Py.sum (SampleUnit.area <$> sample_units self) in
      if Py.eqb total_area 0 then Return 100
      else
        try weighted_sum <- accumulate fuel calculator (sample_units self) 0;
        Return (weighted_sum / total_area)
  end.
End PavementSection.

(** * Specification vocabulary *)

(** Linear interpolation between two knots. *)
Definition lerp (p0 p1 : Q * Q) (x : Q) : Q :=
  snd p0 + ((x - fst p0) / (fst p1 - fst p0)) * (snd p1 - snd p0).

(** The [q] of a round: the number of entries above 2.0, or 1 when there
    is none. *)
Definition q_of (ws : list Q) : Z :=
  let q := Z.of_nat (count_gt2 ws) in
  if (q =? 0)%Z then 1%Z else q.

(** What the spec calls flattening: the last (rightmost) entry above 2.0
    becomes exactly 2.0, every other entry stays. *)
Inductive flattened : list Q -> list Q -> Prop :=
| flattened_intro (before after : list Q) (v : Q) :
    2 < v -> Forall (fun y => y <= 2) after ->
    flattened (before ++ v :: after) (before ++ 2 :: after).

(** The backward scan of the code, on list values: visit indices
    [n-1, ..., 0], overwrite the first entry above 2.0 that is met. *)
Fixpoint scan_back (n : nat) (cur : list Q) : list Q :=
  match n with
  | O => cur
  | S i => match cur !! i with
           | Some v => if Py.ltb 2 v then <[i := 2]> cur else scan_back i cur
           | None => cur
           end
  end.

(** The rounds of step 4 of the procedure, in the spec's words: each
    round takes [q] and the total of the current working set, records the
    CDV looked up for them, and either stops ([q <= 1]) or flattens the
    last entry above 2.0 and goes on. *)
Inductive rounds (self : PCICalculator) : list Q -> list Q -> list Q -> Prop :=
| rounds_stop (ws : list Q) (cdv : Q) :
    (q_of ws <= 1)%Z ->
    get_cdv self (Py.sum ws) (q_of ws) = Return cdv ->
    rounds self ws [cdv] ws
| rounds_step (ws ws' : list Q) (cdv : Q) (hist final : list Q) :
    (1 < q_of ws)%Z ->
    get_cdv self (Py.sum ws) (q_of ws) = Return cdv ->
    flattened ws ws' ->
    rounds self ws' hist final ->
    rounds self ws (cdv :: hist) final.

(** Step 1 on values: every computed deduct value, in observation
    order. *)
Fixpoint computed_deduct_values (self : PCICalculator) (sample_area : Q)
    (observations : list DistressObservation.t) : outcome (list Q) :=
  match observations with
  | [] => Return []
  | obs :: rest =>
      try density <- DistressType.calculate_density
                       (DistressObservation.distress_type obs)
                       (DistressObservation.quantity obs) sample_area;
      try dv <- get_deduct_value self
                  (DistressType.id (DistressObservation.distress_type obs))
                  (DistressObservation.severity obs) density;
      try dvs <- computed_deduct_values self sample_area rest;
      Return (dv :: dvs)
  end.

(** [if dv > 0] keeps the non-zero deduct values. *)
Definition positive_only (dvs : list Q) : list Q :=
  List.filter (fun dv => Py.ltb 0 dv) dvs.

(** Step 2 on values: sort descending, cap at the allowed count. *)
Definition capped_deduct_values (dvs : list Q) : list Q :=
  match sort_reverse dvs with
  | [] => []
  | hdv :: _ => Py.slice_to (sort_reverse dvs) (_calculate_max_deduct_values hdv)
  end.

(** What a returned result owes to the capped list [capped] of step 2;
    [final] is the working copy as the last round leaves it. *)
Definition result_of_rounds (self : PCICalculator) (capped final : list Q)
    (r : PCIResult) : Prop :=
  deduct_values r = capped /\
  rounds self capped (iteration_cdvs r) final /\
  Py.max_list (iteration_cdvs r) = Return (max_cdv r) /\
  pci r = Py.clamp100 (100 - max_cdv r) /\
  rating r = get_pci_rating (pci r).

(** The per-sample call on a unit. *)
Definition unit_pci (fuel : nat) (calculator : PCICalculator)
    (su : SampleUnit.t) : outcome PCIResult :=
  calculate_sample_pci fuel calculator
    (SampleUnit.observations su) (SampleUnit.area su).


(** * Example data *)

Definition alligator_cracking : DistressType.t :=
  DistressType.Build 1 "Alligator Cracking" AREA true.
Definition long_trans_cracking : DistressType.t :=
  DistressType.Build 10 "Longitudinal & Transverse Cracking" LINEAR true.
Definition weathering : DistressType.t :=
  DistressType.Build 19 "Weathering/Raveling" AREA true.

(** The sample unit of [sample_inspection.py], example 1. *)
Definition su_001_observations : list DistressObservation.t :=
  [ DistressObservation.Build alligator_cracking (Some MEDIUM) 150;
    DistressObservation.Build long_trans_cracking (Some LOW) 75;
    DistressObservation.Build weathering (Some LOW) 500 ].

(** The calculator as [PCICalculator()] leaves it. *)
Definition example_calculator : PCICalculator :=
  Eval vm_compute in
    match PCICalculator_init with
    | Return c => c
    | _ => Build_PCICalculator ∅ ∅
    end.

(** A table with buckets 1 and 3 only, loaded through [load_cdv_curves]. *)
Definition gapped_cdv_curves : gmap Z (list (Q * Q)) :=
  list_to_map
    [ (1%Z, [(0, 0); (10, 10); (20, 20); (50, 50); (100, 100)]);
      (3%Z, [(0, 0); (10, 6); (20, 12); (50, 32); (100, 58)]) ].

(** The example calculator after loading the table above. *)
Definition gapped_calculator : PCICalculator :=
  Eval vm_compute in
    match load_cdv_curves example_calculator gapped_cdv_curves with
    | Return c => c
    | _ => Build_PCICalculator ∅ ∅
    end.

(** Low-severity weathering over 1% of the sample. *)
Definition light_weathering : list DistressObservation.t :=
  [ DistressObservation.Build weathering (Some LOW) 25 ].

(** The deduct values, the result and the final store of the first
    example of [sample_inspection.py] (sample unit SU-001, 2500 sq ft). *)
Definition su_001_all_deduct_values : list Q :=
  Eval vm_compute in
    match computed_deduct_values example_calculator 2500 su_001_observations with
    | Return all => all
    | _ => []
    end.

Definition su_001_result : PCIResult :=
  Eval vm_compute in
    match calculate_sample_pci 3 example_calculator su_001_observations 2500 with
    | Return r => r
    | _ => perfect_pavement
    end.


(** Sample units and sections built from the data above. *)
Definition su_001 : SampleUnit.t :=
  SampleUnit.Build "SU-001" 2500 su_001_observations.

Definition su_clean : SampleUnit.t := SampleUnit.Build "SU-002" 2500 [].

Definition su_no_area : SampleUnit.t := SampleUnit.Build "SU-000" 0 [].

Definition mixed_section : PavementSection.t :=
  PavementSection.Build "Main-St-Block-2" [su_001; su_no_area; su_clean].

(** * Vocabulary for the further properties *)



(** The loop of step 3 on list values: the CDVs it records, in order. *)
Fixpoint iterate_cdvs (self : PCICalculator) (fuel : nat) (ws : list Q)
  : outcome (list Q) :=
  match fuel with
  | O => Timeout
  | S fuel' =>
      try cdv <- get_cdv self (Py.sum ws) (q_of ws);
      if (q_of ws <=? 1)%Z then Return [cdv]
      else
        try hist <- iterate_cdvs self fuel' (scan_back (length ws) ws);
        Return (cdv :: hist)
  end.

(** Steps 2 to 4 on list values, from the positive deduct values. *)
Definition sample_pci_of (self : PCICalculator) (fuel : nat) (pos : list Q)
  : outcome PCIResult :=
  match pos with
  | [] => Return perfect_pavement
  | _ :: _ =>
      let capped := capped_deduct_values pos in
      try hist <- iterate_cdvs self fuel capped;
      try max_cdv <- Py.max_list hist;
      let pci := Py.clamp100 (100 - max_cdv) in
      Return (Build_PCIResult pci (get_pci_rating pci) capped max_cdv hist)
  end.

(** The whole call on list values. *)
Definition sample_pci_value (fuel : nat) (self : PCICalculator)
    (observations : list DistressObservation.t) (sample_area : Q)
  : outcome PCIResult :=
  if Py.leb sample_area 0
  then Raise (ValueError "Sample area must be positive")
  else
    try all <- computed_deduct_values self sample_area observations;
    sample_pci_of self fuel (positive_only all).

(** Two results that agree as numbers, field by field. *)
Definition same_result (r r' : PCIResult) : Prop :=
  pci r == pci r' /\
  rating r = rating r' /\
  Forall2 Qeq (deduct_values r) (deduct_values r') /\
  max_cdv r == max_cdv r' /\
  Forall2 Qeq (iteration_cdvs r) (iteration_cdvs r').

(** Two outcomes that agree: equal numbers, the same error, or both out
    of budget. *)
Definition same_outcome {A} (R : A -> A -> Prop) (o o' : outcome A) : Prop :=
  match o, o' with
  | Return a, Return a' => R a a'
  | Raise e, Raise e' => e = e'
  | Timeout, Timeout => True
  | _, _ => False
  end.

(** * The same code over binary64 floats

    The definitions above compute with exact rationals.  Python's [float]
    is the IEEE 754 binary64 format, and every arithmetic operation of
    the code rounds to nearest (ties to even).  The module below renders
    the numeric part of the code once more, this time over Rocq's
    primitive binary64 floats, whose [+], [-], [*], [/], [<], [<=] and
    [==] are the processor's: NaN, the infinities and the two zeros
    behave as in Python.  Every number of the code is a float here: an
    integer literal of the source ([0], [1], [100], [9], [98], ...) and an
    integer written in a curve table stand for the float of the same
    value, which is exact for integers below 2^53.  The catalog of
    distresses, the severities and the ratings do not involve numbers and
    are shared with the definitions above.

    The statements that depend on how the code rounds are made on this
    module. *)

Module F64.
Import PrimFloat FloatOps SpecFloat.
Set Warnings "-inexact-float".
Local Open Scope float_scope.

(** ** Outcomes of Python calls *)

(** Besides the two exceptions the code raises itself, the arithmetic of
    Python can raise: a float division by zero, and [int()] of an
    infinity or of NaN. *)
Inductive exn : Type :=
| ValueError (msg : string)
| IndexError (msg : string)
| ZeroDivisionError (msg : string)
| OverflowError (msg : string).

(** [Timeout] is what the bounded unrolling of [while True] answers when
    its budget is spent; it is not a Python outcome. *)
Inductive outcome (A : Type) : Type :=
| Return (a : A)
| Raise (e : exn)
| Timeout.
Arguments Return {A} a.
Arguments Raise {A} e.
Arguments Timeout {A}.

Definition obind {A B} (m : outcome A) (k : A -> outcome B) : outcome B :=
  match m with
  | Return a => k a
  | Raise e => Raise e
  | Timeout => Timeout
  end.

Declare Scope py64_scope.
Delimit Scope py64_scope with py64.
Notation "'try' x <- m ; k" := (obind m (fun x => k))
  (at level 10, x name, m at level 100, k at level 200) : py64_scope.
Local Open Scope py64_scope.

(** ** Numbers *)

Module Py.

(** Python's two-argument [max(a, b)]: the first argument is kept
    unless the second is strictly greater. *)
Definition max2 (a b : float) : float := if a <? b then b else a.
(** Python's two-argument [min(a, b)]: the first argument is kept
    unless the second is strictly smaller. *)
Definition min2 (a b : float) : float := if b <? a then b else a.

(** [max(0, min(100, v))]. *)
Definition clamp100 (v : float) : float := max2 0 (min2 100 v).

(** [sum(l)]: the items are added from left to right, starting from
    [0], each addition rounded (the documented behaviour of [sum], and
    what CPython computes up to version 3.11; later versions compensate
    the rounding error of a sum of floats). *)
Definition sum (l : list float) : float := fold_left add l 0.

(** [max(l)] on a list: [ValueError] when empty, otherwise the first
    maximal element. *)
Definition max_list (l : list float) : outcome float :=
  match l with
  | [] => Raise (ValueError "max() arg is an empty sequence")
  | x :: l' => Return (fold_left max2 l' x)
  end.

(** [max(keys)] on integers. *)
Definition max_keys (l : list Z) : outcome Z :=
  match l with
  | [] => Raise (ValueError "max() arg is an empty sequence")
  | x :: l' => Return (fold_left Z.max l' x)
  end.

(** [a / b] on floats: Python raises on a zero divisor (of either sign)
    where the processor would answer an infinity or NaN. *)
Definition truediv (a b : float) : outcome float :=
  if b =? 0 then Raise (ZeroDivisionError "float division by zero")
  else Return (a / b).

(** [int(v)]: truncation toward zero of a finite float, whose value is
    [m * 2^e] with the sign [s]; an infinity and NaN raise. *)
Definition int (v : float) : outcome Z :=
  match Prim2SF v with
  | S754_zero _ => Return 0%Z
  | S754_finite s m e =>
      let magnitude :=
        match e with
        | Zneg p => Z.shiftr (Zpos m) (Zpos p)
        | _ => Z.shiftl (Zpos m) e
        end in
      Return (if s then (- magnitude)%Z else magnitude)
  | S754_infinity _ =>
      Raise (OverflowError "cannot convert float infinity to integer")
  | S754_nan => Raise (ValueError "cannot convert float NaN to integer")
  end.

(** [l[i]] with Python's indexing: a negative index counts from the
    end, an index out of range raises [IndexError]. *)
Definition getitem {A} (l : list A) (i : Z) : outcome A :=
  let n := Z.of_nat (length l) in
  let j := if (i <? 0)%Z then (i + n)%Z else i in
  if (j <? 0)%Z then Raise (IndexError "list index out of range")
  else match l !! Z.to_nat j with
       | Some a => Return a
       | None => Raise (IndexError "list index out of range")
       end.

(** [l[:m]]. *)
Definition slice_to {A} (l : list A) (m : Z) : list A :=
  if (m <? 0)%Z then take (length l - Z.to_nat (- m)) l
  else take (Z.to_nat m) l.

End Py.

(** ** curves.py *)

(** The loop of [bisect.bisect_right(a, x)]:
    [while lo < hi: mid = (lo + hi) // 2; if x < a[mid]: hi = mid
     else: lo = mid + 1]. *)
Equations? bisect_loop (a : list float) (x : float) (lo hi : nat) : nat
  by wf (hi - lo)%nat lt :=
  bisect_loop a x lo hi with lt_dec lo hi => {
    | right _ := lo
    | left _ :=
        let mid := ((lo + hi) / 2)%nat in
        if x <? nth mid a 0 then bisect_loop a x lo mid
        else bisect_loop a x (mid + 1)%nat hi }.
Proof.
  all: assert (Hmid : mid = ((lo + hi) / 2)%nat) by reflexivity;
    clearbody mid;
    pose proof (Nat.div_mod_eq (lo + hi) 2) as Hd; rewrite <- Hmid in Hd;
    pose proof (Nat.mod_upper_bound (lo + hi) 2); lia.
Qed.

Definition bisect_right (a : list float) (x : float) : nat :=
  bisect_loop a x 0 (length a).

Definition interpolate_curve (points : list (float * float)) (x : float)
  : outcome float :=
  match points with
  | [] => Raise (ValueError "Points list cannot be empty")
  | p0 :: _ =>
      if x <=? fst p0 then Return (snd p0)
      else
        try plast <- Py.getitem points (-1);
        if fst plast <=? x then Return (snd plast)
        else
          let x_values := map fst points in
          let idx := Z.of_nat (bisect_right x_values x) in
          try p_lo <- Py.getitem points (idx - 1);
          try p_hi <- Py.getitem points idx;
          let '(x0, y0) := p_lo in
          let '(x1, y1) := p_hi in
          if x1 =? x0 then Return y0
          else
            try t <- Py.truediv (x - x0) (x1 - x0);
            Return (y0 + t * (y1 - y0))
  end.

(** [sorted(points, key=lambda p: p[0])], for x values without NaN,
    where every stable sort gives the same list: insertion from the
    right, equal keys kept in their original order. *)
Fixpoint insert_by_x (p : float * float) (l : list (float * float))
  : list (float * float) :=
  match l with
  | [] => [p]
  | p' :: l' => if fst p' <? fst p then p' :: insert_by_x p l'
                else p :: l
  end.

Definition sorted_by_x (points : list (float * float)) : list (float * float) :=
  foldr insert_by_x [] points.

(** [for i in range(1, len(points)): if points[i][0] <= points[i-1][0]]. *)
Fixpoint x_strictly_increasing (points : list (float * float)) : bool :=
  match points with
  | [] => true
  | p :: rest =>
      match rest with
      | [] => true
      | p' :: _ => if fst p' <=? fst p then false
                   else x_strictly_increasing rest
      end
  end.

(** [for x, y in points: if x < 0 or y < 0]. *)
Definition all_non_negative (points : list (float * float)) : bool :=
  forallb (fun p => negb ((fst p <? 0) || (snd p <? 0))) points.

Definition validate_curve (points : list (float * float)) : outcome bool :=
  match points with
  | [] => Raise (ValueError "Points list cannot be empty")
  | _ :: _ =>
      if (length points <? 2)%nat
      then Raise (ValueError "Need at least 2 points for interpolation")
      else if negb (x_strictly_increasing points)
      then Raise (ValueError "X values must be monotonically increasing")
      else if negb (all_non_negative points)
      then Raise (ValueError "X and Y values must be non-negative")
      else Return true
  end.

Module DeductCurve.
Record t : Type := Build
  { distress_id : Z; severity : option string; points : list (float * float) }.

Definition init (distress_id : Z) (severity : option string)
    (points : list (float * float)) : outcome t :=
  let self_points := sorted_by_x points in
  try _ok <- validate_curve self_points;
  Return (Build distress_id severity self_points).

Definition get_deduct_value (self : t) (density : float) : outcome float :=
  try dv <- interpolate_curve (points self) density;
  Return (Py.clamp100 dv).
End DeductCurve.

Module CDVCurve.
Record t : Type := Build { q : Z; points : list (float * float) }.

Definition init (q : Z) (points : list (float * float)) : outcome t :=
  let self_points := sorted_by_x points in
  try _ok <- validate_curve self_points;
  Return (Build q self_points).

Definition get_cdv (self : t) (tdv : float) : outcome float :=
  try cdv <- interpolate_curve (points self) tdv;
  Return (Py.clamp100 cdv).
End CDVCurve.

Definition EXAMPLE_DEDUCT_CURVES
  : gmap (Z * option string) (list (float * float)) :=
  list_to_map
    [ ((1%Z, Some "L"%string), [(0, 0); (1, 6); (5, 18); (10, 26); (20, 34); (50, 44); (100, 52)]);
      ((1%Z, Some "M"%string), [(0, 0); (1, 12); (5, 32); (10, 44); (20, 56); (50, 72); (100, 84)]);
      ((1%Z, Some "H"%string), [(0, 0); (1, 18); (5, 42); (10, 56); (20, 70); (50, 88); (100, 100)]);
      ((3%Z, Some "L"%string), [(0, 0); (1, 2); (5, 6); (10, 10); (20, 15); (50, 22); (100, 30)]);
      ((3%Z, Some "M"%string), [(0, 0); (1, 4); (5, 12); (10, 18); (20, 26); (50, 38); (100, 50)]);
      ((3%Z, Some "H"%string), [(0, 0); (1, 8); (5, 20); (10, 30); (20, 42); (50, 60); (100, 78)]);
      ((10%Z, Some "L"%string), [(0, 0); (1, 2); (5, 6); (10, 10); (20, 14); (50, 20); (100, 28)]);
      ((10%Z, Some "M"%string), [(0, 0); (1, 5); (5, 14); (10, 22); (20, 32); (50, 46); (100, 62)]);
      ((10%Z, Some "H"%string), [(0, 0); (1, 10); (5, 26); (10, 38); (20, 52); (50, 72); (100, 90)]);
      ((13%Z, Some "L"%string), [(0, 0); (0.1, 8); (0.5, 18); (1, 24); (2, 32); (5, 42); (10, 52)]);
      ((13%Z, Some "M"%string), [(0, 0); (0.1, 15); (0.5, 32); (1, 42); (2, 54); (5, 70); (10, 84)]);
      ((13%Z, Some "H"%string), [(0, 0); (0.1, 22); (0.5, 48); (1, 62); (2, 78); (5, 94); (10, 100)]);
      ((15%Z, Some "L"%string), [(0, 0); (1, 4); (5, 10); (10, 14); (20, 20); (50, 28); (100, 36)]);
      ((15%Z, Some "M"%string), [(0, 0); (1, 8); (5, 20); (10, 30); (20, 42); (50, 58); (100, 74)]);
      ((15%Z, Some "H"%string), [(0, 0); (1, 14); (5, 34); (10, 48); (20, 64); (50, 84); (100, 98)]);
      ((19%Z, Some "L"%string), [(0, 0); (1, 1); (5, 3); (10, 5); (20, 8); (50, 14); (100, 20)]);
      ((19%Z, Some "M"%string), [(0, 0); (1, 4); (5, 10); (10, 16); (20, 24); (50, 36); (100, 50)]);
      ((19%Z, Some "H"%string), [(0, 0); (1, 8); (5, 20); (10, 32); (20, 46); (50, 66); (100, 86)]) ].

Definition EXAMPLE_CDV_CURVES : gmap Z (list (float * float)) :=
  list_to_map
    [ (1%Z, [(0, 0); (10, 10); (20, 20); (50, 50); (100, 100); (150, 100); (200, 100)]);
      (2%Z, [(0, 0); (10, 8); (20, 15); (50, 40); (100, 72); (150, 88); (200, 96)]);
      (3%Z, [(0, 0); (10, 6); (20, 12); (50, 32); (100, 58); (150, 76); (200, 88)]);
      (4%Z, [(0, 0); (10, 5); (20, 10); (50, 26); (100, 48); (150, 66); (200, 80)]);
      (5%Z, [(0, 0); (10, 4); (20, 8); (50, 22); (100, 42); (150, 58); (200, 72)]);
      (6%Z, [(0, 0); (10, 4); (20, 7); (50, 19); (100, 37); (150, 52); (200, 66)]);
      (7%Z, [(0, 0); (10, 3); (20, 6); (50, 17); (100, 33); (150, 47); (200, 60)]) ].

(** ** distresses.py *)

Module DistressType.
(** [calculate_density] of a [DistressType] (the record is the one of
    the catalog above). *)
Definition calculate_density (self : DistressType.t)
    (quantity sample_area : float) : outcome float :=
  if sample_area <=? 0
  then Raise (ValueError "Sample area must be positive")
  else
    try ratio <- Py.truediv quantity sample_area;
    Return (ratio * 100).
End DistressType.

Module DistressObservation.
Record t : Type := Build
  { distress_type : DistressType.t;
    severity : option Severity;
    quantity : float }.
End DistressObservation.

(** ** calculator.py *)

Definition get_pci_rating (pci : float) : PCIRating :=
  if 85 <=? pci then GOOD
  else if 70 <=? pci then SATISFACTORY
  else if 55 <=? pci then FAIR
  else if 40 <=? pci then POOR
  else if 25 <=? pci then VERY_POOR
  else if 10 <=? pci then SERIOUS
  else FAILED.

Record PCIResult : Type := Build_PCIResult
  { pci : float;
    rating : PCIRating;
    deduct_values : list float;
    max_cdv : float;
    iteration_cdvs : list float }.

Record PCICalculator : Type := Build_PCICalculator
  { deduct_curves : gmap (Z * option string) DeductCurve.t;
    cdv_curves : gmap Z CDVCurve.t }.

(** [for key, points in curves.items(): table[key] = mk(key, points)]. *)
Fixpoint load_items {K} `{Countable K} {A B} (mk : K -> A -> outcome B)
    (items : list (K * A)) (table : gmap K B) : outcome (gmap K B) :=
  match items with
  | [] => Return table
  | (k, a) :: rest =>
      try c <- mk k a;
      load_items mk rest (<[k := c]> table)
  end.

Definition load_deduct_curves (self : PCICalculator)
    (curves : gmap (Z * option string) (list (float * float)))
  : outcome PCICalculator :=
  try table <- load_items (fun k pts => DeductCurve.init (fst k) (snd k) pts)
                 (map_to_list curves) (∅ : gmap (Z * option string) DeductCurve.t);
  Return (Build_PCICalculator table (cdv_curves self)).

Definition load_cdv_curves (self : PCICalculator)
    (curves : gmap Z (list (float * float))) : outcome PCICalculator :=
  try table <- load_items CDVCurve.init (map_to_list curves) (∅ : gmap Z CDVCurve.t);
  Return (Build_PCICalculator (deduct_curves self) table).

(** [PCICalculator()]. *)
Definition PCICalculator_init : outcome PCICalculator :=
  try self <- load_deduct_curves (Build_PCICalculator ∅ ∅) EXAMPLE_DEDUCT_CURVES;
  load_cdv_curves self EXAMPLE_CDV_CURVES.

Definition get_deduct_value (self : PCICalculator) (distress_id : Z)
    (severity : option Severity) (density : float) : outcome float :=
  let severity_key := Severity_value <$> severity in
  let key := (distress_id, severity_key) in
  match deduct_curves self !! key with
  | None => Raise (ValueError "No deduct curve for distress")
  | Some curve => DeductCurve.get_deduct_value curve density
  end.

Definition get_cdv (self : PCICalculator) (tdv : float) (q : Z) : outcome float :=
  try largest <- Py.max_keys (fst <$> map_to_list (cdv_curves self));
  let q_clamped := Z.min q largest in
  let q_clamped := Z.max 1 q_clamped in
  match cdv_curves self !! q_clamped with
  | None => Raise (ValueError "No CDV curve for q")
  | Some curve => CDVCurve.get_cdv curve tdv
  end.

(** [m = 1 + (9 / 98) * (100 - highest_dv); return max(1, int(m))]:
    four rounded operations ([9 / 98] is the float nearest to 9/98),
    then a truncation. *)
Definition _calculate_max_deduct_values (highest_dv : float) : outcome Z :=
  if negb MAX_DEDUCT_VALUES_FORMULA then Return 100%Z
  else
    let m := 1 + (9 / 98) * (100 - highest_dv) in
    try truncated <- Py.int m;
    Return (Z.max 1 truncated).

(** *** The store of list objects *)

Abbreviation store := (gmap loc (list float)).

Definition M (A : Type) : Type := store -> outcome (A * store).

Definition ret {A} (a : A) : M A := fun h => Return (a, h).

Definition bind {A B} (m : M A) (k : A -> M B) : M B :=
  fun h => match m h with
           | Return (a, h') => k a h'
           | Raise e => Raise e
           | Timeout => Timeout
           end.

Definition lift {A} (o : outcome A) : M A :=
  fun h => match o with
           | Return a => Return (a, h)
           | Raise e => Raise e
           | Timeout => Timeout
           end.

Notation "'do' x <- m ; k" := (bind m (fun x => k))
  (at level 10, x name, m at level 100, k at level 200) : py64_scope.

Module PyList.
Definition new (v : list float) : M loc :=
  fun h => let l := fresh (dom h) in Return (l, <[l := v]> h).

Definition read (l : loc) : M (list float) :=
  fun h => Return (h !!! l, h).

Definition append (l : loc) (x : float) : M () :=
  fun h => Return (tt, <[l := (h !!! l) ++ [x]]> h).

Definition getitem (l : loc) (i : nat) : M float :=
  fun h => match (h !!! l) !! i with
           | Some v => Return (v, h)
           | None => Raise (IndexError "list index out of range")
           end.

Definition setitem (l : loc) (i : nat) (v : float) : M () :=
  fun h => if decide (i < length (h !!! l))%nat
           then Return (tt, <[l := <[i := v]> (h !!! l)]> h)
           else Raise (IndexError "list assignment index out of range").

Definition len (l : loc) : M nat :=
  fun h => Return (length (h !!! l), h).

Definition copy (l : loc) : M loc :=
  fun h => new (h !!! l) h.

Definition slice_to (l : loc) (m : Z) : M loc :=
  fun h => new (Py.slice_to (h !!! l) m) h.
End PyList.

(** [deduct_values.sort(reverse=True)]: stable, descending.  The list
    the code sorts holds deduct values above zero, hence no NaN, and on
    such a list every stable sort gives the same result. *)
Fixpoint insert_desc (x : float) (l : list float) : list float :=
  match l with
  | [] => [x]
  | y :: l' => if x <? y then y :: insert_desc x l' else x :: l
  end.

Definition sort_reverse (l : list float) : list float := foldr insert_desc [] l.

Definition list_sort_reverse (l : loc) : M () :=
  fun h => Return (tt, <[l := sort_reverse (h !!! l)]> h).

(** [sum(1 for dv in dvs if dv > 2.0)]. *)
Fixpoint count_gt2 (dvs : list float) : nat :=
  match dvs with
  | [] => 0
  | dv :: rest => (if 2 <? dv then 1 else 0) + count_gt2 rest
  end.

Fixpoint while_true (fuel : nat) (body : M bool) : M () :=
  match fuel with
  | O => fun _ => Timeout
  | S fuel' => do stop <- body;
               if (stop : bool) then ret tt else while_true fuel' body
  end.

(** Step 1. *)
Fixpoint collect_deduct_values (self : PCICalculator) (sample_area : float)
    (deduct_values : loc) (observations : list DistressObservation.t)
  : M () :=
  match observations with
  | [] => ret tt
  | obs :: rest =>
      do density <- lift (DistressType.calculate_density
                            (DistressObservation.distress_type obs)
                            (DistressObservation.quantity obs) sample_area);
      do dv <- lift (get_deduct_value self
                       (DistressType.id (DistressObservation.distress_type obs))
                       (DistressObservation.severity obs) density);
      do _u <- (if 0 <? dv then PyList.append deduct_values dv else ret tt);
      collect_deduct_values self sample_area deduct_values rest
  end.

(** [for i in range(len(dvs) - 1, -1, -1): if dvs[i] > 2.0: dvs[i] = 2.0;
    break]. *)
Fixpoint flatten_lowest (dvs : loc) (n : nat) : M () :=
  match n with
  | O => ret tt
  | S i =>
      do v <- PyList.getitem dvs i;
      if 2 <? v then PyList.setitem dvs i 2
      else flatten_lowest dvs i
  end.

(** One round of the [while True] loop of step 3. *)
Definition cdv_round (self : PCICalculator) (dvs iteration_cdvs : loc)
  : M bool :=
  do cur <- PyList.read dvs;
  let q := Z.of_nat (count_gt2 cur) in
  let q := if (q =? 0)%Z then 1%Z else q in
  let tdv := Py.sum cur in
  do cdv <- lift (get_cdv self tdv q);
  do _u <- PyList.append iteration_cdvs cdv;
  if (q <=? 1)%Z then ret true
  else
    do n <- PyList.len dvs;
    do _v <- flatten_lowest dvs n;
    ret false.

Definition perfect_pavement : PCIResult :=
  Build_PCIResult 100 GOOD [] 0 [].

Definition calculate_sample_pci_body (fuel : nat) (self : PCICalculator)
    (observations : list DistressObservation.t) (sample_area : float)
  : M PCIResult :=
  if sample_area <=? 0
  then lift (Raise (ValueError "Sample area must be positive"))
  else
    match observations with
    | [] => ret perfect_pavement
    | _ :: _ =>
        (* Step 1 *)
        do deduct_values <- PyList.new [];
        do _u <- collect_deduct_values self sample_area deduct_values observations;
        do collected <- PyList.read deduct_values;
        match collected with
        | [] => ret perfect_pavement
        | _ :: _ =>
            (* Step 2 *)
            do _s <- list_sort_reverse deduct_values;
            do hdv <- PyList.getitem deduct_values 0;
            do max_dvs <- lift (_calculate_max_deduct_values hdv);
            do deduct_values <- PyList.slice_to deduct_values max_dvs;
            (* Step 3 *)
            do iteration_cdvs <- PyList.new [];
            do dvs <- PyList.copy deduct_values;
            do _w <- while_true fuel (cdv_round self dvs iteration_cdvs);
            (* Step 4 *)
            do cdvs <- PyList.read iteration_cdvs;
            do max_cdv <- lift (Py.max_list cdvs);
            let pci := 100 - max_cdv in
            let pci := Py.max2 0 (Py.min2 100 pci) in
            do reported <- PyList.read deduct_values;
            do history <- PyList.read iteration_cdvs;
            ret (Build_PCIResult pci (get_pci_rating pci) reported max_cdv history)
        end
    end.

Definition calculate_sample_pci (fuel : nat) (self : PCICalculator)
    (observations : list DistressObservation.t) (sample_area : float)
  : outcome PCIResult :=
  match calculate_sample_pci_body fuel self observations sample_area ∅ with
  | Return (r, _) => Return r
  | Raise e => Raise e
  | Timeout => Timeout
  end.

Module SampleUnit.
Record t : Type := Build
  { id : string; area : float; observations : list DistressObservation.t }.
End SampleUnit.

Module PavementSection.
Record t : Type := Build { id : string; sample_units : list SampleUnit.t }.

(** [for su in self.sample_units: ... weighted_sum += result.pci * su.area]. *)
Fixpoint accumulate (fuel : nat) (calculator : PCICalculator)
    (units : list SampleUnit.t) (weighted_sum : float) : outcome float :=
  match units with
  | [] => Return weighted_sum
  | su :: rest =>
      try result <- calculate_sample_pci fuel calculator
                      (SampleUnit.observations su) (SampleUnit.area su);
      accumulate fuel calculator rest (weighted_sum + pci result * SampleUnit.area su)
  end.

Definition calculate_section_pci (fuel : nat) (self : t)
    (calculator : PCICalculator) : outcome float :=
  match sample_units self with
  | [] => Return 100
  | _ :: _ =>
      let total_area := Py.sum (SampleUnit.area <$> sample_units self) in
      if total_area =? 0 then Return 100
      else
        try weighted_sum <- accumulate fuel calculator (sample_units self) 0;
        Py.truediv weighted_sum total_area
  end.
End PavementSection.

(** ** Specification vocabulary *)

(** The spec's count of a round: how many entries of the working set
    are strictly greater than 2.0. *)
Definition entries_above_2 (ws : list float) : nat :=
  length (List.filter (fun w => 2 <? w) ws).

(** The [q] of a round: that count, with 0 treated as 1. *)
Definition q_of (ws : list float) : Z :=
  Z.max 1 (Z.of_nat (entries_above_2 ws)).

(** The total of a working set: its entries added one after the other,
    from the first to the last, to a total that starts at 0. *)
Fixpoint total_from (acc : float) (ws : list float) : float :=
  match ws with
  | [] => acc
  | w :: rest => total_from (acc + w) rest
  end.

Definition total (ws : list float) : float := total_from 0 ws.

(** Flattening: the last (rightmost) entry above 2.0 becomes exactly
    2.0, every other entry stays. *)
Inductive flattened : list float -> list float -> Prop :=
| flattened_intro (before after : list float) (v : float) :
    (2 <? v) = true -> Forall (fun y => (2 <? y) = false) after ->
    flattened (before ++ v :: after) (before ++ 2 :: after).

(** The rounds of step 4 of the procedure, in the spec's words: each
    round takes [q] and the total of the current working set, records the
    CDV looked up for them, and either stops ([q <= 1]) or flattens the
    last entry above 2.0 and goes on. *)
Inductive rounds (self : PCICalculator) : list float -> list float -> list float -> Prop :=
| rounds_stop (ws : list float) (cdv : float) :
    (q_of ws <= 1)%Z ->
    get_cdv self (total ws) (q_of ws) = Return cdv ->
    rounds self ws [cdv] ws
| rounds_step (ws ws' : list float) (cdv : float) (hist final : list float) :
    (1 < q_of ws)%Z ->
    get_cdv self (total ws) (q_of ws) = Return cdv ->
    flattened ws ws' ->
    rounds self ws' hist final ->
    rounds self ws (cdv :: hist) final.

(** Sorted from the highest to the lowest value. *)
Definition descending (l : list float) : Prop :=
  StronglySorted (fun a b => (b <=? a) = true) l.

(** Step 1 on values: every computed deduct value, in observation
    order. *)
Fixpoint computed_deduct_values (self : PCICalculator) (sample_area : float)
    (observations : list DistressObservation.t) : outcome (list float) :=
  match observations with
  | [] => Return []
  | obs :: rest =>
      try density <- DistressType.calculate_density
                       (DistressObservation.distress_type obs)
                       (DistressObservation.quantity obs) sample_area;
      try dv <- get_deduct_value self
                  (DistressType.id (DistressObservation.distress_type obs))
                  (DistressObservation.severity obs) density;
      try dvs <- computed_deduct_values self sample_area rest;
      Return (dv :: dvs)
  end.

(** [if dv > 0] keeps the deduct values above zero. *)
Definition positive_only (dvs : list float) : list float :=
  List.filter (fun dv => 0 <? dv) dvs.

(** The x values of a point list ascend strictly in the order of floats;
    in a list of two points or more this excludes NaN. *)
Definition x_ascending (points : list (float * float)) : Prop :=
  forall i j p p', (i < j)%nat ->
    points !! i = Some p -> points !! j = Some p' -> (fst p <? fst p') = true.

(** A float that is a zero or a finite non-zero number, on its
    specification side. *)
Definition SFnumber (x : spec_float) : Prop :=
  match x with
  | S754_zero _ | S754_finite _ _ _ => True
  | _ => False
  end.

(** The exact value of a float, as a rational: [m * 2^e] with its sign
    for a finite float, 0 for the two zeros (and, for want of a value,
    for the infinities and NaN). *)
Definition exact (v : float) : Q :=
  match Prim2SF v with
  | S754_finite s m e =>
      let n := if s then Zneg m else Zpos m in
      match e with
      | Zneg p => Qmake n (2 ^ p)%positive
      | _ => inject_Z (n * 2 ^ e)
      end
  | _ => 0%Q
  end.

(** The cap as the code computes it: the four operations of
    [1 + (9 / 98) * (100 - hdv)] rounded one by one, the floor of the
    float they give, and at least 1. *)
Definition cap_as_rounded (hdv : float) : Z :=
  Z.max 1 (Qfloor (exact (1 + (9 / 98) * (100 - hdv)))).

(** The cap of the formula read in exact arithmetic, on the same
    highest deduct value. *)
Definition cap_in_exact_arithmetic (hdv : float) : Z :=
  Z.max 1 (Qfloor (1 + (9 # 98) * (100 - exact hdv))%Q).

(** The per-sample call on a unit. *)
Definition unit_pci (fuel : nat) (calculator : PCICalculator)
    (su : SampleUnit.t) : outcome PCIResult :=
  calculate_sample_pci fuel calculator
    (SampleUnit.observations su) (SampleUnit.area su).

(** The [(pci, area)] pairs of a section whose units returned [results]. *)
Definition paired (units : list SampleUnit.t) (results : list PCIResult)
  : list (float * float) :=
  zip (pci <$> results) (SampleUnit.area <$> units).

(** The area-weighted mean of [(pci, area)] pairs as a float computes
    it: the products and the areas are totalled from the first pair to
    the last, and the two totals divided. *)
Definition weighted_mean (samples : list (float * float)) : float :=
  total ((fun s => fst s * snd s) <$> samples) / total (snd <$> samples).

(** ** The call on list values *)

(** The backward scan of the code, on list values. *)
Fixpoint scan_back (n : nat) (cur : list float) : list float :=
  match n with
  | O => cur
  | S i => match cur !! i with
           | Some v => if 2 <? v then <[i := 2]> cur else scan_back i cur
           | None => cur
           end
  end.

(** The loop of step 3 on list values: the CDVs it records, in order. *)
Fixpoint iterate_cdvs (self : PCICalculator) (fuel : nat) (ws : list float)
  : outcome (list float) :=
  match fuel with
  | O => Timeout
  | S fuel' =>
      let q := Z.of_nat (count_gt2 ws) in
      let q := if (q =? 0)%Z then 1%Z else q in
      try cdv <- get_cdv self (Py.sum ws) q;
      if (q <=? 1)%Z then Return [cdv]
      else
        try hist <- iterate_cdvs self fuel' (scan_back (length ws) ws);
        Return (cdv :: hist)
  end.

(** Step 2 on list values: sort descending, cap at the allowed count. *)
Definition capped_deduct_values (pos : list float) : outcome (list float) :=
  match sort_reverse pos with
  | [] => Raise (IndexError "list index out of range")
  | hdv :: _ =>
      try max_dvs <- _calculate_max_deduct_values hdv;
      Return (Py.slice_to (sort_reverse pos) max_dvs)
  end.

(** Steps 2 to 4 on list values, from the deduct values above zero. *)
Definition sample_pci_of (self : PCICalculator) (fuel : nat) (pos : list float)
  : outcome PCIResult :=
  match pos with
  | [] => Return perfect_pavement
  | _ :: _ =>
      try capped <- capped_deduct_values pos;
      try hist <- iterate_cdvs self fuel capped;
      try max_cdv <- Py.max_list hist;
      let pci := Py.clamp100 (100 - max_cdv) in
      Return (Build_PCIResult pci (get_pci_rating pci) capped max_cdv hist)
  end.

(** The whole call on list values. *)
Definition sample_pci_value (fuel : nat) (self : PCICalculator)
    (observations : list DistressObservation.t) (sample_area : float)
  : outcome PCIResult :=
  if sample_area <=? 0
  then Raise (ValueError "Sample area must be positive")
  else
    try all <- computed_deduct_values self sample_area observations;
    sample_pci_of self fuel (positive_only all).

(** ** Example data *)

(** The calculator as [PCICalculator()] leaves it. *)
Definition example_calculator : PCICalculator :=
  Eval vm_compute in
    match PCICalculator_init with
    | Return c => c
    | _ => Build_PCICalculator ∅ ∅
    end.

Definition potholes : DistressType.t :=
  DistressType.Build 13 "Potholes" COUNT true.

(** The sample unit of [sample_inspection.py], example 1. *)
Definition su_001_observations : list DistressObservation.t :=
  [ DistressObservation.Build alligator_cracking (Some MEDIUM) 150;
    DistressObservation.Build long_trans_cracking (Some LOW) 75;
    DistressObservation.Build weathering (Some LOW) 500 ].

Definition su_001_result : PCIResult :=
  Eval vm_compute in
    match calculate_sample_pci 3 example_calculator su_001_observations 2500 with
    | Return r => r
    | _ => perfect_pavement
    end.

(** Seventy low-severity potholes and six patches of low-severity
    weathering of 500 sq ft each, on 2500 sq ft. *)
Definition seven_distresses : list DistressObservation.t :=
  DistressObservation.Build potholes (Some LOW) 70
  :: replicate 6 (DistressObservation.Build weathering (Some LOW) 500).

(** Low-severity weathering over a vanishing area. *)
Definition faint_weathering : list DistressObservation.t :=
  [ DistressObservation.Build weathering (Some LOW) 2.5e-17 ].

(** Low-severity weathering over 1 sq ft. *)
Definition slight_weathering : list DistressObservation.t :=
  [ DistressObservation.Build weathering (Some LOW) 1 ].

(** Two units of 2500 sq ft, one slightly weathered, one clean. *)
Definition su_slight : SampleUnit.t :=
  SampleUnit.Build "SU-A" 2500 slight_weathering.
Definition su_clean : SampleUnit.t := SampleUnit.Build "SU-B" 2500 [].
Definition equal_area_section : PavementSection.t :=
  PavementSection.Build "S" [su_slight; su_clean].

(** The example deduct curve of distress 1 at low severity. *)
Definition alligator_low_points : list (float * float) :=
  [(0, 0); (1, 6); (5, 18); (10, 26); (20, 34); (50, 44); (100, 52)].

End F64.

(** * Properties *)

(** ** Comparisons *)

Lemma ltb_lt a b : Py.ltb a b = true <-> a < b.
Proof.
  unfold Py.ltb. rewrite negb_true_iff, <- not_true_iff_false, Qle_bool_iff.
  split; [apply Qnot_le_lt | apply Qlt_not_le].
Qed.

Lemma ltb_ge a b : Py.ltb a b = false <-> b <= a.
Proof.
  unfold Py.ltb. rewrite negb_false_iff, Qle_bool_iff. reflexivity.
Qed.

Lemma leb_le a b : Py.leb a b = true <-> a <= b.
Proof. apply Qle_bool_iff. Qed.

Lemma leb_gt a b : Py.leb a b = false <-> b < a.
Proof.
  unfold Py.leb. rewrite <- not_true_iff_false, Qle_bool_iff.
  split; [apply Qnot_le_lt | apply Qlt_not_le].
Qed.

Lemma eqb_neq a b : Py.eqb a b = false <-> ~ a == b.
Proof.
  unfold Py.eqb. rewrite <- not_true_iff_false, Qeq_bool_iff. reflexivity.
Qed.

(** ** Curve interpolation *)

Section Bisect.
Variables (a : list Q) (x : Q).
(** [a] is sorted (weakly ascending), stated on indices. *)
Hypothesis a_sorted :
  forall i j, (i <= j < length a)%nat -> nth i a 0 <= nth j a 0.

Lemma bisect_loop_spec n : forall lo hi,
  (hi - lo <= n)%nat -> (lo <= hi <= length a)%nat ->
  (forall i, (i < lo)%nat -> nth i a 0 <= x) ->
  (forall i, (hi <= i < length a)%nat -> x < nth i a 0) ->
  let r := bisect_loop a x lo hi in
  (lo <= r <= hi)%nat /\
  (forall i, (i < r)%nat -> nth i a 0 <= x) /\
  (forall i, (r <= i < length a)%nat -> x < nth i a 0).
Proof.
  induction n as [|n IH]; intros lo hi Hn Hb Hlo Hhi; cbv zeta;
    rewrite bisect_loop_equation_1; destruct (lt_dec lo hi) as [Hlt|Hge];
    simp bisect_loop; try lia.
  - assert (lo = hi) by lia; subst hi. auto with lia.
  - cbv zeta.
    pose proof (Nat.div_mod_eq (lo + hi) 2) as Hd.
    pose proof (Nat.mod_upper_bound (lo + hi) 2 ltac:(lia)) as Hm.
    set (mid := ((lo + hi) / 2)%nat) in *.
    destruct (Py.ltb x (nth mid a 0)) eqn:Hc.
    + apply ltb_lt in Hc.
      destruct (IH lo mid) as (H1 & H2 & H3); try lia; auto.
      { intros i Hi. apply Qlt_le_trans with (nth mid a 0);
          [exact Hc | apply a_sorted; lia]. }
      split; [lia | auto].
    + apply ltb_ge in Hc.
      destruct (IH (mid + 1)%nat hi) as (H1 & H2 & H3); try lia; auto.
      { intros i Hi. apply Qle_trans with (nth mid a 0);
          [apply a_sorted; lia | exact Hc]. }
      split; [lia | auto].
  - assert (lo = hi) by lia; subst hi. auto with lia.
Qed.

Lemma bisect_right_spec :
  let r := bisect_right a x in
  (r <= length a)%nat /\
  (forall i, (i < r)%nat -> nth i a 0 <= x) /\
  (forall i, (r <= i < length a)%nat -> x < nth i a 0).
Proof.
  destruct (bisect_loop_spec (length a) 0 (length a)) as (H1 & H2 & H3);
    try lia.
  unfold bisect_right. split; [lia | auto].
Qed.
End Bisect.

Lemma getitem_nat {A} (l : list A) (i : nat) (v : A) :
  l !! i = Some v -> Py.getitem l (Z.of_nat i) = Return v.
Proof.
  intros Hi. unfold Py.getitem. cbv zeta.
  assert (Hpos : (Z.of_nat i <? 0)%Z = false) by (apply Z.ltb_ge; lia).
  rewrite Hpos. cbv iota. rewrite Hpos, Nat2Z.id, Hi. reflexivity.
Qed.

Lemma getitem_last {A} (l : list A) (v : A) :
  last l = Some v -> Py.getitem l (-1) = Return v.
Proof.
  intros Hl. unfold Py.getitem.
  assert (Hlen : (0 < length l)%nat).
  { destruct l; [discriminate | simpl; lia]. }
  rewrite last_lookup in Hl.
  cbv zeta. change (-1 <? 0)%Z with true. cbv iota.
  assert (Hpos : (-1 + Z.of_nat (length l) <? 0)%Z = false) by (apply Z.ltb_ge; lia).
  rewrite Hpos.
  replace (Z.to_nat (-1 + Z.of_nat (length l))) with (Nat.pred (length l)) by lia.
  rewrite Hl. reflexivity.
Qed.

Lemma x_strictly_increasing_lookup (points : list (Q * Q)) :
  x_strictly_increasing points = true ->
  forall i j p p', (i < j)%nat ->
    points !! i = Some p -> points !! j = Some p' -> fst p < fst p'.
Proof.
  induction points as [|a [|b rest] IH]; intros Hs i j p p' Hij Hi Hj.
  - discriminate.
  - destruct i, j; try discriminate; lia.
  - simpl in Hs. destruct (Py.leb (fst b) (fst a)) eqn:Hab; [discriminate|].
    apply leb_gt in Hab.
    assert (Hhead : forall k q, (b :: rest) !! k = Some q -> fst a < fst q).
    { intros [|k] q Hk.
      - injection Hk as <-. exact Hab.
      - apply Qlt_trans with (fst b); [exact Hab|].
        apply (IH Hs 0%nat (S k) b q); [lia | reflexivity | exact Hk]. }
    destruct i as [|i], j as [|j]; try lia.
    + injection Hi as <-. apply (Hhead j). exact Hj.
    + apply (IH Hs i j); [lia | exact Hi | exact Hj].
Qed.

Lemma nth_map_fst (points : list (Q * Q)) i p :
  points !! i = Some p -> nth i (map fst points) 0 = fst p.
Proof.
  revert i; induction points as [|a l IH]; intros [|i] Hi; try discriminate.
  - injection Hi as <-. reflexivity.
  - simpl. apply IH. exact Hi.
Qed.

Lemma x_values_sorted (points : list (Q * Q)) :
  x_strictly_increasing points = true ->
  forall i j, (i <= j < length (map fst points))%nat ->
    nth i (map fst points) 0 <= nth j (map fst points) 0.
Proof.
  intros Hs i j Hij. rewrite length_map in Hij.
  destruct (lookup_lt_is_Some_2 points i ltac:(lia)) as [p Hp].
  destruct (lookup_lt_is_Some_2 points j ltac:(lia)) as [p' Hp'].
  rewrite (nth_map_fst _ _ _ Hp), (nth_map_fst _ _ _ Hp').
  destruct (decide (i = j)) as [->|Hne].
  - rewrite Hp in Hp'. injection Hp' as <-. apply Qle_refl.
  - apply Qlt_le_weak.
    apply (x_strictly_increasing_lookup points Hs i j); [lia | exact Hp | exact Hp'].
Qed.

Lemma interpolate_bracket points x i pf p0 p1 :
  x_strictly_increasing points = true ->
  head points = Some pf -> fst pf < x ->
  points !! i = Some p0 -> points !! S i = Some p1 ->
  fst p0 <= x -> x < fst p1 ->
  interpolate_curve points x = Return (lerp p0 p1 x).
Proof.
  intros Hs Hf Hfx H0 H1 Hx0 Hx1.
  destruct points as [|pf' rest]; [discriminate|].
  injection Hf as ->.
  unfold interpolate_curve.
  apply leb_gt in Hfx. rewrite Hfx.
  destruct (last (pf :: rest)) as [pl|] eqn:Hl;
    [|apply last_None in Hl; discriminate].
  rewrite (getitem_last _ _ Hl). cbn [obind].
  assert (Hlx : x < fst pl).
  { rewrite last_lookup in Hl.
    destruct (decide (S i = Nat.pred (length (pf :: rest)))) as [He|Hne].
    - rewrite <- He, H1 in Hl. injection Hl as <-. exact Hx1.
    - apply Qlt_trans with (fst p1); [exact Hx1|].
      pose proof (lookup_lt_Some _ _ _ H1).
      apply (x_strictly_increasing_lookup _ Hs (S i) (Nat.pred (length (pf :: rest))));
        [lia | exact H1 | exact Hl]. }
  apply leb_gt in Hlx. rewrite Hlx. cbv zeta.
  destruct (bisect_right_spec (map fst (pf :: rest)) x (x_values_sorted _ Hs))
    as (Hr & Hlow & Hhigh).
  set (r := bisect_right (map fst (pf :: rest)) x) in *.
  rewrite length_map in Hr, Hhigh.
  pose proof (lookup_lt_Some _ _ _ H0) as Hi0.
  pose proof (lookup_lt_Some _ _ _ H1) as Hi1.
  assert (Hri : r = S i).
  { destruct (Nat.lt_trichotomy r (S i)) as [Hlt|[Heq|Hgt]]; [|exact Heq|].
    - specialize (Hhigh i ltac:(lia)). rewrite (nth_map_fst _ _ _ H0) in Hhigh. lra.
    - specialize (Hlow (S i) ltac:(lia)). rewrite (nth_map_fst _ _ _ H1) in Hlow. lra. }
  rewrite Hri.
  replace (Z.of_nat (S i) - 1)%Z with (Z.of_nat i) by lia.
  rewrite (getitem_nat _ _ _ H0), (getitem_nat _ _ _ H1). cbn [obind].
  destruct p0 as [x0 y0], p1 as [x1 y1]. simpl in *.
  assert (Hne : Py.eqb x1 x0 = false) by (apply eqb_neq; lra).
  rewrite Hne. reflexivity.
Qed.

(** ** The CDV lookup *)

Lemma fold_left_Zmax (l : list Z) : forall x,
  let y := fold_left Z.max l x in
  (y = x \/ y ∈ l) /\ (x <= y)%Z /\ (forall z, z ∈ l -> (z <= y)%Z).
Proof.
  induction l as [|a l IH]; intros x; cbn [fold_left].
  - split; [left; reflexivity|]. split; [lia|].
    intros z Hz. apply elem_of_nil in Hz. destruct Hz.
  - destruct (IH (Z.max x a)) as (Hin & Hle & Hall).
    split; [|split].
    + destruct Hin as [Heq|Hin].
      * destruct (Z.max_spec x a) as [[_ Hm]|[_ Hm]]; rewrite Hm in *.
        -- right. rewrite Heq. apply elem_of_cons; left; reflexivity.
        -- left. exact Heq.
      * right. apply elem_of_cons; right; exact Hin.
    + lia.
    + intros z Hz. apply elem_of_cons in Hz. destruct Hz as [->|Hz]; [lia|auto].
Qed.

Lemma max_keys_spec (l : list Z) (k : Z) :
  Py.max_keys l = Return k -> k ∈ l /\ (forall z, z ∈ l -> (z <= k)%Z).
Proof.
  destruct l as [|x l]; [discriminate|]. cbn [Py.max_keys].
  intros Hk. injection Hk as <-.
  destruct (fold_left_Zmax l x) as (Hin & Hle & Hall).
  split.
  - destruct Hin as [->|Hin]; [apply elem_of_cons; left; reflexivity|].
    apply elem_of_cons; right; exact Hin.
  - intros z Hz. apply elem_of_cons in Hz. destruct Hz as [->|Hz]; auto.
Qed.

Lemma registered_keys (self : PCICalculator) (k : Z) :
  k ∈ (fst <$> map_to_list (cdv_curves self)) <->
  is_Some (cdv_curves self !! k).
Proof.
  rewrite list_elem_of_fmap. split.
  - intros ([k' c] & -> & Hin). apply elem_of_map_to_list in Hin.
    exists c. exact Hin.
  - intros [c Hc]. exists (k, c). split; [reflexivity|].
    apply elem_of_map_to_list. exact Hc.
Qed.


(** C7, as the code has it.  With [largest] the value of
    [max(self.cdv_curves.keys())]: [largest] is a registered bucket and no
    registered bucket exceeds it; the key looked up is
    [max(1, min(q, largest))]; a request at or above a largest bucket that
    is at least 1 uses that bucket's curve; a registered key uses its own
    curve, and an unregistered one raises instead of falling back to
    another curve. *)
Theorem get_cdv_clamps (self : PCICalculator) (tdv : Q) (q largest : Z) :
  Py.max_keys (fst <$> map_to_list (cdv_curves self)) = Return largest ->
  let q_clamped := Z.max 1 (Z.min q largest) in
  is_Some (cdv_curves self !! largest) /\
  (forall k, is_Some (cdv_curves self !! k) -> (k <= largest)%Z) /\
  (1 <= q_clamped)%Z /\
  ((1 <= largest)%Z -> (q_clamped <= largest)%Z) /\
  ((1 <= largest <= q)%Z -> forall curve,
     cdv_curves self !! largest = Some curve ->
     get_cdv self tdv q = CDVCurve.get_cdv curve tdv) /\
  (forall curve, cdv_curves self !! q_clamped = Some curve ->
     get_cdv self tdv q = CDVCurve.get_cdv curve tdv) /\
  (cdv_curves self !! q_clamped = None ->
     get_cdv self tdv q = Raise (ValueError "No CDV curve for q")).
Proof.
  intros Hmax q_clamped.
  destruct (max_keys_spec _ _ Hmax) as [Hin Hub].
  assert (Hrun : get_cdv self tdv q =
                 match cdv_curves self !! q_clamped with
                 | None => Raise (ValueError "No CDV curve for q")
                 | Some curve => CDVCurve.get_cdv curve tdv
                 end).
  { unfold get_cdv. rewrite Hmax. reflexivity. }
  split; [apply registered_keys; exact Hin|].
  split; [intros k Hk; apply Hub, registered_keys; exact Hk|].
  split; [subst q_clamped; lia|].
  split; [subst q_clamped; lia|].
  split; [|split].
  - intros Hq curve Hc. rewrite Hrun.
    replace q_clamped with largest by (subst q_clamped; lia).
    rewrite Hc. reflexivity.
  - intros curve Hc. rewrite Hrun, Hc. reflexivity.
  - intros Hc. rewrite Hrun, Hc. reflexivity.
Qed.

Lemma PCICalculator_init_example :
  PCICalculator_init = Return example_calculator.
Proof. vm_compute. reflexivity. Qed.

Lemma get_cdv_clamps_witness :
  Py.max_keys (fst <$> map_to_list (cdv_curves example_calculator)) = Return 7%Z /\
  get_cdv example_calculator 35 9 = Return (345 # 30).
Proof.
  split; [vm_compute; reflexivity|].
  destruct (cdv_curves example_calculator !! 7%Z) as [curve|] eqn:Hc;
    [|vm_compute in Hc; discriminate].
  rewrite (proj1 (proj2 (proj2 (proj2 (proj2
    (get_cdv_clamps example_calculator 35 9 7 eq_refl))))) ltac:(lia) curve Hc).
  vm_compute in Hc. injection Hc as <-. vm_compute. reflexivity.
Defined.

(** C7 as stated fails: bucket 2 lies between 1 and the largest bucket 3,
    is not registered, and the lookup raises instead of moving to a
    neighbouring bucket. *)
Lemma get_cdv_gap_raises :
  load_cdv_curves example_calculator gapped_cdv_curves = Return gapped_calculator /\
  Py.max_keys (fst <$> map_to_list (cdv_curves gapped_calculator)) = Return 3%Z /\
  (1 <= 2 <= 3)%Z /\
  get_cdv gapped_calculator 10 2 = Raise (ValueError "No CDV curve for q") /\
  ~ (exists cdv, get_cdv gapped_calculator 10 2 = Return cdv).
Proof.
  split; [vm_compute; reflexivity|].
  split; [vm_compute; reflexivity|].
  split; [lia|].
  split; [vm_compute; reflexivity|].
  intros [cdv H]. vm_compute in H. discriminate.
Qed.

(** ** Lists of deduct values *)

Lemma count_gt2_le_length (l : list Q) : (count_gt2 l <= length l)%nat.
Proof.
  induction l as [|x l IH]; simpl; [lia|].
  destruct (Py.ltb 2 x); lia.
Qed.

Lemma count_gt2_app (l1 l2 : list Q) :
  count_gt2 (l1 ++ l2) = (count_gt2 l1 + count_gt2 l2)%nat.
Proof.
  induction l1 as [|x l1 IH]; simpl; [reflexivity|]. rewrite IH. lia.
Qed.

Lemma count_gt2_zero (l : list Q) :
  Forall (fun y => y <= 2) l -> count_gt2 l = 0%nat.
Proof.
  induction 1 as [|y l Hy _ IH]; simpl; [reflexivity|].
  apply ltb_ge in Hy. rewrite Hy, IH. reflexivity.
Qed.

Lemma flattened_count (ws ws' : list Q) :
  flattened ws ws' -> S (count_gt2 ws') = count_gt2 ws.
Proof.
  intros [before after v Hv Hafter].
  rewrite !count_gt2_app. simpl.
  apply ltb_lt in Hv. rewrite Hv.
  change (Py.ltb 2 2) with false. lia.
Qed.


Lemma scan_back_flattened (cur : list Q) : forall n,
  (n <= length cur)%nat ->
  (0 < count_gt2 (take n cur))%nat ->
  Forall (fun y => y <= 2) (drop n cur) ->
  flattened cur (scan_back n cur).
Proof.
  induction n as [|i IH]; intros Hn Hc Hdrop.
  - rewrite take_0 in Hc. simpl in Hc. lia.
  - simpl. destruct (lookup_lt_is_Some_2 cur i ltac:(lia)) as [v Hv].
    rewrite Hv.
    pose proof (take_drop_middle cur i v Hv) as Hsplit.
    destruct (Py.ltb 2 v) eqn:Hgt.
    + apply ltb_lt in Hgt.
      rewrite <- Hsplit at 1.
      rewrite (insert_take_drop cur i); [|lia].
      constructor; [exact Hgt | exact Hdrop].
    + apply IH; [lia | |].
      * rewrite (take_S_r cur i v Hv), count_gt2_app in Hc.
        simpl in Hc. rewrite Hgt in Hc. lia.
      * rewrite (drop_S cur v i Hv). constructor; [|exact Hdrop].
        apply ltb_ge. exact Hgt.
Qed.

(** ** Pure calls never exhaust a budget *)

Lemma getitem_no_timeout {A} (l : list A) (i : Z) : Py.getitem l i <> Timeout.
Proof.
  unfold Py.getitem. cbv zeta.
  destruct (_ <? 0)%Z; [discriminate|].
  destruct (l !! _); discriminate.
Qed.

Lemma interpolate_curve_no_timeout (points : list (Q * Q)) (x : Q) :
  interpolate_curve points x <> Timeout.
Proof.
  unfold interpolate_curve.
  destruct points as [|p0 rest]; [discriminate|].
  destruct (Py.leb x (fst p0)); [discriminate|].
  pose proof (getitem_no_timeout (p0 :: rest) (-1)) as H1.
  destruct (Py.getitem (p0 :: rest) (-1)) as [pl|e|]; cbn [obind];
    [|discriminate|congruence].
  destruct (Py.leb (fst pl) x); [discriminate|]. cbv zeta.
  match goal with |- obind (Py.getitem ?l ?i) _ <> _ =>
    pose proof (getitem_no_timeout l i) as H2; destruct (Py.getitem l i) as [[x0 y0]|e|]
  end; cbn [obind]; [|discriminate|congruence].
  match goal with |- obind (Py.getitem ?l ?i) _ <> _ =>
    pose proof (getitem_no_timeout l i) as H3; destruct (Py.getitem l i) as [[x1 y1]|e|]
  end; cbn [obind]; [|discriminate|congruence].
  destruct (Py.eqb x1 x0); discriminate.
Qed.

Lemma get_cdv_no_timeout (self : PCICalculator) (tdv : Q) (q : Z) :
  get_cdv self tdv q <> Timeout.
Proof.
  unfold get_cdv.
  destruct (fst <$> map_to_list (cdv_curves self)) as [|k ks]; cbn [Py.max_keys obind];
    [discriminate|].
  destruct (cdv_curves self !! _) as [curve|]; [|discriminate].
  unfold CDVCurve.get_cdv.
  pose proof (interpolate_curve_no_timeout (CDVCurve.points curve) tdv) as Hi.
  destruct (interpolate_curve (CDVCurve.points curve) tdv); cbn [obind];
    [discriminate | discriminate | congruence].
Qed.

Lemma get_deduct_value_no_timeout (self : PCICalculator) id sev density :
  get_deduct_value self id sev density <> Timeout.
Proof.
  unfold get_deduct_value. cbv zeta.
  destruct (deduct_curves self !! _) as [curve|]; [|discriminate].
  unfold DeductCurve.get_deduct_value.
  pose proof (interpolate_curve_no_timeout (DeductCurve.points curve) density) as Hi.
  destruct (interpolate_curve (DeductCurve.points curve) density); cbn [obind];
    [discriminate | discriminate | congruence].
Qed.

(** ** Running the store code *)

Lemma q_of_le_1 (ws : list Q) : (q_of ws <= 1)%Z <-> (count_gt2 ws <= 1)%nat.
Proof.
  unfold q_of. cbv zeta.
  destruct (Z.eqb_spec (Z.of_nat (count_gt2 ws)) 0); lia.
Qed.

Lemma flatten_lowest_run (dvs : loc) : forall n (h : store) cur,
  h !! dvs = Some cur -> (n <= length cur)%nat ->
  flatten_lowest dvs n h = Return (tt, <[dvs := scan_back n cur]> h).
Proof.
  induction n as [|i IH]; intros h cur Hh Hn.
  - simpl. unfold ret. rewrite (insert_id h dvs cur Hh). reflexivity.
  - cbn [flatten_lowest scan_back]. unfold bind, PyList.getitem.
    rewrite (lookup_total_correct h dvs cur Hh).
    destruct (lookup_lt_is_Some_2 cur i ltac:(lia)) as [v Hv]. rewrite Hv.
    destruct (Py.ltb 2 v).
    + unfold PyList.setitem. rewrite (lookup_total_correct h dvs cur Hh).
      destruct (decide (i < length cur)%nat); [reflexivity | lia].
    + apply IH; [exact Hh | lia].
Qed.

Lemma cdv_round_run (self : PCICalculator) (dvs cdvs : loc) (h : store) ws acc :
  dvs <> cdvs -> h !! dvs = Some ws -> h !! cdvs = Some acc ->
  cdv_round self dvs cdvs h =
  match get_cdv self (Py.sum ws) (q_of ws) with
  | Return cdv =>
      let h1 := <[cdvs := acc ++ [cdv]]> h in
      if (q_of ws <=? 1)%Z then Return (true, h1)
      else Return (false, <[dvs := scan_back (length ws) ws]> h1)
  | Raise e => Raise e
  | Timeout => Timeout
  end.
Proof.
  intros Hne Hd Hc. unfold cdv_round, bind, PyList.read, lift.
  rewrite (lookup_total_correct h dvs ws Hd). fold (q_of ws).
  destruct (get_cdv self (Py.sum ws) (q_of ws)) as [cdv|e|]; try reflexivity.
  unfold PyList.append. rewrite (lookup_total_correct h cdvs acc Hc).
  cbv zeta. destruct (q_of ws <=? 1)%Z; [reflexivity|].
  assert (Hd1 : <[cdvs := acc ++ [cdv]]> h !! dvs = Some ws).
  { rewrite lookup_insert_ne; [exact Hd | congruence]. }
  unfold PyList.len. rewrite (lookup_total_correct _ dvs ws Hd1).
  rewrite (flatten_lowest_run dvs (length ws) _ ws); [reflexivity | exact Hd1 | lia].
Qed.

Lemma while_rounds (self : PCICalculator) (dvs cdvs : loc) :
  dvs <> cdvs ->
  forall fuel (h : store) ws acc,
    h !! dvs = Some ws -> h !! cdvs = Some acc ->
    match while_true fuel (cdv_round self dvs cdvs) h with
    | Return (_, h') =>
        exists hist final,
          rounds self ws hist final /\
          h' !! dvs = Some final /\
          h' !! cdvs = Some (acc ++ hist) /\
          (forall l, l <> dvs -> l <> cdvs -> h' !! l = h !! l)
    | Raise e => exists tdv q, get_cdv self tdv q = Raise e
    | Timeout => (fuel < Nat.max 1 (count_gt2 ws))%nat
    end.
Proof.
  intros Hne. induction fuel as [|fuel IH]; intros h ws acc Hd Hc.
  - simpl. lia.
  - cbn [while_true]. unfold bind at 1.
    rewrite (cdv_round_run self dvs cdvs h ws acc Hne Hd Hc).
    destruct (get_cdv self (Py.sum ws) (q_of ws)) as [cdv|e|] eqn:Hcdv.
    + cbv zeta. destruct (Z.leb_spec (q_of ws) 1) as [Hq|Hq].
      * unfold ret. exists [cdv], ws. split; [constructor; assumption|].
        split; [rewrite lookup_insert_ne; [exact Hd | congruence]|].
        split; [apply lookup_insert_eq|].
        intros l _ Hl. apply lookup_insert_ne. congruence.
      * assert (Hcount : (1 < count_gt2 ws)%nat).
        { pose proof (q_of_le_1 ws). lia. }
        assert (Hflat : flattened ws (scan_back (length ws) ws)).
        { apply scan_back_flattened; [lia | |].
          - rewrite firstn_all. lia.
          - rewrite drop_all. constructor. }
        set (ws' := scan_back (length ws) ws) in *.
        set (h2 := <[dvs := ws']> (<[cdvs := acc ++ [cdv]]> h)).
        specialize (IH h2 ws' (acc ++ [cdv])).
        assert (H2d : h2 !! dvs = Some ws') by apply lookup_insert_eq.
        assert (H2c : h2 !! cdvs = Some (acc ++ [cdv])).
        { unfold h2. rewrite lookup_insert_ne; [|exact Hne].
          apply lookup_insert_eq. }
        specialize (IH H2d H2c).
        destruct (while_true fuel (cdv_round self dvs cdvs) h2) as [[u h']|e|].
        -- destruct IH as (hist & final & Hr & Hfd & Hfc & Hframe).
           exists (cdv :: hist), final.
           split; [econstructor; eassumption|].
           split; [exact Hfd|].
           split; [rewrite Hfc, <- app_assoc; reflexivity|].
           intros l Hld Hlc. rewrite (Hframe l Hld Hlc). unfold h2.
           rewrite !lookup_insert_ne; [reflexivity | congruence | congruence].
        -- exact IH.
        -- pose proof (flattened_count _ _ Hflat). lia.
    + eauto.
    + exfalso. exact (get_cdv_no_timeout _ _ _ Hcdv).
Qed.

Lemma computed_deduct_values_length self area obs all :
  computed_deduct_values self area obs = Return all -> length all = length obs.
Proof.
  revert all; induction obs as [|o rest IH]; intros all; cbn [computed_deduct_values].
  - intros H; injection H as <-. reflexivity.
  - destruct (DistressType.calculate_density _ _ _); cbn [obind]; try discriminate.
    destruct (get_deduct_value _ _ _ _); cbn [obind]; try discriminate.
    destruct (computed_deduct_values self area rest) as [dvs| |]; cbn [obind];
      try discriminate.
    intros H; injection H as <-. simpl. rewrite (IH dvs eq_refl). reflexivity.
Qed.

Lemma positive_only_length (dvs : list Q) :
  (length (positive_only dvs) <= length dvs)%nat.
Proof.
  induction dvs as [|x l IH]; simpl; [lia|].
  destruct (Py.ltb 0 x); simpl; lia.
Qed.

Lemma insert_desc_length x l : length (insert_desc x l) = S (length l).
Proof.
  induction l as [|y l IH]; simpl; [reflexivity|].
  destruct (Py.ltb x y); simpl; [rewrite IH|]; reflexivity.
Qed.

Lemma sort_reverse_length l : length (sort_reverse l) = length l.
Proof.
  induction l as [|x l IH]; [reflexivity|].
  change (sort_reverse (x :: l)) with (insert_desc x (sort_reverse l)).
  rewrite insert_desc_length, IH. reflexivity.
Qed.

Lemma slice_to_length {A} (l : list A) m :
  (length (Py.slice_to l m) <= length l)%nat.
Proof.
  unfold Py.slice_to. destruct (m <? 0)%Z; rewrite length_take; lia.
Qed.

Lemma capped_deduct_values_length dvs :
  (length (capped_deduct_values dvs) <= length dvs)%nat.
Proof.
  unfold capped_deduct_values.
  destruct (sort_reverse dvs) as [|hdv rest] eqn:Hs; [simpl; lia|].
  rewrite <- Hs. etransitivity; [apply slice_to_length|].
  rewrite sort_reverse_length. lia.
Qed.

Lemma new_run (v : list Q) (h : store) :
  exists l, PyList.new v h = Return (l, <[l := v]> h) /\ h !! l = None.
Proof.
  exists (fresh (dom h)). split; [reflexivity|].
  apply not_elem_of_dom. apply is_fresh.
Qed.

Lemma collect_run (self : PCICalculator) (area : Q) (l : loc) :
  0 < area ->
  forall obs (h : store) acc, h !! l = Some acc ->
    match collect_deduct_values self area l obs h with
    | Return (_, h') =>
        exists all, computed_deduct_values self area obs = Return all /\
                    h' = <[l := acc ++ positive_only all]> h
    | Raise e => computed_deduct_values self area obs = Raise e
    | Timeout => False
    end.
Proof.
  intros Harea. apply leb_gt in Harea.
  induction obs as [|o rest IH]; intros h acc Hl.
  - simpl. exists []. split; [reflexivity|].
    simpl. rewrite app_nil_r, (insert_id h l acc Hl). reflexivity.
  - cbn [collect_deduct_values computed_deduct_values].
    unfold DistressType.calculate_density. rewrite Harea.
    unfold bind at 1. unfold lift at 1. cbn [obind].
    unfold bind at 1. unfold lift at 1.
    pose proof (get_deduct_value_no_timeout self
      (DistressType.id (DistressObservation.distress_type o))
      (DistressObservation.severity o)
      (DistressObservation.quantity o / area * 100)) as Hnt.
    destruct (get_deduct_value _ _ _ _) as [dv|e|]; cbn [obind];
      [|reflexivity|congruence].
    unfold bind at 1.
    destruct (Py.ltb 0 dv) eqn:Hpos.
    + unfold PyList.append. rewrite (lookup_total_correct h l acc Hl).
      specialize (IH (<[l := acc ++ [dv]]> h) (acc ++ [dv]) (lookup_insert_eq _ _ _)).
      destruct (collect_deduct_values self area l rest _) as [[u h']|e|].
      * destruct IH as (all & Hall & Hh'). exists (dv :: all).
        rewrite Hall. cbn [obind]. split; [reflexivity|].
        rewrite Hh', insert_insert_eq. simpl. rewrite Hpos, <- app_assoc.
        reflexivity.
      * rewrite IH. reflexivity.
      * exact IH.
    + unfold ret. specialize (IH h acc Hl).
      destruct (collect_deduct_values self area l rest h) as [[u h']|e|].
      * destruct IH as (all & Hall & Hh'). exists (dv :: all).
        rewrite Hall. cbn [obind]. split; [reflexivity|].
        rewrite Hh'. simpl. rewrite Hpos. reflexivity.
      * rewrite IH. reflexivity.
      * exact IH.
Qed.

Lemma sort_reverse_nonempty x l : sort_reverse (x :: l) <> [].
Proof.
  intros H. apply (f_equal length) in H.
  rewrite sort_reverse_length in H. discriminate.
Qed.

Lemma calculate_sample_pci_body_run (fuel : nat) (self : PCICalculator)
    (observations : list DistressObservation.t) (sample_area : Q) :
  match calculate_sample_pci_body fuel self observations sample_area ∅ with
  | Return (r, h) =>
      0 < sample_area /\
      exists all,
        computed_deduct_values self sample_area observations = Return all /\
        match positive_only all with
        | [] => r = perfect_pavement
        | _ :: _ =>
            let capped := capped_deduct_values (positive_only all) in
            exists (final : list Q) (reported working : loc),
              reported <> working /\
              h !! reported = Some capped /\
              h !! working = Some final /\
              result_of_rounds self capped final r
        end
  | Raise e =>
      sample_area <= 0 \/
      computed_deduct_values self sample_area observations = Raise e \/
      exists tdv q, get_cdv self tdv q = Raise e
  | Timeout => (fuel < length observations)%nat
  end.
Proof.
  unfold calculate_sample_pci_body.
  destruct (Py.leb sample_area 0) eqn:Harea;
    [left; apply leb_le; exact Harea|].
  apply leb_gt in Harea.
  destruct observations as [|o rest] eqn:Hobs.
  { cbn. split; [exact Harea|]. exists []. split; reflexivity. }
  rewrite <- Hobs.
  assert (Hlen : (0 < length observations)%nat) by (rewrite Hobs; simpl; lia).
  clear Hobs.
  (* Step 1 *)
  unfold bind at 1.
  destruct (new_run [] ∅) as (la & -> & _).
  unfold bind at 1.
  pose proof (collect_run self sample_area la Harea observations
                (<[la := []]> ∅) [] (lookup_insert_eq _ _ _)) as Hcol.
  destruct (collect_deduct_values self sample_area la observations _)
    as [[u h2]|e|]; [|right; left; exact Hcol|destruct Hcol].
  destruct Hcol as (all & Hall & ->).
  rewrite insert_insert_eq, app_nil_l.
  set (pos := positive_only all).
  assert (Hposlen : (length pos <= length observations)%nat).
  { rewrite <- (computed_deduct_values_length _ _ _ _ Hall).
    apply positive_only_length. }
  unfold bind at 1. unfold PyList.read at 1. rewrite lookup_total_insert_eq.
  destruct pos as [|p0 prest] eqn:Hpos.
  { cbn. split; [exact Harea|]. exists all. rewrite Hall.
    split; [reflexivity|]. fold pos. rewrite Hpos. reflexivity. }
  rewrite <- Hpos in *.
  (* Step 2 *)
  unfold bind at 1. unfold list_sort_reverse at 1.
  rewrite lookup_total_insert_eq, insert_insert_eq.
  unfold bind at 1. unfold PyList.getitem at 1. rewrite lookup_total_insert_eq.
  destruct (sort_reverse pos) as [|hdv srest] eqn:Hsort.
  { exfalso. rewrite Hpos in Hsort. exact (sort_reverse_nonempty _ _ Hsort). }
  rewrite <- Hsort. replace (sort_reverse pos !! 0%nat) with (Some hdv)
    by (rewrite Hsort; reflexivity).
  unfold bind at 1. unfold PyList.slice_to at 1. rewrite lookup_total_insert_eq.
  set (capped := Py.slice_to (sort_reverse pos) (_calculate_max_deduct_values hdv)).
  assert (Hcap : capped_deduct_values pos = capped).
  { unfold capped_deduct_values. rewrite Hsort. rewrite <- Hsort. reflexivity. }
  set (h3 := <[la := sort_reverse pos]> (∅ : store)).
  destruct (new_run capped h3) as (lb & -> & Hlb).
  set (h4 := <[lb := capped]> h3).
  (* Step 3 *)
  unfold bind at 1.
  destruct (new_run [] h4) as (lc & -> & Hlc).
  set (h5 := <[lc := []]> h4).
  unfold bind at 1. unfold PyList.copy at 1.
  assert (Hbc : lb <> lc).
  { intros ->. unfold h4 in Hlc. rewrite lookup_insert_eq in Hlc. discriminate. }
  assert (H5b : h5 !! lb = Some capped).
  { unfold h5. rewrite lookup_insert_ne; [|congruence]. apply lookup_insert_eq. }
  rewrite (lookup_total_correct h5 lb capped H5b).
  destruct (new_run capped h5) as (ld & -> & Hld).
  set (h6 := <[ld := capped]> h5).
  assert (Hdc : ld <> lc).
  { intros ->. unfold h5 in Hld. rewrite lookup_insert_eq in Hld. discriminate. }
  assert (Hdb : lb <> ld).
  { intros ->. rewrite H5b in Hld. discriminate. }
  assert (H6d : h6 !! ld = Some capped) by apply lookup_insert_eq.
  assert (H6c : h6 !! lc = Some []).
  { unfold h6. rewrite lookup_insert_ne; [|exact Hdc]. apply lookup_insert_eq. }
  assert (H6b : h6 !! lb = Some capped).
  { unfold h6. rewrite lookup_insert_ne; [exact H5b | congruence]. }
  unfold bind at 1.
  pose proof (while_rounds self ld lc Hdc fuel h6 capped [] H6d H6c) as Hloop.
  destruct (while_true fuel (cdv_round self ld lc) h6) as [[u' h7]|e|];
    [|right; right; exact Hloop|].
  2:{ pose proof (count_gt2_le_length capped).
      pose proof (capped_deduct_values_length pos). rewrite Hcap in *. lia. }
  destruct Hloop as (hist & final & Hrounds & H7d & H7c & Hframe).
  rewrite app_nil_l in H7c.
  assert (H7b : h7 !! lb = Some capped).
  { rewrite (Hframe lb Hdb Hbc). exact H6b. }
  (* Step 4 *)
  unfold bind at 1. unfold PyList.read at 1.
  rewrite (lookup_total_correct h7 lc hist H7c).
  unfold bind at 1. unfold lift at 1.
  destruct (Py.max_list hist) as [mx|e|] eqn:Hmax;
    [|destruct Hrounds; discriminate|destruct hist; discriminate].
  unfold bind at 1. unfold PyList.read at 1.
  rewrite (lookup_total_correct h7 lb capped H7b).
  unfold bind at 1. unfold PyList.read at 1.
  rewrite (lookup_total_correct h7 lc hist H7c).
  unfold ret.
  split; [exact Harea|]. exists all. split; [exact Hall|].
  fold pos. rewrite Hpos. rewrite <- Hpos. cbv zeta. rewrite Hcap.
  exists final, lb, ld. split; [exact Hdb|]. split; [exact H7b|].
  split; [exact H7d|].
  unfold result_of_rounds. cbn [deduct_values iteration_cdvs max_cdv pci rating].
  split; [reflexivity|]. split; [exact Hrounds|].
  split; [exact Hmax|]. split; reflexivity.
Qed.

Lemma calculate_sample_pci_run (fuel : nat) (self : PCICalculator)
    (observations : list DistressObservation.t) (sample_area : Q) :
  match calculate_sample_pci fuel self observations sample_area with
  | Return r =>
      0 < sample_area /\
      exists all,
        computed_deduct_values self sample_area observations = Return all /\
        match positive_only all with
        | [] => r = perfect_pavement
        | _ :: _ =>
            exists final,
              result_of_rounds self (capped_deduct_values (positive_only all))
                final r
        end
  | Raise e =>
      sample_area <= 0 \/
      computed_deduct_values self sample_area observations = Raise e \/
      exists tdv q, get_cdv self tdv q = Raise e
  | Timeout => (fuel < length observations)%nat
  end.
Proof.
  pose proof (calculate_sample_pci_body_run fuel self observations sample_area)
    as Hrun.
  unfold calculate_sample_pci.
  destruct (calculate_sample_pci_body fuel self observations sample_area ∅)
    as [[r h]|e|]; [|exact Hrun|exact Hrun].
  destruct Hrun as (Harea & all & Hall & Hres).
  split; [exact Harea|]. exists all. split; [exact Hall|].
  destruct (positive_only all); [exact Hres|].
  destruct Hres as (final & _ & _ & _ & _ & _ & Hres).
  exists final. exact Hres.
Qed.

(** ** Sorting and capping *)



(** [max(1, int(m))] is [max(1, floor(m))]: truncation and floor differ
    only below zero, where the maximum with 1 hides the difference. *)
Lemma max_int_floor (m : Q) : Z.max 1 (Py.int m) = Z.max 1 (Qfloor m).
Proof.
  destruct m as [n d]. unfold Py.int, Qfloor. cbn [Qnum Qden].
  destruct (Z.le_gt_cases 0 n) as [Hn|Hn].
  - rewrite Z.quot_div_nonneg; [reflexivity | exact Hn | reflexivity].
  - pose proof (Z.mul_quot_ge n (Z.pos d) ltac:(lia) ltac:(lia)) as Hq.
    assert (Hdiv : (n / Z.pos d < 0)%Z) by (apply Z.div_lt_upper_bound; lia).
    assert (Hquot : (Z.quot n (Z.pos d) <= 0)%Z) by nia.
    lia.
Qed.


(** ** Bounds on looked-up values *)




(** ** [max] and [sum] over lists *)



Lemma fold_left_Qplus (l : list Q) : forall x,
  fold_left Qplus l x == x + foldr Qplus 0 l.
Proof.
  induction l as [|a l IH]; intros x; simpl; [ring|].
  rewrite IH. ring.
Qed.

Lemma sum_foldr (l : list Q) : Py.sum l == foldr Qplus 0 l.
Proof. unfold Py.sum. rewrite fold_left_Qplus. ring. Qed.

Lemma sum_positive (l : list Q) :
  l <> [] -> Forall (fun d => 0 < d) l -> 0 < Py.sum l.
Proof.
  intros Hne Hall. rewrite sum_foldr.
  destruct l as [|x l]; [congruence|].
  apply Forall_cons in Hall. destruct Hall as [Hx Hl].
  assert (Hnn : 0 <= foldr Qplus 0 l).
  { clear -Hl. induction Hl as [|y l Hy _ IH]; simpl; lra. }
  simpl. lra.
Qed.

(** ** The rounds of the iteration *)

Section Rounds.
Variable self : PCICalculator.




End Rounds.




Lemma su_001_returns :
  calculate_sample_pci 3 example_calculator su_001_observations 2500
  = Return su_001_result.
Proof. vm_compute. reflexivity. Qed.




Lemma max_deduct_values_floor (hdv : Q) :
  _calculate_max_deduct_values hdv
  = Z.max 1 (Qfloor (1 + (9 / 98) * (100 - hdv))).
Proof.
  unfold _calculate_max_deduct_values. cbn [MAX_DEDUCT_VALUES_FORMULA negb].
  apply max_int_floor.
Qed.





(** ** Section aggregation *)

Lemma unit_pci_zero_area fuel calculator su :
  SampleUnit.area su <= 0 ->
  unit_pci fuel calculator su = Raise (ValueError "Sample area must be positive").
Proof.
  intros Ha. apply leb_le in Ha.
  unfold unit_pci, calculate_sample_pci, calculate_sample_pci_body.
  rewrite Ha. reflexivity.
Qed.

Lemma total_area_positive (units : list SampleUnit.t) :
  units <> [] -> Forall (fun su => 0 < SampleUnit.area su) units ->
  0 < Py.sum (SampleUnit.area <$> units).
Proof.
  intros Hne Hall. apply sum_positive.
  - destruct units; [congruence | discriminate].
  - apply Forall_fmap. exact Hall.
Qed.

Lemma accumulate_stops_at_failure fuel calculator before su after e :
  Forall (fun u => exists r, unit_pci fuel calculator u = Return r) before ->
  unit_pci fuel calculator su = Raise e ->
  forall weighted_sum,
    PavementSection.accumulate fuel calculator (before ++ su :: after) weighted_sum
    = Raise e.
Proof.
  induction 1 as [|u before [r Hr] _ IH]; intros Hsu ws.
  - cbn [app PavementSection.accumulate]. unfold unit_pci in Hsu.
    rewrite Hsu. reflexivity.
  - cbn [app PavementSection.accumulate]. unfold unit_pci in Hr.
    rewrite Hr. cbn [obind]. apply IH. exact Hsu.
Qed.

Lemma accumulate_needs_all fuel calculator units : forall weighted_sum v,
  PavementSection.accumulate fuel calculator units weighted_sum = Return v ->
  Forall (fun u => exists r, unit_pci fuel calculator u = Return r) units.
Proof.
  induction units as [|u units IH]; intros ws v Hacc; [constructor|].
  cbn [PavementSection.accumulate] in Hacc.
  destruct (calculate_sample_pci fuel calculator _ _) as [r| |] eqn:Hr;
    cbn [obind] in Hacc; try discriminate.
  constructor; [exists r; exact Hr | eapply IH; exact Hacc].
Qed.

Lemma total_area_with_zero_unit before su after :
  SampleUnit.area su == 0 ->
  before ++ after <> [] ->
  Forall (fun u => 0 < SampleUnit.area u) (before ++ after) ->
  0 < Py.sum (SampleUnit.area <$> (before ++ su :: after)).
Proof.
  intros Hz Hne Hpos.
  pose proof (total_area_positive _ Hne Hpos) as Htot.
  rewrite sum_foldr in Htot |- *.
  rewrite fmap_app in Htot |- *. rewrite foldr_app in Htot |- *.
  cbn [fmap list_fmap foldr].
  assert (Hshift : forall (l : list Q) a,
            foldr Qplus a l == foldr Qplus 0 l + a).
  { induction l as [|x l IHl]; intros a; simpl; [ring|]. rewrite IHl. ring. }
  rewrite Hshift in Htot |- *. rewrite Hz. lra.
Qed.

(** C9, as the code has it.  In a section where one unit has area 0 and
    the others, at least one, have positive area, the section call never
    returns a PCI; when the units before the zero-area one return, the
    call raises the [ValueError] of the [sample_area <= 0] guard. *)
Theorem zero_area_unit_fails_section (fuel : nat) (section : PavementSection.t)
    (calculator : PCICalculator) (before after : list SampleUnit.t)
    (su : SampleUnit.t) :
  PavementSection.sample_units section = before ++ su :: after ->
  SampleUnit.area su == 0 ->
  before ++ after <> [] ->
  Forall (fun u => 0 < SampleUnit.area u) (before ++ after) ->
  (forall v,
     PavementSection.calculate_section_pci fuel section calculator <> Return v) /\
  (Forall (fun u => exists r, unit_pci fuel calculator u = Return r) before ->
   PavementSection.calculate_section_pci fuel section calculator
   = Raise (ValueError "Sample area must be positive")).
Proof.
  intros Hu Hz Hne Hpos.
  pose proof (total_area_with_zero_unit before su after Hz Hne Hpos) as Htot.
  assert (Hsu : unit_pci fuel calculator su
                = Raise (ValueError "Sample area must be positive")).
  { apply unit_pci_zero_area. lra. }
  assert (Hrun : PavementSection.calculate_section_pci fuel section calculator
                 = obind (PavementSection.accumulate fuel calculator
                            (before ++ su :: after) 0)
                     (fun ws => Return (ws / Py.sum (SampleUnit.area <$>
                                                      (before ++ su :: after))))).
  { unfold PavementSection.calculate_section_pci. rewrite Hu.
    destruct (before ++ su :: after) as [|u0 rest] eqn:Hl.
    { destruct before; discriminate. }
    assert (Hnz : Py.eqb (Py.sum (SampleUnit.area <$> u0 :: rest)) 0 = false).
    { apply eqb_neq. lra. }
    rewrite Hnz. reflexivity. }
  split.
  - intros v Hv. rewrite Hrun in Hv.
    destruct (PavementSection.accumulate fuel calculator (before ++ su :: after) 0)
      as [ws| |] eqn:Hacc; cbn [obind] in Hv; try discriminate.
    apply accumulate_needs_all in Hacc.
    apply Forall_app in Hacc. destruct Hacc as [_ Hacc].
    apply Forall_cons in Hacc. destruct Hacc as [[r Hr] _].
    rewrite Hsu in Hr. discriminate.
  - intros Hbefore. rewrite Hrun.
    rewrite (accumulate_stops_at_failure _ _ _ _ _ _ Hbefore Hsu). reflexivity.
Qed.

Lemma zero_area_unit_fails_section_witness :
  PavementSection.sample_units mixed_section = [su_001] ++ su_no_area :: [su_clean] /\
  SampleUnit.area su_no_area == 0 /\
  [su_001] ++ [su_clean] <> [] /\
  Forall (fun u => 0 < SampleUnit.area u) ([su_001] ++ [su_clean]) /\
  PavementSection.calculate_section_pci 3 mixed_section example_calculator
  = Raise (ValueError "Sample area must be positive").
Proof.
  assert (Hpos : Forall (fun u => 0 < SampleUnit.area u) ([su_001] ++ [su_clean])).
  { repeat constructor. }
  split; [reflexivity|]. split; [reflexivity|]. split; [discriminate|].
  split; [exact Hpos|].
  refine (proj2 (zero_area_unit_fails_section 3 mixed_section example_calculator
            [su_001] [su_clean] su_no_area eq_refl (Qeq_refl 0) _ Hpos) _).
  - discriminate.
  - constructor; [|constructor]. exists su_001_result. exact su_001_returns.
Defined.

(** C9 as stated fails: the section below has one zero-area unit next to
    a positive-area one; the call raises, where the claim announces the
    weighted mean over the positive-area units (here 100). *)
Lemma zero_area_unit_raises :
  PavementSection.calculate_section_pci 1
    (PavementSection.Build "S" [su_no_area; su_clean]) example_calculator
  = Raise (ValueError "Sample area must be positive") /\
  (exists mean,
     PavementSection.calculate_section_pci 1
       (PavementSection.Build "S" [su_clean]) example_calculator
     = Return mean /\ mean == 100) /\
  ~ (exists v,
       PavementSection.calculate_section_pci 1
         (PavementSection.Build "S" [su_no_area; su_clean]) example_calculator
       = Return v).
Proof.
  split; [vm_compute; reflexivity|].
  split; [eexists; split; [vm_compute; reflexivity | reflexivity]|].
  intros [v Hv]. vm_compute in Hv. discriminate.
Qed.

(** ** The budget does not matter once it is large enough *)








(** ** Validated curves always answer *)

Lemma interpolate_curve_returns (points : list (Q * Q)) (x : Q) :
  points <> [] -> x_strictly_increasing points = true ->
  exists y, interpolate_curve points x = Return y.
Proof.
  intros Hne Hs. destruct points as [|p0 rest]; [congruence|].
  unfold interpolate_curve.
  destruct (Py.leb x (fst p0)) eqn:Hfirst; [eauto|].
  apply leb_gt in Hfirst.
  destruct (last (p0 :: rest)) as [pl|] eqn:Hl;
    [|apply last_None in Hl; congruence].
  rewrite (getitem_last _ _ Hl). cbn [obind].
  destruct (Py.leb (fst pl) x) eqn:Hlast; [eauto|].
  apply leb_gt in Hlast. cbv zeta.
  destruct (bisect_right_spec (map fst (p0 :: rest)) x (x_values_sorted _ Hs))
    as (Hr & Hlow & Hhigh).
  set (r := bisect_right (map fst (p0 :: rest)) x) in *.
  set (points := p0 :: rest) in *.
  rewrite length_map in Hr, Hhigh.
  rewrite last_lookup in Hl.
  assert (Hlen : (0 < length points)%nat) by (simpl; lia).
  assert (H0 : points !! 0%nat = Some p0) by reflexivity.
  assert (Hr1 : (1 <= r)%nat).
  { destruct r as [|r']; [|lia].
    specialize (Hhigh 0%nat ltac:(lia)).
    rewrite (nth_map_fst _ _ _ H0) in Hhigh. lra. }
  assert (Hr2 : (r < length points)%nat).
  { destruct (decide (r = length points)) as [Heq|Hneq]; [|lia].
    specialize (Hlow (Nat.pred (length points)) ltac:(lia)).
    rewrite (nth_map_fst _ _ _ Hl) in Hlow. lra. }
  destruct (lookup_lt_is_Some_2 points (r - 1) ltac:(lia)) as [[x0 y0] Hlo].
  destruct (lookup_lt_is_Some_2 points r Hr2) as [[x1 y1] Hhi].
  replace (Z.of_nat r - 1)%Z with (Z.of_nat (r - 1)) by lia.
  rewrite (getitem_nat _ _ _ Hlo), (getitem_nat _ _ _ Hhi). cbn [obind].
  destruct (Py.eqb x1 x0); eauto.
Qed.

Lemma validate_curve_increasing (points : list (Q * Q)) :
  validate_curve points = Return true ->
  points <> [] /\ x_strictly_increasing points = true.
Proof.
  unfold validate_curve. destruct points as [|p rest]; [discriminate|].
  destruct (length (p :: rest) <? 2)%nat; [discriminate|].
  destruct (x_strictly_increasing (p :: rest)); [|discriminate].
  intros _. split; [discriminate | reflexivity].
Qed.

Lemma CDVCurve_init_valid q pts curve :
  CDVCurve.init q pts = Return curve ->
  validate_curve (CDVCurve.points curve) = Return true.
Proof.
  unfold CDVCurve.init. cbv zeta.
  destruct (validate_curve (sorted_by_x pts)) as [[|]| |] eqn:Hv;
    cbn [obind]; try discriminate.
  - intros H; injection H as <-. exact Hv.
  - exfalso. revert Hv. unfold validate_curve.
    destruct (sorted_by_x pts); [discriminate|].
    repeat match goal with |- context [if ?c then _ else _] => destruct c end;
      discriminate.
Qed.

Lemma load_items_valid {K} `{Countable K} {A B} (mk : K -> A -> outcome B)
    (P : B -> Prop) :
  (forall k a b, mk k a = Return b -> P b) ->
  forall items (table table' : gmap K B),
    (forall k b, table !! k = Some b -> P b) ->
    load_items mk items table = Return table' ->
    forall k b, table' !! k = Some b -> P b.
Proof.
  intros Hmk. induction items as [|[k a] items IH]; intros table table' Ht Hload.
  - injection Hload as <-. exact Ht.
  - cbn [load_items] in Hload.
    destruct (mk k a) as [c| |] eqn:Hc; cbn [obind] in Hload; try discriminate.
    apply (IH (<[k := c]> table) table'); [|exact Hload].
    intros k' b Hk'. destruct (decide (k = k')) as [->|Hne].
    + rewrite lookup_insert_eq in Hk'. injection Hk' as <-. eapply Hmk, Hc.
    + rewrite lookup_insert_ne in Hk' by exact Hne. eapply Ht, Hk'.
Qed.

(** Every curve registered by [load_cdv_curves] has passed
    [validate_curve]. *)
Lemma load_cdv_curves_valid self curves self' :
  load_cdv_curves self curves = Return self' ->
  forall k curve, cdv_curves self' !! k = Some curve ->
    validate_curve (CDVCurve.points curve) = Return true.
Proof.
  unfold load_cdv_curves.
  destruct (load_items CDVCurve.init (map_to_list curves) ∅) as [table| |] eqn:Hl;
    cbn [obind]; try discriminate.
  intros Hs; injection Hs as <-. cbn [cdv_curves].
  eapply (load_items_valid CDVCurve.init
            (fun c => validate_curve (CDVCurve.points c) = Return true));
    [exact CDVCurve_init_valid | | exact Hl].
  intros k b Hk. rewrite lookup_empty in Hk. discriminate.
Qed.

(** On a table of validated curves the lookup raises only for a missing
    bucket. *)
Lemma get_cdv_returns (self : PCICalculator) (tdv : Q) (q largest : Z) :
  (forall k curve, cdv_curves self !! k = Some curve ->
     validate_curve (CDVCurve.points curve) = Return true) ->
  Py.max_keys (fst <$> map_to_list (cdv_curves self)) = Return largest ->
  is_Some (cdv_curves self !! Z.max 1 (Z.min q largest)) ->
  exists cdv, get_cdv self tdv q = Return cdv.
Proof.
  intros Hvalid Hmax [curve Hc]. unfold get_cdv. rewrite Hmax. cbn [obind].
  rewrite Hc. unfold CDVCurve.get_cdv.
  destruct (validate_curve_increasing _ (Hvalid _ _ Hc)) as [Hne Hs].
  destruct (interpolate_curve_returns (CDVCurve.points curve) tdv Hne Hs)
    as [y Hy].
  rewrite Hy. cbn [obind]. eauto.
Qed.

Lemma example_cdv_curves_valid k curve :
  cdv_curves example_calculator !! k = Some curve ->
  validate_curve (CDVCurve.points curve) = Return true.
Proof.
  pose proof PCICalculator_init_example as Hinit.
  unfold PCICalculator_init in Hinit.
  destruct (load_deduct_curves _ EXAMPLE_DEDUCT_CURVES) as [self| |];
    cbn [obind] in Hinit; try discriminate.
  exact (load_cdv_curves_valid _ _ _ Hinit k curve).
Qed.

(** The example table has every bucket from 1 to 7: its lookups always
    answer. *)
Lemma example_get_cdv_returns (tdv : Q) (q : Z) :
  exists cdv, get_cdv example_calculator tdv q = Return cdv.
Proof.
  apply (get_cdv_returns example_calculator tdv q 7).
  - exact example_cdv_curves_valid.
  - vm_compute. reflexivity.
  - set (k := Z.max 1 (Z.min q 7)).
    assert (Hk : k = 1%Z \/ k = 2%Z \/ k = 3%Z \/ k = 4%Z \/ k = 5%Z
                 \/ k = 6%Z \/ k = 7%Z) by lia.
    clearbody k.
    repeat (destruct Hk as [->|Hk]; [eexists; vm_compute; reflexivity|]).
    subst k. eexists; vm_compute; reflexivity.
Qed.

(** With lookups that always answer, a sample whose deduct values can be
    computed gets a result. *)
Lemma calculate_sample_pci_returns fuel self obs area all :
  (forall tdv q, exists cdv, get_cdv self tdv q = Return cdv) ->
  0 < area ->
  computed_deduct_values self area obs = Return all ->
  (length obs <= fuel)%nat ->
  exists r, calculate_sample_pci fuel self obs area = Return r.
Proof.
  intros Hcdv Harea Hall Hfuel.
  pose proof (calculate_sample_pci_run fuel self obs area) as Hrun.
  destruct (calculate_sample_pci fuel self obs area) as [r|e|]; [eauto| |lia].
  exfalso. destruct Hrun as [Hle|[Hraise|(tdv & q & Hr)]].
  - lra.
  - congruence.
  - destruct (Hcdv tdv q) as [c Hc]. congruence.
Qed.

(** ** The procedure and its termination *)



(** * Further properties of the code *)

(** ** The distress catalog and [add_observation] *)

Lemma get_distress_by_id_known (distress_id : Z) :
  (1 <= distress_id <= 19)%Z ->
  exists d, get_distress_by_id distress_id = Return d /\
            DistressType.id d = distress_id /\
            DistressType.has_severity d = negb (distress_id =? 12)%Z.
Proof.
  intros Hrange.
  assert (Hcases : distress_id ∈ (seqZ 1 19)).
  { apply elem_of_seqZ. lia. }
  vm_compute seqZ in Hcases.
  repeat (apply elem_of_cons in Hcases;
          destruct Hcases as [->|Hcases];
          [eexists; split; [vm_compute; reflexivity | split; reflexivity]|]).
  apply elem_of_nil in Hcases. destruct Hcases.
Qed.

Lemma get_distress_by_id_unknown (distress_id : Z) :
  ~ (1 <= distress_id <= 19)%Z ->
  get_distress_by_id distress_id = Raise (ValueError "Unknown distress ID").
Proof.
  intros Hout. unfold get_distress_by_id.
  assert (Hnone : ASPHALT_DISTRESSES !! distress_id = None).
  { unfold ASPHALT_DISTRESSES. apply not_elem_of_list_to_map_1.
    cbn [fmap list_fmap fst]. intros Hin.
    repeat (apply elem_of_cons in Hin; destruct Hin as [->|Hin]; [lia|]).
    apply elem_of_nil in Hin. exact Hin. }
  rewrite Hnone. reflexivity.
Qed.

(** X1.  [get_distress_by_id] answers exactly for the ids 1 to 19; the
    distress it returns carries the requested id, and only distress 12
    has no severity levels. *)
Theorem get_distress_by_id_catalog (distress_id : Z) :
  ((exists d, get_distress_by_id distress_id = Return d)
   <-> (1 <= distress_id <= 19)%Z) /\
  (forall d, get_distress_by_id distress_id = Return d ->
     DistressType.id d = distress_id /\
     (DistressType.has_severity d = false <-> distress_id = 12%Z)) /\
  (~ (1 <= distress_id <= 19)%Z ->
     get_distress_by_id distress_id = Raise (ValueError "Unknown distress ID")).
Proof.
  split; [|split].
  - split.
    + intros [d Hd].
      destruct (decide (1 <= distress_id <= 19)%Z) as [Hin|Hout]; [exact Hin|].
      rewrite (get_distress_by_id_unknown _ Hout) in Hd. discriminate.
    + intros Hin. destruct (get_distress_by_id_known _ Hin) as (d & Hd & _).
      eauto.
  - intros d Hd.
    destruct (decide (1 <= distress_id <= 19)%Z) as [Hin|Hout].
    + destruct (get_distress_by_id_known _ Hin) as (d' & Hd' & Hid & Hsev).
      rewrite Hd in Hd'. injection Hd' as <-.
      split; [exact Hid|]. rewrite Hsev.
      destruct (Z.eqb_spec distress_id 12); simpl; split; congruence.
    + rewrite (get_distress_by_id_unknown _ Hout) in Hd. discriminate.
  - apply get_distress_by_id_unknown.
Qed.




(** ** Curve validation and construction *)



Lemma validate_curve_never_false (points : list (Q * Q)) (b : bool) :
  validate_curve points = Return b -> b = true.
Proof.
  unfold validate_curve. destruct points as [|p rest]; [discriminate|].
  repeat match goal with |- context [if ?c then _ else _] => destruct c end;
    try discriminate.
  intros H; injection H as <-. reflexivity.
Qed.











Lemma DeductCurve_init_inv distress_id severity pts curve :
  DeductCurve.init distress_id severity pts = Return curve ->
  curve = DeductCurve.Build distress_id severity (sorted_by_x pts) /\
  validate_curve (sorted_by_x pts) = Return true.
Proof.
  unfold DeductCurve.init. cbv zeta.
  destruct (validate_curve (sorted_by_x pts)) as [b| |] eqn:Hv;
    cbn [obind]; try discriminate.
  intros H; injection H as <-.
  pose proof (validate_curve_never_false _ _ Hv) as ->. split; reflexivity.
Qed.

Lemma CDVCurve_init_inv q pts curve :
  CDVCurve.init q pts = Return curve ->
  curve = CDVCurve.Build q (sorted_by_x pts) /\
  validate_curve (sorted_by_x pts) = Return true.
Proof.
  unfold CDVCurve.init. cbv zeta.
  destruct (validate_curve (sorted_by_x pts)) as [b| |] eqn:Hv;
    cbn [obind]; try discriminate.
  intros H; injection H as <-.
  pose proof (validate_curve_never_false _ _ Hv) as ->. split; reflexivity.
Qed.



(** ** Loading the curve tables *)

Section LoadItems.
Context {K : Type} `{Countable K} {A B : Type}.
Variable mk : K -> A -> outcome B.

Lemma load_items_lookup : forall items (table table' : gmap K B),
  NoDup (fst <$> items) ->
  load_items mk items table = Return table' ->
  forall k b,
    table' !! k = Some b <->
    (exists a, (k, a) ∈ items /\ mk k a = Return b) \/
    ((k ∉ (fst <$> items)) /\ table !! k = Some b).
Proof.
  induction items as [|[k0 a0] items IH]; intros table table' Hnd Hload k b.
  - injection Hload as <-. split.
    + intros Hk. right. split; [apply not_elem_of_nil | exact Hk].
    + intros [(a & Hin & _)|[_ Hk]]; [apply elem_of_nil in Hin; destruct Hin | exact Hk].
  - cbn [load_items] in Hload.
    destruct (mk k0 a0) as [c| |] eqn:Hc; cbn [obind] in Hload; try discriminate.
    cbn [fmap list_fmap fst] in Hnd. apply NoDup_cons in Hnd.
    destruct Hnd as [Hk0 Hnd].
    rewrite (IH _ _ Hnd Hload k b). cbn [fmap list_fmap fst].
    destruct (decide (k = k0)) as [->|Hne].
    + rewrite lookup_insert_eq. split.
      * intros [(a & Hin & _)|[_ Heq]].
        -- exfalso. apply Hk0. apply list_elem_of_fmap.
           exists (k0, a). split; [reflexivity | exact Hin].
        -- injection Heq as <-. left. exists a0.
           split; [apply elem_of_cons; left; reflexivity | exact Hc].
      * intros [(a & Hin & Hmk)|[Hnot _]].
        -- apply elem_of_cons in Hin. destruct Hin as [Heq|Hin].
           ++ injection Heq as <-. right.
              split; [exact Hk0 | congruence].
           ++ exfalso. apply Hk0. apply list_elem_of_fmap.
              exists (k0, a). split; [reflexivity | exact Hin].
        -- exfalso. apply Hnot. apply elem_of_cons; left; reflexivity.
    + rewrite lookup_insert_ne by congruence. split.
      * intros [(a & Hin & Hmk)|[Hnot Hk]].
        -- left. exists a. split; [apply elem_of_cons; right; exact Hin | exact Hmk].
        -- right. split; [|exact Hk]. intros Hin.
           apply elem_of_cons in Hin. destruct Hin; [congruence | contradiction].
      * intros [(a & Hin & Hmk)|[Hnot Hk]].
        -- left. exists a. split; [|exact Hmk].
           apply elem_of_cons in Hin. destruct Hin as [Heq|Hin]; [congruence | exact Hin].
        -- right. split; [|exact Hk]. intros Hin. apply Hnot.
           apply elem_of_cons; right; exact Hin.
Qed.

Lemma load_items_outcome : forall items (table : gmap K B),
  match load_items mk items table with
  | Return _ => forall k a, (k, a) ∈ items -> exists b, mk k a = Return b
  | Raise e => exists k a, (k, a) ∈ items /\ mk k a = Raise e
  | Timeout => exists k a, (k, a) ∈ items /\ mk k a = Timeout
  end.
Proof.
  induction items as [|[k0 a0] items IH]; intros table.
  - cbn. intros k a Hin. apply elem_of_nil in Hin. destruct Hin.
  - cbn [load_items].
    destruct (mk k0 a0) as [c| |] eqn:Hc; cbn [obind].
    + specialize (IH (<[k0 := c]> table)).
      destruct (load_items mk items (<[k0 := c]> table)) as [t'|e|].
      * intros k a Hin. apply elem_of_cons in Hin.
        destruct Hin as [Heq|Hin]; [injection Heq as Hk Ha; subst; eauto | eauto].
      * destruct IH as (k & a & Hin & Hr). exists k, a.
        split; [apply elem_of_cons; right; exact Hin | exact Hr].
      * destruct IH as (k & a & Hin & Hr). exists k, a.
        split; [apply elem_of_cons; right; exact Hin | exact Hr].
    + exists k0, a0. split; [apply elem_of_cons; left; reflexivity | exact Hc].
    + exists k0, a0. split; [apply elem_of_cons; left; reflexivity | exact Hc].
Qed.
End LoadItems.

Lemma load_table_lookup {K} `{Countable K} {B}
    (mk : K -> list (Q * Q) -> outcome B)
    (curves : gmap K (list (Q * Q))) (table : gmap K B) :
  load_items mk (map_to_list curves) ∅ = Return table ->
  forall k,
    match curves !! k with
    | Some pts => exists b, mk k pts = Return b /\ table !! k = Some b
    | None => table !! k = None
    end.
Proof.
  intros Hload k.
  pose proof (load_items_lookup mk _ _ _ (NoDup_fst_map_to_list curves) Hload k)
    as Hlk.
  destruct (curves !! k) as [pts|] eqn:Hk.
  - pose proof (load_items_outcome mk (map_to_list curves) ∅) as Hout.
    rewrite Hload in Hout.
    destruct (Hout k pts) as [b Hb]; [apply elem_of_map_to_list; exact Hk|].
    exists b. split; [exact Hb|]. apply Hlk. left. exists pts.
    split; [apply elem_of_map_to_list; exact Hk | exact Hb].
  - destruct (table !! k) as [b|] eqn:Ht; [|reflexivity].
    destruct (proj1 (Hlk b) eq_refl) as [(a & Hin & _)|[_ He]].
    + apply elem_of_map_to_list in Hin. congruence.
    + rewrite lookup_empty in He. discriminate.
Qed.

(** X8.  Loading replaces a table wholesale and leaves the other table
    alone: after [load_cdv_curves self curves] returns, the CDV table has
    exactly the buckets of [curves], each holding its points sorted by x
    and validated, whatever the table held before; the same holds for
    [load_deduct_curves] and the deduct table. *)
Theorem load_curves_lookup (self : PCICalculator) :
  (forall curves self',
     load_cdv_curves self curves = Return self' ->
     deduct_curves self' = deduct_curves self /\
     forall q,
       cdv_curves self' !! q
       = (fun pts => CDVCurve.Build q (sorted_by_x pts)) <$> (curves !! q) /\
       (forall pts, curves !! q = Some pts ->
          validate_curve (sorted_by_x pts) = Return true)) /\
  (forall curves self',
     load_deduct_curves self curves = Return self' ->
     cdv_curves self' = cdv_curves self /\
     forall key,
       deduct_curves self' !! key
       = (fun pts => DeductCurve.Build (fst key) (snd key) (sorted_by_x pts))
           <$> (curves !! key) /\
       (forall pts, curves !! key = Some pts ->
          validate_curve (sorted_by_x pts) = Return true)).
Proof.
  split.
  - intros curves self'. unfold load_cdv_curves.
    destruct (load_items CDVCurve.init (map_to_list curves) ∅)
      as [table| |] eqn:Hload; cbn [obind]; try discriminate.
    intros Hs; injection Hs as <-. cbn [deduct_curves cdv_curves].
    split; [reflexivity|]. intros q.
    pose proof (load_table_lookup CDVCurve.init curves table Hload q) as Hq.
    destruct (curves !! q) as [pts|].
    + destruct Hq as (c & Hc & Ht).
      destruct (CDVCurve_init_inv _ _ _ Hc) as [-> Hv].
      split; [exact Ht|]. intros pts' Hp. injection Hp as <-. exact Hv.
    + split; [exact Hq | discriminate].
  - intros curves self'. unfold load_deduct_curves.
    destruct (load_items _ (map_to_list curves) ∅)
      as [table| |] eqn:Hload; cbn [obind]; try discriminate.
    intros Hs; injection Hs as <-. cbn [deduct_curves cdv_curves].
    split; [reflexivity|]. intros key.
    pose proof (load_table_lookup _ curves table Hload key) as Hq.
    destruct (curves !! key) as [pts|].
    + destruct Hq as (c & Hc & Ht).
      destruct (DeductCurve_init_inv _ _ _ _ Hc) as [-> Hv].
      split; [exact Ht|]. intros pts' Hp. injection Hp as <-. exact Hv.
    + split; [exact Hq | discriminate].
Qed.

Lemma validate_curve_no_timeout (points : list (Q * Q)) :
  validate_curve points <> Timeout.
Proof.
  unfold validate_curve. destruct points; [discriminate|].
  repeat match goal with |- context [if ?c then _ else _] => destruct c end;
    discriminate.
Qed.

Lemma CDVCurve_init_outcome q pts :
  CDVCurve.init q pts
  = match validate_curve (sorted_by_x pts) with
    | Return _ => Return (CDVCurve.Build q (sorted_by_x pts))
    | Raise e => Raise e
    | Timeout => Timeout
    end.
Proof.
  unfold CDVCurve.init. cbv zeta.
  destruct (validate_curve (sorted_by_x pts)); reflexivity.
Qed.

Lemma DeductCurve_init_outcome distress_id severity pts :
  DeductCurve.init distress_id severity pts
  = match validate_curve (sorted_by_x pts) with
    | Return _ => Return (DeductCurve.Build distress_id severity (sorted_by_x pts))
    | Raise e => Raise e
    | Timeout => Timeout
    end.
Proof.
  unfold DeductCurve.init. cbv zeta.
  destruct (validate_curve (sorted_by_x pts)); reflexivity.
Qed.

Lemma load_table_accepts {K} `{Countable K} {B}
    (mk : K -> list (Q * Q) -> outcome B)
    (curves : gmap K (list (Q * Q))) :
  (forall k pts,
     match validate_curve (sorted_by_x pts) with
     | Return _ => exists c, mk k pts = Return c
     | Raise e => mk k pts = Raise e
     | Timeout => True
     end) ->
  ((exists table, load_items mk (map_to_list curves) ∅ = Return table) <->
   (forall k pts, curves !! k = Some pts ->
      validate_curve (sorted_by_x pts) = Return true)) /\
  (forall e, load_items mk (map_to_list curves) ∅ = Raise e ->
     exists k pts, curves !! k = Some pts /\
                   validate_curve (sorted_by_x pts) = Raise e) /\
  load_items mk (map_to_list curves) ∅ <> Timeout.
Proof.
  intros Hmk.
  pose proof (load_items_outcome mk (map_to_list curves) ∅) as Hout.
  assert (Hret : forall k pts c, mk k pts = Return c ->
            validate_curve (sorted_by_x pts) = Return true).
  { intros k pts c Hc. specialize (Hmk k pts).
    pose proof (validate_curve_no_timeout (sorted_by_x pts)) as Hnt.
    destruct (validate_curve (sorted_by_x pts)) as [b|e'|] eqn:Hv;
      [|congruence|congruence].
    rewrite (validate_curve_never_false _ _ Hv). reflexivity. }
  assert (Hraise : forall k pts e, mk k pts = Raise e ->
            validate_curve (sorted_by_x pts) = Raise e).
  { intros k pts e He. specialize (Hmk k pts).
    pose proof (validate_curve_no_timeout (sorted_by_x pts)) as Hnt.
    destruct (validate_curve (sorted_by_x pts)) as [b|e'|] eqn:Hv;
      [|congruence|congruence].
    destruct Hmk as [c Hc]. congruence. }
  assert (Hnt : forall k pts, mk k pts <> Timeout).
  { intros k pts He. specialize (Hmk k pts).
    pose proof (validate_curve_no_timeout (sorted_by_x pts)) as Hnt.
    destruct (validate_curve (sorted_by_x pts)) as [b|e'|] eqn:Hv;
      [|congruence|congruence].
    destruct Hmk as [c Hc]. congruence. }
  destruct (load_items mk (map_to_list curves) ∅) as [table|e|].
  - split; [|split; discriminate]. split; [intros _|eauto].
    intros k pts Hk.
    destruct (Hout k pts) as [b Hb]; [apply elem_of_map_to_list; exact Hk|].
    exact (Hret _ _ _ Hb).
  - destruct Hout as (k & pts & Hin & He).
    apply elem_of_map_to_list in Hin. apply Hraise in He.
    split; [|split; [|discriminate]].
    + split; [intros [t Ht]; discriminate|].
      intros Hall. rewrite (Hall k pts Hin) in He. discriminate.
    + intros e' He'. injection He' as <-. eauto.
  - destruct Hout as (k & pts & _ & He). exfalso. exact (Hnt k pts He).
Qed.

(** X9.  Invalid curve data is rejected when it is loaded: a load
    returns exactly when every supplied curve passes [validate_curve]
    once sorted by x, and otherwise raises the validation error of one of
    the supplied curves. *)
Theorem load_curves_accepts (self : PCICalculator) :
  (forall curves,
     ((exists self', load_cdv_curves self curves = Return self') <->
      (forall q pts, curves !! q = Some pts ->
         validate_curve (sorted_by_x pts) = Return true)) /\
     (forall e, load_cdv_curves self curves = Raise e ->
        exists q pts, curves !! q = Some pts /\
                      validate_curve (sorted_by_x pts) = Raise e)) /\
  (forall curves,
     ((exists self', load_deduct_curves self curves = Return self') <->
      (forall key pts, curves !! key = Some pts ->
         validate_curve (sorted_by_x pts) = Return true)) /\
     (forall e, load_deduct_curves self curves = Raise e ->
        exists key pts, curves !! key = Some pts /\
                        validate_curve (sorted_by_x pts) = Raise e)).
Proof.
  split.
  - intros curves.
    destruct (load_table_accepts CDVCurve.init curves) as (Hiff & Hraise & Hnt).
    { intros k pts. rewrite CDVCurve_init_outcome.
      destruct (validate_curve (sorted_by_x pts)); eauto. }
    unfold load_cdv_curves.
    destruct (load_items CDVCurve.init (map_to_list curves) ∅) as [table|e|];
      cbn [obind].
    + split; [|discriminate]. split; [intros _; apply Hiff; eauto | eauto].
    + split.
      * split; [intros [s Hs]; discriminate|].
        intros Hall. apply Hiff in Hall. destruct Hall; discriminate.
      * intros e' He'. injection He' as <-. apply Hraise. reflexivity.
    + congruence.
  - intros curves.
    destruct (load_table_accepts
                (fun k pts => DeductCurve.init (fst k) (snd k) pts) curves)
      as (Hiff & Hraise & Hnt).
    { intros k pts. rewrite DeductCurve_init_outcome.
      destruct (validate_curve (sorted_by_x pts)); eauto. }
    unfold load_deduct_curves.
    destruct (load_items _ (map_to_list curves) ∅) as [table|e|];
      cbn [obind].
    + split; [|discriminate]. split; [intros _; apply Hiff; eauto | eauto].
    + split.
      * split; [intros [s Hs]; discriminate|].
        intros Hall. apply Hiff in Hall. destruct Hall; discriminate.
      * intros e' He'. injection He' as <-. apply Hraise. reflexivity.
    + congruence.
Qed.

(** ** Lookups on loaded tables *)








(** ** Ratings and the cap on deduct values *)

Lemma leb_compat a a' b b' : a == a' -> b == b' -> Py.leb a b = Py.leb a' b'.
Proof.
  intros Ha Hb. destruct (Py.leb a b) eqn:H1; destruct (Py.leb a' b') eqn:H2;
    try reflexivity;
    try apply leb_le in H1; try apply leb_gt in H1;
    try apply leb_le in H2; try apply leb_gt in H2; exfalso; lra.
Qed.

Lemma ltb_compat a a' b b' : a == a' -> b == b' -> Py.ltb a b = Py.ltb a' b'.
Proof.
  intros Ha Hb. destruct (Py.ltb a b) eqn:H1; destruct (Py.ltb a' b') eqn:H2;
    try reflexivity;
    try apply ltb_lt in H1; try apply ltb_ge in H1;
    try apply ltb_lt in H2; try apply ltb_ge in H2; exfalso; lra.
Qed.

Lemma get_pci_rating_compat p p' : p == p' -> get_pci_rating p = get_pci_rating p'.
Proof.
  intros Hp. unfold get_pci_rating.
  rewrite !(leb_compat _ _ p p' (Qeq_refl _) Hp). reflexivity.
Qed.


(** ** The sample index as a function of the deduct values *)

Lemma collect_eq (self : PCICalculator) (area : Q) (l : loc) obs (h : store) acc :
  0 < area -> h !! l = Some acc ->
  collect_deduct_values self area l obs h
  = match computed_deduct_values self area obs with
    | Return all => Return (tt, <[l := acc ++ positive_only all]> h)
    | Raise e => Raise e
    | Timeout => Timeout
    end.
Proof.
  intros Harea Hl.
  pose proof (collect_run self area l Harea obs h acc Hl) as Hcol.
  destruct (collect_deduct_values self area l obs h) as [[[] h']|e|].
  - destruct Hcol as (all & -> & ->). reflexivity.
  - rewrite Hcol. reflexivity.
  - destruct Hcol.
Qed.

Lemma while_iterate (self : PCICalculator) (dvs cdvs : loc) :
  dvs <> cdvs ->
  forall fuel (h : store) ws acc,
    h !! dvs = Some ws -> h !! cdvs = Some acc ->
    match while_true fuel (cdv_round self dvs cdvs) h,
          iterate_cdvs self fuel ws with
    | Return (_, h'), Return hist =>
        h' !! cdvs = Some (acc ++ hist) /\
        (forall l, l <> dvs -> l <> cdvs -> h' !! l = h !! l)
    | Raise e, Raise e' => e = e'
    | Timeout, Timeout => True
    | _, _ => False
    end.
Proof.
  intros Hne. induction fuel as [|fuel IH]; intros h ws acc Hd Hc.
  - exact I.
  - cbn [while_true iterate_cdvs]. unfold bind at 1.
    rewrite (cdv_round_run self dvs cdvs h ws acc Hne Hd Hc).
    destruct (get_cdv self (Py.sum ws) (q_of ws)) as [cdv|e|]; cbn [obind];
      [|reflexivity|exact I].
    cbv zeta. destruct (q_of ws <=? 1)%Z.
    + unfold ret. split.
      * apply lookup_insert_eq.
      * intros l _ Hl. rewrite lookup_insert_ne; [reflexivity | congruence].
    + set (h1 := <[cdvs := acc ++ [cdv]]> h).
      set (h2 := <[dvs := scan_back (length ws) ws]> h1).
      assert (H2d : h2 !! dvs = Some (scan_back (length ws) ws))
        by apply lookup_insert_eq.
      assert (H2c : h2 !! cdvs = Some (acc ++ [cdv])).
      { unfold h2. rewrite lookup_insert_ne; [|exact Hne]. apply lookup_insert_eq. }
      specialize (IH h2 _ _ H2d H2c).
      destruct (while_true fuel (cdv_round self dvs cdvs) h2) as [[u h']|e|];
        destruct (iterate_cdvs self fuel (scan_back (length ws) ws))
          as [hist|e'|]; cbn [obind]; try exact IH.
      destruct IH as [Hc' Hframe]. split.
      * rewrite Hc', <- app_assoc. reflexivity.
      * intros l Hld Hlc. rewrite (Hframe l Hld Hlc). unfold h2, h1.
        rewrite !lookup_insert_ne by congruence. reflexivity.
Qed.

Lemma calculate_sample_pci_value (fuel : nat) (self : PCICalculator)
    (observations : list DistressObservation.t) (sample_area : Q) :
  calculate_sample_pci fuel self observations sample_area
  = sample_pci_value fuel self observations sample_area.
Proof.
  unfold calculate_sample_pci, sample_pci_value, calculate_sample_pci_body.
  destruct (Py.leb sample_area 0) eqn:Harea; [reflexivity|].
  apply leb_gt in Harea.
  destruct observations as [|o rest] eqn:Hobs; [reflexivity|].
  rewrite <- Hobs. clear Hobs.
  (* Step 1 *)
  unfold bind at 1.
  destruct (new_run [] ∅) as (la & -> & _).
  unfold bind at 1.
  rewrite (collect_eq self sample_area la observations _ [] Harea
             (lookup_insert_eq _ _ _)).
  destruct (computed_deduct_values self sample_area observations)
    as [all|e|]; cbn [obind]; [|reflexivity|reflexivity].
  rewrite insert_insert_eq, app_nil_l.
  set (pos := positive_only all).
  unfold bind at 1. unfold PyList.read at 1. rewrite lookup_total_insert_eq.
  unfold sample_pci_of.
  destruct pos as [|p0 prest] eqn:Hpos; [reflexivity|].
  rewrite <- Hpos in *.
  (* Step 2 *)
  unfold bind at 1. unfold list_sort_reverse at 1.
  rewrite lookup_total_insert_eq, insert_insert_eq.
  unfold bind at 1. unfold PyList.getitem at 1. rewrite lookup_total_insert_eq.
  destruct (sort_reverse pos) as [|hdv srest] eqn:Hsort.
  { exfalso. rewrite Hpos in Hsort. exact (sort_reverse_nonempty _ _ Hsort). }
  rewrite <- Hsort. replace (sort_reverse pos !! 0%nat) with (Some hdv)
    by (rewrite Hsort; reflexivity).
  unfold bind at 1. unfold PyList.slice_to at 1. rewrite lookup_total_insert_eq.
  set (capped := Py.slice_to (sort_reverse pos) (_calculate_max_deduct_values hdv)).
  assert (Hcap : capped_deduct_values pos = capped).
  { unfold capped_deduct_values. rewrite Hsort. rewrite <- Hsort. reflexivity. }
  rewrite Hcap. cbv zeta.
  set (h3 := <[la := sort_reverse pos]> (∅ : store)).
  destruct (new_run capped h3) as (lb & -> & Hlb).
  set (h4 := <[lb := capped]> h3).
  (* Step 3 *)
  unfold bind at 1.
  destruct (new_run [] h4) as (lc & -> & Hlc).
  set (h5 := <[lc := []]> h4).
  unfold bind at 1. unfold PyList.copy at 1.
  assert (Hbc : lb <> lc).
  { intros ->. unfold h4 in Hlc. rewrite lookup_insert_eq in Hlc. discriminate. }
  assert (H5b : h5 !! lb = Some capped).
  { unfold h5. rewrite lookup_insert_ne; [|congruence]. apply lookup_insert_eq. }
  rewrite (lookup_total_correct h5 lb capped H5b).
  destruct (new_run capped h5) as (ld & -> & Hld).
  set (h6 := <[ld := capped]> h5).
  assert (Hdc : ld <> lc).
  { intros ->. unfold h5 in Hld. rewrite lookup_insert_eq in Hld. discriminate. }
  assert (Hdb : lb <> ld).
  { intros ->. rewrite H5b in Hld. discriminate. }
  assert (H6d : h6 !! ld = Some capped) by apply lookup_insert_eq.
  assert (H6c : h6 !! lc = Some []).
  { unfold h6. rewrite lookup_insert_ne; [|exact Hdc]. apply lookup_insert_eq. }
  assert (H6b : h6 !! lb = Some capped).
  { unfold h6. rewrite lookup_insert_ne; [exact H5b | congruence]. }
  unfold bind at 1.
  pose proof (while_iterate self ld lc Hdc fuel h6 capped [] H6d H6c) as Hloop.
  destruct (while_true fuel (cdv_round self ld lc) h6) as [[u' h7]|e|];
    destruct (iterate_cdvs self fuel capped) as [hist|e'|]; cbn [obind];
    try (destruct Hloop; fail); [|congruence|reflexivity].
  destruct Hloop as [H7c Hframe]. rewrite app_nil_l in H7c.
  assert (H7b : h7 !! lb = Some capped).
  { rewrite (Hframe lb Hdb Hbc). exact H6b. }
  (* Step 4 *)
  unfold bind at 1. unfold PyList.read at 1.
  rewrite (lookup_total_correct h7 lc hist H7c).
  unfold bind at 1. unfold lift at 1.
  destruct (Py.max_list hist) as [mx|e|]; cbn [obind];
    [|reflexivity|reflexivity].
  unfold bind at 1. unfold PyList.read at 1.
  rewrite (lookup_total_correct h7 lb capped H7b).
  unfold bind at 1. unfold PyList.read at 1.
  rewrite (lookup_total_correct h7 lc hist H7c).
  reflexivity.
Qed.

Lemma computed_deduct_values_app self area obs1 obs2 :
  computed_deduct_values self area (obs1 ++ obs2)
  = try dvs1 <- computed_deduct_values self area obs1;
    try dvs2 <- computed_deduct_values self area obs2;
    Return (dvs1 ++ dvs2).
Proof.
  induction obs1 as [|o obs1 IH].
  - simpl. destruct (computed_deduct_values self area obs2); reflexivity.
  - cbn [app computed_deduct_values].
    destruct (DistressType.calculate_density _ _ _) as [density|e|];
      cbn [obind]; try reflexivity.
    destruct (get_deduct_value _ _ _ _) as [dv|e|]; cbn [obind];
      try reflexivity.
    rewrite IH.
    destruct (computed_deduct_values self area obs1) as [dvs1|e|];
      cbn [obind]; try reflexivity.
    destruct (computed_deduct_values self area obs2) as [dvs2|e|];
      reflexivity.
Qed.

Lemma positive_only_app dvs1 dvs2 :
  positive_only (dvs1 ++ dvs2) = positive_only dvs1 ++ positive_only dvs2.
Proof. unfold positive_only. apply List.filter_app. Qed.

(** X17.  An observation whose deduct value is not above zero leaves no
    trace: with it or without it, and whatever the budget, the call
    gives the same result, the same error or the same timeout. *)
Theorem zero_deduct_observation_ignored (fuel : nat) (self : PCICalculator)
    (before after : list DistressObservation.t) (o : DistressObservation.t)
    (sample_area density dv : Q) :
  DistressType.calculate_density (DistressObservation.distress_type o)
    (DistressObservation.quantity o) sample_area = Return density ->
  get_deduct_value self
    (DistressType.id (DistressObservation.distress_type o))
    (DistressObservation.severity o) density = Return dv ->
  dv <= 0 ->
  calculate_sample_pci fuel self (before ++ o :: after) sample_area
  = calculate_sample_pci fuel self (before ++ after) sample_area.
Proof.
  intros Hdens Hdv Hzero.
  rewrite !calculate_sample_pci_value. unfold sample_pci_value.
  destruct (Py.leb sample_area 0); [reflexivity|].
  rewrite !computed_deduct_values_app.
  destruct (computed_deduct_values self sample_area before) as [dvs1|e|];
    cbn [obind]; try reflexivity.
  cbn [computed_deduct_values]. rewrite Hdens. cbn [obind].
  rewrite Hdv. cbn [obind].
  destruct (computed_deduct_values self sample_area after) as [dvs2|e|];
    cbn [obind]; try reflexivity.
  rewrite !positive_only_app. cbn [positive_only List.filter].
  apply ltb_ge in Hzero. rewrite Hzero. reflexivity.
Qed.

Lemma zero_deduct_observation_ignored_witness :
  let o := DistressObservation.Build weathering (Some LOW) 0 in
  DistressType.calculate_density (DistressObservation.distress_type o)
    (DistressObservation.quantity o) 2500 = Return (0 / 2500 * 100) /\
  get_deduct_value example_calculator 19 (Some LOW) (0 / 2500 * 100) = Return 0 /\
  0 <= 0 /\
  calculate_sample_pci 3 example_calculator
    (light_weathering ++ o :: su_001_observations) 2500
  = calculate_sample_pci 3 example_calculator
      (light_weathering ++ su_001_observations) 2500.
Proof.
  cbv zeta. split; [reflexivity|]. split; [reflexivity|].
  split; [apply Qle_refl|].
  apply (zero_deduct_observation_ignored 3 example_calculator light_weathering
           su_001_observations
           (DistressObservation.Build weathering (Some LOW) 0)
           2500 (0 / 2500 * 100) 0).
  - reflexivity.
  - reflexivity.
  - apply Qle_refl.
Defined.

(** X18.  An observation without a deduct curve makes the call raise the
    error of [get_deduct_value], whatever comes after it and whatever the
    budget, once the observations before it have their deduct values. *)
Theorem missing_deduct_curve_raises (fuel : nat) (self : PCICalculator)
    (before after : list DistressObservation.t) (o : DistressObservation.t)
    (sample_area : Q) (dvs : list Q) :
  0 < sample_area ->
  computed_deduct_values self sample_area before = Return dvs ->
  deduct_curves self
    !! (DistressType.id (DistressObservation.distress_type o),
        Severity_value <$> DistressObservation.severity o) = None ->
  calculate_sample_pci fuel self (before ++ o :: after) sample_area
  = Raise (ValueError "No deduct curve for distress").
Proof.
  intros Harea Hbefore Hkey.
  rewrite calculate_sample_pci_value. unfold sample_pci_value.
  apply leb_gt in Harea. rewrite Harea.
  rewrite computed_deduct_values_app, Hbefore. cbn [obind].
  cbn [computed_deduct_values]. unfold DistressType.calculate_density.
  rewrite Harea. cbn [obind].
  unfold get_deduct_value. cbv zeta. rewrite Hkey. reflexivity.
Qed.

Lemma missing_deduct_curve_raises_witness :
  let o := DistressObservation.Build
             (DistressType.Build 2 "Bleeding" AREA true) (Some LOW) 10 in
  0 < 2500 /\
  computed_deduct_values example_calculator 2500 su_001_observations
  = Return su_001_all_deduct_values /\
  deduct_curves example_calculator !! (2%Z, Some "L") = None /\
  calculate_sample_pci 0 example_calculator
    (su_001_observations ++ o :: light_weathering) 2500
  = Raise (ValueError "No deduct curve for distress").
Proof.
  cbv zeta. split; [reflexivity|]. split; [reflexivity|].
  split; [reflexivity|].
  apply (missing_deduct_curve_raises 0 example_calculator su_001_observations
           light_weathering
           (DistressObservation.Build
              (DistressType.Build 2 "Bleeding" AREA true) (Some LOW) 10)
           2500 su_001_all_deduct_values); reflexivity.
Defined.

(** ** Equal numbers give equal answers *)

Lemma bisect_loop_compat (a : list Q) (x x' : Q) :
  x == x' ->
  forall n lo hi, (hi - lo <= n)%nat ->
    bisect_loop a x lo hi = bisect_loop a x' lo hi.
Proof.
  intros Hx. induction n as [|n IH]; intros lo hi Hn;
    rewrite (bisect_loop_equation_1 a x), (bisect_loop_equation_1 a x');
    destruct (lt_dec lo hi) as [Hlt|Hge]; simp bisect_loop; try lia;
    try reflexivity.
  cbv zeta.
  pose proof (Nat.div_mod_eq (lo + hi) 2) as Hd.
  pose proof (Nat.mod_upper_bound (lo + hi) 2 ltac:(lia)) as Hm.
  set (mid := ((lo + hi) / 2)%nat) in *.
  rewrite (ltb_compat x x' (nth mid a 0) (nth mid a 0) Hx (Qeq_refl _)).
  destruct (Py.ltb x' (nth mid a 0)); apply IH; lia.
Qed.

Lemma same_outcome_refl {A} (R : A -> A -> Prop) (o : outcome A) :
  (forall a, R a a) -> same_outcome R o o.
Proof. intros HR. destruct o; simpl; auto. Qed.

Lemma interpolate_curve_compat (points : list (Q * Q)) (x x' : Q) :
  x == x' ->
  same_outcome Qeq (interpolate_curve points x) (interpolate_curve points x').
Proof.
  intros Hx. unfold interpolate_curve.
  destruct points as [|p0 rest]; [reflexivity|].
  rewrite (leb_compat x x' (fst p0) (fst p0) Hx (Qeq_refl _)).
  destruct (Py.leb x' (fst p0)); [simpl; reflexivity|].
  destruct (Py.getitem (p0 :: rest) (-1)) as [plast|e|]; cbn [obind];
    [|reflexivity|exact I].
  rewrite (leb_compat (fst plast) (fst plast) x x' (Qeq_refl _) Hx).
  destruct (Py.leb (fst plast) x'); [simpl; reflexivity|].
  cbv zeta. unfold bisect_right.
  rewrite (bisect_loop_compat _ x x' Hx _ _ _ (Nat.le_refl _)).
  destruct (Py.getitem (p0 :: rest) (_ - 1)) as [[x0 y0]|e|]; cbn [obind];
    [|reflexivity|exact I].
  destruct (Py.getitem (p0 :: rest) _) as [[x1 y1]|e|]; cbn [obind];
    [|reflexivity|exact I].
  destruct (Py.eqb x1 x0); simpl; [reflexivity|].
  rewrite Hx. reflexivity.
Qed.

Lemma max2_compat a a' b b' :
  a == a' -> b == b' -> Py.max2 a b == Py.max2 a' b'.
Proof.
  intros Ha Hb. unfold Py.max2. rewrite (ltb_compat a a' b b' Ha Hb).
  destruct (Py.ltb a' b'); assumption.
Qed.

Lemma min2_compat a a' b b' :
  a == a' -> b == b' -> Py.min2 a b == Py.min2 a' b'.
Proof.
  intros Ha Hb. unfold Py.min2. rewrite (ltb_compat b b' a a' Hb Ha).
  destruct (Py.ltb b' a'); assumption.
Qed.

Lemma clamp100_compat v v' : v == v' -> Py.clamp100 v == Py.clamp100 v'.
Proof.
  intros Hv. unfold Py.clamp100.
  apply max2_compat; [reflexivity|]. apply min2_compat; [reflexivity|exact Hv].
Qed.

Lemma clamped_lookup_compat (points : list (Q * Q)) (x x' : Q) :
  x == x' ->
  same_outcome Qeq
    (try v <- interpolate_curve points x; Return (Py.clamp100 v))
    (try v <- interpolate_curve points x'; Return (Py.clamp100 v)).
Proof.
  intros Hx. pose proof (interpolate_curve_compat points x x' Hx) as Hi.
  destruct (interpolate_curve points x) as [v|e|];
    destruct (interpolate_curve points x') as [v'|e'|]; simpl in *;
    try contradiction; try assumption; try exact I.
  apply clamp100_compat. exact Hi.
Qed.

Lemma get_cdv_compat (self : PCICalculator) tdv tdv' q :
  tdv == tdv' ->
  same_outcome Qeq (get_cdv self tdv q) (get_cdv self tdv' q).
Proof.
  intros Ht. unfold get_cdv.
  destruct (Py.max_keys _) as [largest|e|]; cbn [obind];
    [|reflexivity|exact I].
  cbv zeta. destruct (cdv_curves self !! _) as [curve|]; [|reflexivity].
  apply clamped_lookup_compat. exact Ht.
Qed.

Lemma foldr_Qplus_compat (l l' : list Q) :
  Forall2 Qeq l l' -> foldr Qplus 0 l == foldr Qplus 0 l'.
Proof.
  induction 1 as [|x x' l l' Hx _ IH]; simpl; [reflexivity|].
  rewrite Hx, IH. reflexivity.
Qed.

Lemma sum_compat (l l' : list Q) : Forall2 Qeq l l' -> Py.sum l == Py.sum l'.
Proof.
  intros H. rewrite !sum_foldr. apply foldr_Qplus_compat. exact H.
Qed.

Lemma count_gt2_compat (l l' : list Q) :
  Forall2 Qeq l l' -> count_gt2 l = count_gt2 l'.
Proof.
  induction 1 as [|x x' l l' Hx _ IH]; simpl; [reflexivity|].
  rewrite (ltb_compat 2 2 x x' (Qeq_refl _) Hx), IH. reflexivity.
Qed.

Lemma q_of_compat (l l' : list Q) : Forall2 Qeq l l' -> q_of l = q_of l'.
Proof.
  intros H. unfold q_of. rewrite (count_gt2_compat l l' H). reflexivity.
Qed.

Lemma Forall2_Qeq_refl (l : list Q) : Forall2 Qeq l l.
Proof. induction l; constructor; [reflexivity | assumption]. Qed.

Lemma Forall2_Qeq_trans (l1 l2 l3 : list Q) :
  Forall2 Qeq l1 l2 -> Forall2 Qeq l2 l3 -> Forall2 Qeq l1 l3.
Proof.
  intros H12. revert l3. induction H12 as [|x y l1 l2 Hxy _ IH]; intros l3 H23;
    inversion H23; subst; constructor.
  - transitivity y; assumption.
  - apply IH. assumption.
Qed.

Lemma Forall2_Qeq_sym (l1 l2 : list Q) : Forall2 Qeq l1 l2 -> Forall2 Qeq l2 l1.
Proof.
  induction 1; constructor; [symmetry|]; assumption.
Qed.

Lemma Forall2_Qeq_insert (l l' : list Q) (i : nat) (v : Q) :
  Forall2 Qeq l l' -> Forall2 Qeq (<[i := v]> l) (<[i := v]> l').
Proof.
  intros H. revert i. induction H as [|x x' l l' Hx Hl IH]; intros [|i]; simpl;
    constructor; try assumption; try reflexivity.
  apply IH.
Qed.

Lemma Forall2_Qeq_lookup (l l' : list Q) (i : nat) :
  Forall2 Qeq l l' ->
  match l !! i, l' !! i with
  | Some v, Some v' => v == v'
  | None, None => True
  | _, _ => False
  end.
Proof.
  intros H. revert i. induction H as [|x x' l l' Hx _ IH]; intros [|i]; simpl;
    try exact I; [exact Hx | apply IH].
Qed.

Lemma scan_back_compat (ws ws' : list Q) :
  Forall2 Qeq ws ws' ->
  forall n, Forall2 Qeq (scan_back n ws) (scan_back n ws').
Proof.
  intros H. induction n as [|i IH]; cbn [scan_back]; [exact H|].
  pose proof (Forall2_Qeq_lookup ws ws' i H) as Hi.
  destruct (ws !! i) as [v|]; destruct (ws' !! i) as [v'|];
    try contradiction; [|exact H].
  rewrite (ltb_compat 2 2 v v' (Qeq_refl _) Hi).
  destruct (Py.ltb 2 v'); [apply Forall2_Qeq_insert; exact H | exact IH].
Qed.

Lemma iterate_cdvs_compat (self : PCICalculator) (fuel : nat) :
  forall ws ws', Forall2 Qeq ws ws' ->
    same_outcome (Forall2 Qeq) (iterate_cdvs self fuel ws)
                               (iterate_cdvs self fuel ws').
Proof.
  induction fuel as [|fuel IH]; intros ws ws' H; [exact I|].
  cbn [iterate_cdvs].
  rewrite <- (q_of_compat ws ws' H).
  pose proof (get_cdv_compat self _ _ (q_of ws) (sum_compat _ _ H)) as Hc.
  destruct (get_cdv self (Py.sum ws) (q_of ws)) as [cdv|e|];
    destruct (get_cdv self (Py.sum ws') (q_of ws)) as [cdv'|e'|];
    simpl in Hc; try contradiction; cbn [obind]; try assumption; try exact I.
  destruct (q_of ws <=? 1)%Z.
  - simpl. constructor; [exact Hc | constructor].
  - rewrite <- (Forall2_length _ _ _ H).
    specialize (IH _ _ (scan_back_compat ws ws' H (length ws))).
    destruct (iterate_cdvs self fuel (scan_back (length ws) ws)) as [hist|e|];
      destruct (iterate_cdvs self fuel (scan_back (length ws) ws'))
        as [hist'|e'|];
      simpl in IH; try contradiction; cbn [obind]; simpl; try assumption;
      try exact I.
    constructor; assumption.
Qed.

Lemma fold_left_max2_compat (l l' : list Q) :
  Forall2 Qeq l l' ->
  forall x x', x == x' -> fold_left Py.max2 l x == fold_left Py.max2 l' x'.
Proof.
  induction 1 as [|y y' l l' Hy _ IH]; intros x x' Hx; simpl; [exact Hx|].
  apply IH. apply max2_compat; assumption.
Qed.

Lemma max_list_compat (l l' : list Q) :
  Forall2 Qeq l l' -> same_outcome Qeq (Py.max_list l) (Py.max_list l').
Proof.
  intros H. destruct H as [|x x' l l' Hx H]; simpl; [reflexivity|].
  apply fold_left_max2_compat; assumption.
Qed.

Lemma max_deduct_values_compat hdv hdv' :
  hdv == hdv' ->
  _calculate_max_deduct_values hdv = _calculate_max_deduct_values hdv'.
Proof.
  intros H. rewrite !max_deduct_values_floor.
  f_equal. apply Qfloor_comp. rewrite H. reflexivity.
Qed.

Lemma Forall2_Qeq_take (l l' : list Q) (n : nat) :
  Forall2 Qeq l l' -> Forall2 Qeq (take n l) (take n l').
Proof.
  intros H. revert n. induction H as [|x x' l l' Hx _ IH]; intros [|n]; simpl;
    constructor; [exact Hx | apply IH].
Qed.

Lemma slice_to_compat (l l' : list Q) (m : Z) :
  Forall2 Qeq l l' -> Forall2 Qeq (Py.slice_to l m) (Py.slice_to l' m).
Proof.
  intros H. unfold Py.slice_to. rewrite <- (Forall2_length _ _ _ H).
  destruct (m <? 0)%Z; apply Forall2_Qeq_take; exact H.
Qed.

Lemma insert_desc_compat x x' (l l' : list Q) :
  x == x' -> Forall2 Qeq l l' ->
  Forall2 Qeq (insert_desc x l) (insert_desc x' l').
Proof.
  intros Hx H. induction H as [|y y' l l' Hy H IH]; simpl.
  - constructor; [exact Hx | constructor].
  - rewrite (ltb_compat x x' y y' Hx Hy).
    destruct (Py.ltb x' y'); constructor; try assumption.
    constructor; assumption.
Qed.

Lemma insert_desc_swap x y (l : list Q) :
  Forall2 Qeq (insert_desc x (insert_desc y l)) (insert_desc y (insert_desc x l)).
Proof.
  induction l as [|z l IH]; cbn [insert_desc].
  - destruct (Py.ltb y x) eqn:Hyx; destruct (Py.ltb x y) eqn:Hxy;
      cbn [insert_desc]; rewrite ?Hyx, ?Hxy; try apply Forall2_Qeq_refl.
    + apply ltb_lt in Hyx, Hxy. exfalso. lra.
    + apply ltb_ge in Hyx, Hxy.
      assert (x == y) by lra.
      constructor; [assumption|]. constructor; [symmetry; assumption|constructor].
  - destruct (Py.ltb y z) eqn:Hyz; destruct (Py.ltb x z) eqn:Hxz;
      cbn [insert_desc]; rewrite ?Hyz, ?Hxz.
    + constructor; [reflexivity | exact IH].
    + assert (Hyx : Py.ltb y x = true).
      { apply ltb_lt. apply ltb_lt in Hyz. apply ltb_ge in Hxz. lra. }
      rewrite Hyx. cbn [insert_desc]. rewrite ?Hyz. apply Forall2_Qeq_refl.
    + assert (Hxy : Py.ltb x y = true).
      { apply ltb_lt. apply ltb_lt in Hxz. apply ltb_ge in Hyz. lra. }
      rewrite Hxy. cbn [insert_desc]. rewrite ?Hxz. apply Forall2_Qeq_refl.
    + destruct (Py.ltb y x) eqn:Hyx; destruct (Py.ltb x y) eqn:Hxy;
        cbn [insert_desc]; rewrite ?Hyz, ?Hxz; try apply Forall2_Qeq_refl.
      * apply ltb_lt in Hyx, Hxy. exfalso. lra.
      * apply ltb_ge in Hyx, Hxy.
        assert (x == y) by lra.
        constructor; [assumption|].
        constructor; [symmetry; assumption | apply Forall2_Qeq_refl].
Qed.

Lemma sort_reverse_order_free (l l' : list Q) :
  Permutation l l' -> Forall2 Qeq (sort_reverse l) (sort_reverse l').
Proof.
  unfold sort_reverse.
  induction 1 as [|x l l' _ IH|x y l|l l' l'' _ IH1 _ IH2]; simpl.
  - constructor.
  - apply insert_desc_compat; [reflexivity | exact IH].
  - apply insert_desc_swap.
  - apply Forall2_Qeq_trans with (foldr insert_desc [] l'); assumption.
Qed.

Lemma capped_of_sorted_compat (pos pos' : list Q) :
  Forall2 Qeq (sort_reverse pos) (sort_reverse pos') ->
  Forall2 Qeq (capped_deduct_values pos) (capped_deduct_values pos').
Proof.
  intros H. unfold capped_deduct_values.
  destruct H as [|hdv hdv' s s' Hh Hs]; [constructor|].
  rewrite (max_deduct_values_compat hdv hdv' Hh).
  apply slice_to_compat. constructor; assumption.
Qed.

Lemma sort_reverse_nil (l : list Q) : sort_reverse l = [] -> l = [].
Proof.
  destruct l as [|x l]; [reflexivity|].
  intros H. destruct (sort_reverse_nonempty _ _ H).
Qed.

Lemma sample_pci_of_compat (self : PCICalculator) (fuel : nat) pos pos' :
  Forall2 Qeq (sort_reverse pos) (sort_reverse pos') ->
  same_outcome same_result (sample_pci_of self fuel pos)
                           (sample_pci_of self fuel pos').
Proof.
  intros H. pose proof (capped_of_sorted_compat pos pos' H) as Hcap.
  unfold sample_pci_of.
  destruct pos as [|p0 prest] eqn:Hpos; destruct pos' as [|p0' prest'] eqn:Hpos'.
  - simpl. repeat split; try reflexivity; constructor.
  - exfalso. apply Forall2_length in H. rewrite !sort_reverse_length in H.
    discriminate.
  - exfalso. apply Forall2_length in H. rewrite !sort_reverse_length in H.
    discriminate.
  - rewrite <- Hpos, <- Hpos' in *. cbv zeta.
    pose proof (iterate_cdvs_compat self fuel _ _ Hcap) as Hit.
    destruct (iterate_cdvs self fuel (capped_deduct_values pos)) as [hist|e|];
      destruct (iterate_cdvs self fuel (capped_deduct_values pos'))
        as [hist'|e'|];
      simpl in Hit; try contradiction; cbn [obind]; try assumption; try exact I.
    pose proof (max_list_compat hist hist' Hit) as Hmax.
    destruct (Py.max_list hist) as [mx|e|];
      destruct (Py.max_list hist') as [mx'|e'|];
      simpl in Hmax; try contradiction; cbn [obind]; try assumption;
      try exact I.
    assert (Hpci : Py.clamp100 (100 - mx) == Py.clamp100 (100 - mx')).
    { apply clamp100_compat. rewrite Hmax. reflexivity. }
    simpl. unfold same_result.
    cbn [pci rating deduct_values max_cdv iteration_cdvs].
    split; [exact Hpci|]. split; [apply get_pci_rating_compat; exact Hpci|].
    split; [exact Hcap|]. split; assumption.
Qed.

(** ** The order of the observations and the unit of measure *)

Lemma computed_deduct_values_perm self area obs obs' :
  Permutation obs obs' ->
  forall all, computed_deduct_values self area obs = Return all ->
    exists all', computed_deduct_values self area obs' = Return all' /\
                 Permutation all all'.
Proof.
  induction 1 as [|o l l' _ IH|o1 o2 l|l l' l'' _ IH1 _ IH2]; intros all Hall.
  - exists all. split; [exact Hall | reflexivity].
  - cbn [computed_deduct_values] in Hall |- *.
    destruct (DistressType.calculate_density _ _ _) as [density|e|];
      cbn [obind] in *; try discriminate.
    destruct (get_deduct_value _ _ _ _) as [dv|e|]; cbn [obind] in *;
      try discriminate.
    destruct (computed_deduct_values self area l) as [dvs|e|]; cbn [obind] in *;
      try discriminate.
    injection Hall as <-.
    destruct (IH dvs eq_refl) as (dvs' & -> & Hp). cbn [obind].
    exists (dv :: dvs'). split; [reflexivity | constructor; exact Hp].
  - cbn [computed_deduct_values] in Hall |- *.
    destruct (DistressType.calculate_density
                (DistressObservation.distress_type o2) _ _) as [d2|e|];
      cbn [obind] in *; try discriminate.
    destruct (get_deduct_value self
                (DistressType.id (DistressObservation.distress_type o2)) _ _)
      as [dv2|e|]; cbn [obind] in *; try discriminate.
    destruct (DistressType.calculate_density
                (DistressObservation.distress_type o1) _ _) as [d1|e|];
      cbn [obind] in *; try discriminate.
    destruct (get_deduct_value self
                (DistressType.id (DistressObservation.distress_type o1)) _ _)
      as [dv1|e|]; cbn [obind] in *; try discriminate.
    destruct (computed_deduct_values self area l) as [dvs|e|]; cbn [obind] in *;
      try discriminate.
    injection Hall as <-.
    exists (dv1 :: dv2 :: dvs). split; [reflexivity | apply perm_swap].
  - destruct (IH1 all Hall) as (all' & Hall' & Hp1).
    destruct (IH2 all' Hall') as (all'' & Hall'' & Hp2).
    exists all''. split; [exact Hall'' | etransitivity; eassumption].
Qed.

Lemma positive_only_perm (l l' : list Q) :
  Permutation l l' -> Permutation (positive_only l) (positive_only l').
Proof.
  unfold positive_only.
  induction 1 as [|x l l' _ IH|x y l|l l' l'' _ IH1 _ IH2]; simpl.
  - constructor.
  - destruct (Py.ltb 0 x); [constructor|]; exact IH.
  - destruct (Py.ltb 0 x); destruct (Py.ltb 0 y); try reflexivity.
    apply perm_swap.
  - etransitivity; eassumption.
Qed.

(** X19.  The order of the observations does not matter: if the call
    returns for a list of observations, it returns for every permutation
    of the list, with the same budget, a result equal to it as numbers in
    every field. *)
Theorem sample_pci_order_free (fuel : nat) (self : PCICalculator)
    (observations observations' : list DistressObservation.t)
    (sample_area : Q) (r : PCIResult) :
  Permutation observations observations' ->
  calculate_sample_pci fuel self observations sample_area = Return r ->
  exists r',
    calculate_sample_pci fuel self observations' sample_area = Return r' /\
    same_result r r'.
Proof.
  intros Hp. rewrite !calculate_sample_pci_value. unfold sample_pci_value.
  destruct (Py.leb sample_area 0); [discriminate|].
  destruct (computed_deduct_values self sample_area observations)
    as [all|e|] eqn:Hall; cbn [obind]; try discriminate.
  destruct (computed_deduct_values_perm _ _ _ _ Hp all Hall)
    as (all' & -> & Hpa). cbn [obind].
  pose proof (sample_pci_of_compat self fuel _ _
                (sort_reverse_order_free _ _ (positive_only_perm _ _ Hpa)))
    as Hsame.
  intros Hr. rewrite Hr in Hsame.
  destruct (sample_pci_of self fuel (positive_only all')) as [r'|e|];
    simpl in Hsame; try contradiction.
  exists r'. split; [reflexivity | exact Hsame].
Qed.

Lemma sample_pci_order_free_witness :
  Permutation su_001_observations (rev su_001_observations) /\
  calculate_sample_pci 3 example_calculator su_001_observations 2500
  = Return su_001_result /\
  exists r',
    calculate_sample_pci 3 example_calculator (rev su_001_observations) 2500
    = Return r' /\
    same_result su_001_result r'.
Proof.
  split; [apply Permutation_rev|]. split; [reflexivity|].
  apply (sample_pci_order_free 3 example_calculator su_001_observations
           (rev su_001_observations) 2500 su_001_result).
  - apply Permutation_rev.
  - reflexivity.
Defined.

(** * Properties of the binary64 model *)

Import PrimFloat FloatOps SpecFloat.
Import F64.
Set Warnings "-inexact-float".
Open Scope float_scope.
Open Scope py64_scope.

(** ** The order of floats *)

Lemma SFcompare_antisym x y c :
  SFcompare x y = Some c -> SFcompare y x = Some (CompOpp c).
Proof.
  destruct x as [sx|sx| |sx mx ex], y as [sy|sy| |sy my ey]; simpl;
    try discriminate; intros H; injection H as <-;
    try destruct sx; try destruct sy; simpl; try reflexivity;
    rewrite (Z.compare_antisym ex ey); destruct (ex ?= ey)%Z; simpl;
    try reflexivity;
    change (Pos.compare_cont Eq my mx) with (Pos.compare my mx);
    change (Pos.compare_cont Eq mx my) with (Pos.compare mx my);
    rewrite (Pos.compare_antisym mx my); destruct (mx ?= my)%positive;
    reflexivity.
Qed.

Lemma SFcompare_defined x y :
  SFleb x x = true -> SFleb y y = true -> exists c, SFcompare x y = Some c.
Proof.
  unfold SFleb.
  destruct x as [sx|sx| |sx mx ex], y as [sy|sy| |sy my ey]; simpl;
    try discriminate; intros _ _; eexists; reflexivity.
Qed.

Lemma SFleb_trans x y z :
  SFleb x y = true -> SFleb y z = true -> SFleb x z = true.
Proof.
  unfold SFleb.
  destruct x as [[]|[]| |[] mx ex], y as [[]|[]| |[] my ey],
           z as [[]|[]| |[] mz ez]; simpl;
    try discriminate; try reflexivity;
    change (Pos.compare_cont Eq mx my) with (Pos.compare mx my);
    change (Pos.compare_cont Eq my mz) with (Pos.compare my mz);
    change (Pos.compare_cont Eq mx mz) with (Pos.compare mx mz);
    destruct (Z.compare_spec ex ey), (Z.compare_spec ey ez),
             (Z.compare_spec ex ez);
    try discriminate; try reflexivity; try lia;
    destruct (Pos.compare_spec mx my), (Pos.compare_spec my mz),
             (Pos.compare_spec mx mz);
    simpl; try discriminate; try reflexivity; lia.
Qed.

Lemma f64_ltb_leb a b : (a <? b) = true -> (a <=? b) = true.
Proof.
  rewrite FloatAxioms.ltb_spec, FloatAxioms.leb_spec.
  unfold SFltb, SFleb. destruct (SFcompare _ _) as [[]|]; congruence.
Qed.

Lemma f64_ltb_not_eqb a b : (a <? b) = true -> (a =? b) = false.
Proof.
  rewrite FloatAxioms.ltb_spec, FloatAxioms.eqb_spec.
  unfold SFltb, SFeqb. destruct (SFcompare _ _) as [[]|]; congruence.
Qed.

Lemma f64_leb_trans a b c :
  (a <=? b) = true -> (b <=? c) = true -> (a <=? c) = true.
Proof. rewrite !FloatAxioms.leb_spec. apply SFleb_trans. Qed.

Lemma SFleb_refl x : x <> S754_nan -> SFleb x x = true.
Proof.
  unfold SFleb. destruct x as [[]|[]| |[] m e]; simpl; try congruence;
    intros _; rewrite Z.compare_refl;
    change (Pos.compare_cont Eq m m) with (Pos.compare m m);
    rewrite Pos.compare_refl; reflexivity.
Qed.

(** [x <=? x] holds of every float but NaN. *)
Lemma f64_leb_self a b :
  (a <=? b) = true -> (a <=? a) = true /\ (b <=? b) = true.
Proof.
  rewrite !FloatAxioms.leb_spec. intros H.
  split; apply SFleb_refl; intros Hn; rewrite Hn in H; unfold SFleb in H;
    simpl in H; destruct (Prim2SF a), (Prim2SF b); discriminate.
Qed.

(** The order is total on the floats that are not NaN. *)
Lemma f64_not_ltb_leb a b :
  (a <=? a) = true -> (b <=? b) = true ->
  (a <? b) = false -> (b <=? a) = true.
Proof.
  rewrite FloatAxioms.ltb_spec, !FloatAxioms.leb_spec.
  intros Ha Hb. destruct (SFcompare_defined _ _ Ha Hb) as [c Hc].
  unfold SFltb, SFleb. rewrite Hc, (SFcompare_antisym _ _ _ Hc).
  destruct c; simpl; congruence.
Qed.

Lemma f64_leb_not_ltb_eqb a b :
  (a <=? b) = true -> (a <? b) = false -> (b =? a) = true.
Proof.
  rewrite FloatAxioms.ltb_spec, FloatAxioms.leb_spec, FloatAxioms.eqb_spec.
  unfold SFltb, SFleb, SFeqb.
  destruct (SFcompare (Prim2SF a) (Prim2SF b)) as [c|] eqn:Hc; [|discriminate].
  rewrite (SFcompare_antisym _ _ _ Hc). destruct c; simpl; congruence.
Qed.

Lemma f64_eqb_not_ltb a b : (b =? a) = true -> (a <? b) = false.
Proof.
  rewrite FloatAxioms.ltb_spec, FloatAxioms.eqb_spec.
  unfold SFltb, SFeqb.
  destruct (SFcompare (Prim2SF b) (Prim2SF a)) as [c|] eqn:Hc; [|discriminate].
  rewrite (SFcompare_antisym _ _ _ Hc). destruct c; simpl; congruence.
Qed.

(** ** The clamp *)

Lemma f64_clamp100_cases (v : float) :
  Py.clamp100 v = 0 \/ Py.clamp100 v = 100 \/
  (Py.clamp100 v = v /\ (0 <? v) = true /\ (v <? 100) = true).
Proof.
  unfold Py.clamp100, Py.min2, Py.max2.
  destruct (v <? 100) eqn:Hhi.
  - destruct (0 <? v) eqn:Hlo; [right; right; auto | left; reflexivity].
  - right; left. reflexivity.
Qed.

Lemma f64_clamp100_range (v : float) :
  (0 <=? Py.clamp100 v) = true /\ (Py.clamp100 v <=? 100) = true.
Proof.
  destruct (f64_clamp100_cases v) as [->|[->|(-> & Hlo & Hhi)]].
  - split; reflexivity.
  - split; reflexivity.
  - split; apply f64_ltb_leb; assumption.
Qed.

Lemma f64_get_cdv_range (self : PCICalculator) tdv q cdv :
  get_cdv self tdv q = Return cdv ->
  (0 <=? cdv) = true /\ (cdv <=? 100) = true.
Proof.
  unfold get_cdv.
  destruct (Py.max_keys _) as [largest|e|]; cbn [obind]; try discriminate.
  cbv zeta. destruct (cdv_curves self !! _) as [curve|]; [|discriminate].
  unfold CDVCurve.get_cdv.
  destruct (interpolate_curve _ _) as [y|e|]; cbn [obind]; try discriminate.
  intros H; injection H as <-. apply f64_clamp100_range.
Qed.

Lemma f64_get_deduct_value_range (self : PCICalculator) id sev density dv :
  get_deduct_value self id sev density = Return dv ->
  (0 <=? dv) = true /\ (dv <=? 100) = true.
Proof.
  unfold get_deduct_value. cbv zeta.
  destruct (deduct_curves self !! _) as [curve|]; [|discriminate].
  unfold DeductCurve.get_deduct_value.
  destruct (interpolate_curve _ _) as [y|e|]; cbn [obind]; try discriminate.
  intros H; injection H as <-. apply f64_clamp100_range.
Qed.

Lemma f64_computed_deduct_values_range self area obs : forall all,
  computed_deduct_values self area obs = Return all ->
  Forall (fun dv => (0 <=? dv) = true /\ (dv <=? 100) = true) all.
Proof.
  induction obs as [|o obs IH]; intros all Hall.
  - injection Hall as <-. constructor.
  - cbn [computed_deduct_values] in Hall.
    destruct (DistressType.calculate_density _ _ _) as [density|e|];
      cbn [obind] in Hall; try discriminate.
    destruct (get_deduct_value _ _ _ _) as [dv|e|] eqn:Hdv; cbn [obind] in Hall;
      try discriminate.
    destruct (computed_deduct_values self area obs) as [dvs|e|];
      cbn [obind] in Hall; try discriminate.
    injection Hall as <-. constructor.
    + exact (f64_get_deduct_value_range _ _ _ _ _ Hdv).
    + apply IH. reflexivity.
Qed.

(** ** Running the store code *)

Lemma f64_new_run (v : list float) (h : F64.store) :
  exists l, PyList.new v h = Return (l, <[l := v]> h) /\ h !! l = None.
Proof.
  exists (fresh (dom h)). split; [reflexivity|].
  apply not_elem_of_dom. apply is_fresh.
Qed.

Lemma f64_flatten_lowest_run (dvs : loc) : forall n (h : F64.store) cur,
  h !! dvs = Some cur -> (n <= length cur)%nat ->
  flatten_lowest dvs n h = Return (tt, <[dvs := scan_back n cur]> h).
Proof.
  induction n as [|i IH]; intros h cur Hh Hn.
  - simpl. unfold ret. rewrite (insert_id h dvs cur Hh). reflexivity.
  - cbn [flatten_lowest scan_back]. unfold bind, PyList.getitem.
    rewrite (lookup_total_correct h dvs cur Hh).
    destruct (lookup_lt_is_Some_2 cur i ltac:(lia)) as [v Hv]. rewrite Hv.
    destruct (2 <? v).
    + unfold PyList.setitem. rewrite (lookup_total_correct h dvs cur Hh).
      destruct (decide (i < length cur)%nat); [reflexivity | lia].
    + apply IH; [exact Hh | lia].
Qed.

Lemma f64_cdv_round_run (self : PCICalculator) (dvs cdvs : loc)
    (h : F64.store) ws acc :
  dvs <> cdvs -> h !! dvs = Some ws -> h !! cdvs = Some acc ->
  let q := Z.of_nat (count_gt2 ws) in
  let q := if (q =? 0)%Z then 1%Z else q in
  cdv_round self dvs cdvs h =
  match get_cdv self (Py.sum ws) q with
  | Return cdv =>
      let h1 := <[cdvs := acc ++ [cdv]]> h in
      if (q <=? 1)%Z then Return (true, h1)
      else Return (false, <[dvs := scan_back (length ws) ws]> h1)
  | Raise e => Raise e
  | Timeout => Timeout
  end.
Proof.
  intros Hne Hd Hc. cbv zeta. unfold cdv_round, bind, PyList.read, lift.
  rewrite (lookup_total_correct h dvs ws Hd). cbv zeta.
  destruct (get_cdv self (Py.sum ws) _) as [cdv|e|]; try reflexivity.
  unfold PyList.append. rewrite (lookup_total_correct h cdvs acc Hc).
  destruct (_ <=? 1)%Z; [reflexivity|].
  assert (Hd1 : <[cdvs := acc ++ [cdv]]> h !! dvs = Some ws).
  { rewrite lookup_insert_ne; [exact Hd | congruence]. }
  unfold PyList.len. rewrite (lookup_total_correct _ dvs ws Hd1).
  rewrite (f64_flatten_lowest_run dvs (length ws) _ ws);
    [reflexivity | exact Hd1 | lia].
Qed.

Lemma f64_while_iterate (self : PCICalculator) (dvs cdvs : loc) :
  dvs <> cdvs ->
  forall fuel (h : F64.store) ws acc,
    h !! dvs = Some ws -> h !! cdvs = Some acc ->
    match while_true fuel (cdv_round self dvs cdvs) h,
          iterate_cdvs self fuel ws with
    | Return (_, h'), Return hist =>
        h' !! cdvs = Some (acc ++ hist) /\
        (forall l, l <> dvs -> l <> cdvs -> h' !! l = h !! l)
    | Raise e, Raise e' => e = e'
    | Timeout, Timeout => True
    | _, _ => False
    end.
Proof.
  intros Hne. induction fuel as [|fuel IH]; intros h ws acc Hd Hc.
  - exact I.
  - cbn [while_true iterate_cdvs]. unfold bind at 1.
    rewrite (f64_cdv_round_run self dvs cdvs h ws acc Hne Hd Hc). cbv zeta.
    destruct (get_cdv self (Py.sum ws) _) as [cdv|e|]; cbn [obind];
      [|reflexivity|exact I].
    destruct (_ <=? 1)%Z.
    + unfold ret. split.
      * apply lookup_insert_eq.
      * intros l _ Hl. rewrite lookup_insert_ne; [reflexivity | congruence].
    + set (h1 := <[cdvs := acc ++ [cdv]]> h).
      set (h2 := <[dvs := scan_back (length ws) ws]> h1).
      assert (H2d : h2 !! dvs = Some (scan_back (length ws) ws))
        by apply lookup_insert_eq.
      assert (H2c : h2 !! cdvs = Some (acc ++ [cdv])).
      { unfold h2. rewrite lookup_insert_ne; [|exact Hne]. apply lookup_insert_eq. }
      specialize (IH h2 _ _ H2d H2c).
      destruct (while_true fuel (cdv_round self dvs cdvs) h2) as [[u h']|e|];
        destruct (iterate_cdvs self fuel (scan_back (length ws) ws))
          as [hist|e'|]; cbn [obind]; try exact IH.
      destruct IH as [Hc' Hframe]. split.
      * rewrite Hc', <- app_assoc. reflexivity.
      * intros l Hld Hlc. rewrite (Hframe l Hld Hlc). unfold h2, h1.
        rewrite !lookup_insert_ne by congruence. reflexivity.
Qed.

Lemma f64_collect_eq (self : PCICalculator) (area : float) (l : loc) :
  (area <=? 0) = false ->
  forall obs (h : F64.store) acc, h !! l = Some acc ->
    collect_deduct_values self area l obs h
    = match computed_deduct_values self area obs with
      | Return all => Return (tt, <[l := acc ++ positive_only all]> h)
      | Raise e => Raise e
      | Timeout => Timeout
      end.
Proof.
  intros Harea.
  induction obs as [|o rest IH]; intros h acc Hl.
  - simpl. unfold ret. rewrite app_nil_r, (insert_id h l acc Hl). reflexivity.
  - cbn [collect_deduct_values computed_deduct_values].
    unfold bind at 1. unfold lift at 1.
    destruct (DistressType.calculate_density _ _ _) as [density|e|];
      cbn [obind]; [|reflexivity|reflexivity].
    unfold bind at 1. unfold lift at 1.
    destruct (get_deduct_value _ _ _ _) as [dv|e|]; cbn [obind];
      [|reflexivity|reflexivity].
    unfold bind at 1.
    destruct (0 <? dv) eqn:Hpos.
    + unfold PyList.append. rewrite (lookup_total_correct h l acc Hl).
      rewrite (IH (<[l := acc ++ [dv]]> h) (acc ++ [dv]) (lookup_insert_eq _ _ _)).
      destruct (computed_deduct_values self area rest) as [all|e|];
        cbn [obind]; try reflexivity.
      rewrite insert_insert_eq. cbn [positive_only List.filter].
      rewrite Hpos, <- app_assoc. reflexivity.
    + unfold ret. rewrite (IH h acc Hl).
      destruct (computed_deduct_values self area rest) as [all|e|];
        cbn [obind]; try reflexivity.
      cbn [positive_only List.filter]. rewrite Hpos. reflexivity.
Qed.

Lemma f64_insert_desc_length x l : length (insert_desc x l) = S (length l).
Proof.
  induction l as [|y l IH]; simpl; [reflexivity|].
  destruct (x <? y); simpl; [rewrite IH|]; reflexivity.
Qed.

Lemma f64_sort_reverse_length l : length (sort_reverse l) = length l.
Proof.
  induction l as [|x l IH]; [reflexivity|].
  change (sort_reverse (x :: l)) with (insert_desc x (sort_reverse l)).
  rewrite f64_insert_desc_length, IH. reflexivity.
Qed.

(** The store code and the code on list values give the same outcome,
    for every budget. *)
Lemma f64_calculate_sample_pci_value (fuel : nat) (self : PCICalculator)
    (observations : list DistressObservation.t) (sample_area : float) :
  F64.calculate_sample_pci fuel self observations sample_area
  = sample_pci_value fuel self observations sample_area.
Proof.
  unfold F64.calculate_sample_pci, sample_pci_value, calculate_sample_pci_body.
  destruct (sample_area <=? 0) eqn:Harea; [reflexivity|].
  destruct observations as [|o rest] eqn:Hobs; [reflexivity|].
  rewrite <- Hobs. clear Hobs.
  (* Step 1 *)
  unfold bind at 1.
  destruct (f64_new_run [] ∅) as (la & -> & _).
  unfold bind at 1.
  rewrite (f64_collect_eq self sample_area la Harea observations _ []
             (lookup_insert_eq _ _ _)).
  destruct (computed_deduct_values self sample_area observations)
    as [all|e|]; cbn [obind]; [|reflexivity|reflexivity].
  rewrite insert_insert_eq, app_nil_l.
  set (pos := positive_only all).
  unfold bind at 1. unfold PyList.read at 1. rewrite lookup_total_insert_eq.
  unfold sample_pci_of.
  destruct pos as [|p0 prest] eqn:Hpos; [reflexivity|].
  rewrite <- Hpos in *.
  (* Step 2 *)
  unfold bind at 1. unfold list_sort_reverse at 1.
  rewrite lookup_total_insert_eq, insert_insert_eq.
  unfold bind at 1. unfold PyList.getitem at 1. rewrite lookup_total_insert_eq.
  unfold capped_deduct_values.
  destruct (sort_reverse pos) as [|hdv srest] eqn:Hsort.
  { exfalso. apply (f_equal length) in Hsort.
    rewrite f64_sort_reverse_length, Hpos in Hsort. discriminate. }
  rewrite <- Hsort. replace (sort_reverse pos !! 0%nat) with (Some hdv)
    by (rewrite Hsort; reflexivity).
  unfold bind at 1. unfold lift at 1.
  destruct (_calculate_max_deduct_values hdv) as [max_dvs|e|]; cbn [obind];
    [|reflexivity|reflexivity].
  unfold bind at 1. unfold PyList.slice_to at 1. rewrite lookup_total_insert_eq.
  set (capped := Py.slice_to (sort_reverse pos) max_dvs).
  set (h3 := <[la := sort_reverse pos]> (∅ : F64.store)).
  destruct (f64_new_run capped h3) as (lb & -> & Hlb).
  set (h4 := <[lb := capped]> h3).
  (* Step 3 *)
  unfold bind at 1.
  destruct (f64_new_run [] h4) as (lc & -> & Hlc).
  set (h5 := <[lc := []]> h4).
  unfold bind at 1. unfold PyList.copy at 1.
  assert (Hbc : lb <> lc).
  { intros ->. unfold h4 in Hlc. rewrite lookup_insert_eq in Hlc. discriminate. }
  assert (H5b : h5 !! lb = Some capped).
  { unfold h5. rewrite lookup_insert_ne; [|congruence]. apply lookup_insert_eq. }
  rewrite (lookup_total_correct h5 lb capped H5b).
  destruct (f64_new_run capped h5) as (ld & -> & Hld).
  set (h6 := <[ld := capped]> h5).
  assert (Hdc : ld <> lc).
  { intros ->. unfold h5 in Hld. rewrite lookup_insert_eq in Hld. discriminate. }
  assert (Hdb : lb <> ld).
  { intros ->. rewrite H5b in Hld. discriminate. }
  assert (H6d : h6 !! ld = Some capped) by apply lookup_insert_eq.
  assert (H6c : h6 !! lc = Some []).
  { unfold h6. rewrite lookup_insert_ne; [|exact Hdc]. apply lookup_insert_eq. }
  assert (H6b : h6 !! lb = Some capped).
  { unfold h6. rewrite lookup_insert_ne; [exact H5b | congruence]. }
  unfold bind at 1.
  pose proof (f64_while_iterate self ld lc Hdc fuel h6 capped [] H6d H6c) as Hloop.
  destruct (while_true fuel (cdv_round self ld lc) h6) as [[u' h7]|e|];
    destruct (iterate_cdvs self fuel capped) as [hist|e'|]; cbn [obind];
    try (destruct Hloop; fail); [|congruence|reflexivity].
  destruct Hloop as [H7c Hframe]. rewrite app_nil_l in H7c.
  assert (H7b : h7 !! lb = Some capped).
  { rewrite (Hframe lb Hdb Hbc). exact H6b. }
  (* Step 4 *)
  unfold bind at 1. unfold PyList.read at 1.
  rewrite (lookup_total_correct h7 lc hist H7c).
  unfold bind at 1. unfold lift at 1.
  destruct (Py.max_list hist) as [mx|e|]; cbn [obind];
    [|reflexivity|reflexivity].
  unfold bind at 1. unfold PyList.read at 1.
  rewrite (lookup_total_correct h7 lb capped H7b).
  unfold bind at 1. unfold PyList.read at 1.
  rewrite (lookup_total_correct h7 lc hist H7c).
  reflexivity.
Qed.

(** ** The count and the total of a round *)

Lemma f64_fold_left_total (ws : list float) : forall acc,
  fold_left add ws acc = total_from acc ws.
Proof.
  induction ws as [|w ws IH]; intros acc; [reflexivity|]. simpl. apply IH.
Qed.

(** [sum(dvs)] is the total of the entries. *)
Lemma f64_sum_total (ws : list float) : Py.sum ws = total ws.
Proof. apply f64_fold_left_total. Qed.

(** [sum(1 for dv in dvs if dv > 2.0)] is the number of entries above
    2.0. *)
Lemma f64_count_entries (ws : list float) : count_gt2 ws = entries_above_2 ws.
Proof.
  unfold entries_above_2.
  induction ws as [|w ws IH]; [reflexivity|]. simpl.
  destruct (2 <? w); simpl; rewrite IH; reflexivity.
Qed.

(** [if q == 0: q = 1] gives the [q] of the round. *)
Lemma f64_code_q (ws : list float) :
  (if (Z.of_nat (count_gt2 ws) =? 0)%Z then 1%Z else Z.of_nat (count_gt2 ws))
  = q_of ws.
Proof.
  unfold q_of. rewrite <- f64_count_entries.
  destruct (Z.eqb_spec (Z.of_nat (count_gt2 ws)) 0); lia.
Qed.

Lemma f64_q_of_le_1 (ws : list float) :
  (q_of ws <= 1)%Z <-> (count_gt2 ws <= 1)%nat.
Proof. unfold q_of. rewrite <- f64_count_entries. lia. Qed.

Lemma f64_count_gt2_app (l1 l2 : list float) :
  count_gt2 (l1 ++ l2) = (count_gt2 l1 + count_gt2 l2)%nat.
Proof.
  induction l1 as [|x l1 IH]; simpl; [reflexivity|]. rewrite IH. lia.
Qed.

Lemma f64_count_gt2_zero (l : list float) :
  Forall (fun y => (2 <? y) = false) l -> count_gt2 l = 0%nat.
Proof.
  induction 1 as [|y l Hy _ IH]; simpl; [reflexivity|].
  rewrite Hy, IH. reflexivity.
Qed.

Lemma f64_flattened_count (ws ws' : list float) :
  flattened ws ws' -> S (count_gt2 ws') = count_gt2 ws.
Proof.
  intros [before after v Hv Hafter].
  rewrite !f64_count_gt2_app. simpl. rewrite Hv.
  change (2 <? 2) with false. lia.
Qed.

Lemma f64_flattened_length (ws ws' : list float) :
  flattened ws ws' -> length ws' = length ws.
Proof. intros [before after v _ _]. rewrite !length_app. reflexivity. Qed.

(** The backward scan of the code flattens, in the spec's sense. *)
Lemma f64_scan_back_flattened (cur : list float) : forall n,
  (n <= length cur)%nat ->
  (0 < count_gt2 (take n cur))%nat ->
  Forall (fun y => (2 <? y) = false) (drop n cur) ->
  flattened cur (scan_back n cur).
Proof.
  induction n as [|i IH]; intros Hn Hc Hdrop.
  - rewrite take_0 in Hc. simpl in Hc. lia.
  - simpl. destruct (lookup_lt_is_Some_2 cur i ltac:(lia)) as [v Hv].
    rewrite Hv.
    pose proof (take_drop_middle cur i v Hv) as Hsplit.
    destruct (2 <? v) eqn:Hgt.
    + rewrite <- Hsplit at 1.
      rewrite (insert_take_drop cur i); [|lia].
      constructor; [exact Hgt | exact Hdrop].
    + apply IH; [lia | |].
      * rewrite (take_S_r cur i v Hv), f64_count_gt2_app in Hc.
        simpl in Hc. rewrite Hgt in Hc. lia.
      * rewrite (drop_S cur v i Hv). constructor; [exact Hgt | exact Hdrop].
Qed.

(** What the loop records follows the rounds of the procedure. *)
Lemma f64_iterate_cdvs_rounds (self : PCICalculator) : forall fuel ws hist,
  iterate_cdvs self fuel ws = Return hist ->
  exists final,
    rounds self ws hist final /\
    (q_of final <= 1)%Z /\
    length final = length ws.
Proof.
  induction fuel as [|fuel IH]; intros ws hist Hit; [discriminate|].
  cbn [iterate_cdvs] in Hit. cbv zeta in Hit.
  rewrite f64_code_q, f64_sum_total in Hit.
  destruct (get_cdv self (total ws) (q_of ws)) as [cdv|e|] eqn:Hcdv;
    cbn [obind] in Hit; try discriminate.
  destruct (Z.leb_spec (q_of ws) 1) as [Hq|Hq].
  - injection Hit as <-. exists ws.
    split; [apply rounds_stop; assumption|]. split; [exact Hq | reflexivity].
  - destruct (iterate_cdvs self fuel (scan_back (length ws) ws))
      as [rest|e|] eqn:Hrest; cbn [obind] in Hit; try discriminate.
    injection Hit as <-.
    destruct (IH _ _ Hrest) as (final & Hrounds & Hfinal & Hlen).
    assert (Hflat : flattened ws (scan_back (length ws) ws)).
    { apply f64_scan_back_flattened; [lia | |].
      - rewrite firstn_all.
        assert (~ (count_gt2 ws <= 1)%nat) by (rewrite <- f64_q_of_le_1; lia).
        lia.
      - rewrite drop_all. constructor. }
    exists final. split; [|split; [exact Hfinal|]].
    + eapply rounds_step; eassumption.
    + rewrite Hlen. apply (f64_flattened_length _ _ Hflat).
Qed.

(** ** Sorting and capping *)

Lemma f64_insert_desc_perm x l : Permutation (insert_desc x l) (x :: l).
Proof.
  induction l as [|y l IH]; simpl; [reflexivity|].
  destruct (x <? y); [|reflexivity].
  rewrite IH. apply perm_swap.
Qed.

Lemma f64_sort_reverse_perm l : Permutation (sort_reverse l) l.
Proof.
  induction l as [|x l IH]; [reflexivity|].
  change (sort_reverse (x :: l)) with (insert_desc x (sort_reverse l)).
  rewrite f64_insert_desc_perm, IH. reflexivity.
Qed.

Lemma f64_insert_desc_sorted x l :
  (x <=? x) = true -> Forall (fun y => (y <=? y) = true) l ->
  descending l -> descending (insert_desc x l).
Proof.
  unfold descending. intros Hx Hnan Hs. revert Hnan.
  induction Hs as [|y l Hs IH Hy]; intros Hnan; simpl.
  - repeat constructor.
  - apply Forall_cons in Hnan. destruct Hnan as [Hyy Hnan].
    destruct (x <? y) eqn:Hxy.
    + constructor; [exact (IH Hnan)|].
      rewrite Forall_forall. intros z Hz.
      rewrite (f64_insert_desc_perm x l) in Hz. apply elem_of_cons in Hz.
      destruct Hz as [->|Hz]; [apply f64_ltb_leb; exact Hxy|].
      rewrite Forall_forall in Hy. apply Hy, Hz.
    + pose proof (f64_not_ltb_leb x y Hx Hyy Hxy) as Hyx.
      constructor; [constructor; assumption|].
      constructor; [exact Hyx|].
      eapply Forall_impl; [exact Hy|].
      intros z Hz. simpl in Hz. apply f64_leb_trans with y; assumption.
Qed.

Lemma f64_sort_reverse_sorted l :
  Forall (fun y => (y <=? y) = true) l -> descending (sort_reverse l).
Proof.
  induction 1 as [|x l Hx Hl IH]; [constructor|].
  change (sort_reverse (x :: l)) with (insert_desc x (sort_reverse l)).
  apply f64_insert_desc_sorted; [exact Hx | | exact IH].
  rewrite (f64_sort_reverse_perm l). exact Hl.
Qed.

Lemma f64_positive_only_positive (dvs : list float) :
  Forall (fun dv => (0 <? dv) = true) (positive_only dvs).
Proof.
  unfold positive_only. induction dvs as [|d dvs IH]; simpl; [constructor|].
  destruct (0 <? d) eqn:Hd; [constructor; assumption | exact IH].
Qed.

Lemma f64_positive_not_nan (dvs : list float) :
  Forall (fun y => (y <=? y) = true) (positive_only dvs).
Proof.
  eapply Forall_impl; [apply f64_positive_only_positive|].
  intros d Hd. simpl in Hd.
  exact (proj2 (f64_leb_self _ _ (f64_ltb_leb _ _ Hd))).
Qed.

Lemma f64_descending_take n l : descending l -> descending (take n l).
Proof.
  unfold descending. intros Hs.
  rewrite <- (take_drop n l) in Hs.
  exact (StronglySorted_app_1_l _ _ _ Hs).
Qed.

Lemma f64_slice_to_take {A} (l : list A) (m : Z) :
  (0 <= m)%Z -> Py.slice_to l m = take (Z.to_nat m) l.
Proof.
  intros Hm. unfold Py.slice_to.
  destruct (Z.ltb_spec m 0); [lia | reflexivity].
Qed.

(** Flattening keeps a descending working set descending. *)
Lemma f64_flattened_descending ws ws' :
  descending ws -> flattened ws ws' -> descending ws'.
Proof.
  unfold descending. intros Hs Hf. revert Hs.
  destruct Hf as [before after v Hv Hafter]. intros Hs.
  apply StronglySorted_app in Hs. destruct Hs as (Hcross & Hb & Hva).
  apply StronglySorted_cons in Hva. destruct Hva as [Hvall Ha].
  apply StronglySorted_app. split; [|split; [exact Hb|]].
  - intros x1 x2 Hx1 Hx2. apply elem_of_cons in Hx2.
    destruct Hx2 as [->|Hx2].
    + specialize (Hcross x1 v Hx1 ltac:(apply elem_of_cons; left; reflexivity)).
      simpl in Hcross.
      apply f64_leb_trans with v; [apply f64_ltb_leb; exact Hv | exact Hcross].
    + apply Hcross; [exact Hx1 | apply elem_of_cons; right; exact Hx2].
  - apply StronglySorted_cons. split; [|exact Ha].
    rewrite Forall_forall in Hafter, Hvall |- *. intros y Hy.
    apply f64_not_ltb_leb; [reflexivity | | apply Hafter, Hy].
    exact (proj1 (f64_leb_self _ _ (Hvall y Hy))).
Qed.

(** The cap that [_calculate_max_deduct_values] returns is at least 1
    and is the floor of the float [1 + (9 / 98) * (100 - hdv)], read as
    the rational it stands for. *)
Lemma f64_int_floor (v : float) (z : Z) :
  Py.int v = Return z -> Z.max 1 z = Z.max 1 (Qfloor (exact v)).
Proof.
  unfold Py.int, exact.
  destruct (Prim2SF v) as [s|s| |s m e]; try discriminate.
  - intros H; injection H as <-. reflexivity.
  - intros H; injection H as <-.
    assert (Hshl : forall k, (0 <= k)%Z ->
              Z.max 1 (if s then - Z.shiftl (Z.pos m) k else Z.shiftl (Z.pos m) k)
              = Z.max 1 (Qfloor (inject_Z ((if s then Z.neg m else Z.pos m) * 2 ^ k)))).
    { intros k Hk. rewrite Z.shiftl_mul_pow2 by exact Hk.
      unfold Qfloor, inject_Z. rewrite Z.div_1_r.
      destruct s; [|reflexivity].
      rewrite <- Pos2Z.opp_pos, Z.mul_opp_l. reflexivity. }
    destruct e as [|p|p].
    + apply Hshl. lia.
    + apply Hshl. lia.
    + rewrite Z.shiftr_div_pow2 by lia.
      unfold Qfloor.
      replace (Z.pos (2 ^ p)) with (2 ^ Z.pos p)%Z
        by (rewrite Pos2Z.inj_pow; reflexivity).
      assert (Hpow : (0 < 2 ^ Z.pos p)%Z) by (apply Z.pow_pos_nonneg; lia).
      destruct s; [|reflexivity].
      pose proof (Z.div_pos (Z.pos m) (2 ^ Z.pos p) ltac:(lia) Hpow).
      assert ((Z.neg m / 2 ^ Z.pos p < 0)%Z)
        by (apply Z.div_lt_upper_bound; lia).
      lia.
Qed.

Lemma f64_max_deduct_values_floor (hdv : float) (m : Z) :
  _calculate_max_deduct_values hdv = Return m ->
  m = cap_as_rounded hdv /\ (1 <= m)%Z.
Proof.
  unfold _calculate_max_deduct_values, cap_as_rounded. cbn [negb MAX_DEDUCT_VALUES_FORMULA].
  cbv zeta.
  destruct (Py.int _) as [z|e|] eqn:Hz; cbn [obind]; try discriminate.
  intros H; injection H as <-.
  rewrite (f64_int_floor _ _ Hz). split; [reflexivity | lia].
Qed.

(** ** What a returned result holds *)

Lemma f64_returned_result (fuel : nat) (self : PCICalculator)
    (observations : list DistressObservation.t) (sample_area : float)
    (r : PCIResult) :
  F64.calculate_sample_pci fuel self observations sample_area = Return r ->
  (sample_area <=? 0) = false /\
  exists all,
    computed_deduct_values self sample_area observations = Return all /\
    match positive_only all with
    | [] => r = perfect_pavement
    | _ :: _ =>
        exists hdv rest m mx,
          sort_reverse (positive_only all) = hdv :: rest /\
          _calculate_max_deduct_values hdv = Return m /\
          deduct_values r = Py.slice_to (sort_reverse (positive_only all)) m /\
          iterate_cdvs self fuel (deduct_values r) = Return (iteration_cdvs r) /\
          Py.max_list (iteration_cdvs r) = Return mx /\
          max_cdv r = mx /\
          pci r = Py.clamp100 (100 - mx) /\
          rating r = get_pci_rating (pci r)
    end.
Proof.
  rewrite f64_calculate_sample_pci_value. unfold sample_pci_value.
  destruct (sample_area <=? 0); [discriminate|].
  destruct (computed_deduct_values self sample_area observations)
    as [all|e|]; cbn [obind]; try discriminate.
  intros Hr. split; [reflexivity|]. exists all. split; [reflexivity|].
  unfold sample_pci_of in Hr.
  destruct (positive_only all) as [|p0 prest] eqn:Hpos.
  { injection Hr as <-. reflexivity. }
  rewrite <- Hpos in *. unfold capped_deduct_values in Hr.
  destruct (sort_reverse (positive_only all)) as [|hdv rest] eqn:Hsort;
    [discriminate|].
  rewrite <- Hsort in *.
  destruct (_calculate_max_deduct_values hdv) as [m|e|] eqn:Hm;
    cbn [obind] in Hr; try discriminate.
  destruct (iterate_cdvs self fuel _) as [hist|e|] eqn:Hit; cbn [obind] in Hr;
    try discriminate.
  destruct (Py.max_list hist) as [mx|e|] eqn:Hmax; cbn [obind] in Hr;
    try discriminate.
  injection Hr as <-.
  cbn [deduct_values iteration_cdvs max_cdv pci rating].
  exists hdv, rest, m, mx.
  split; [exact Hsort|]. split; [exact Hm|]. split; [reflexivity|].
  split; [exact Hit|]. split; [exact Hmax|]. repeat split.
Qed.

Lemma f64_perfect_pavement_empty : deduct_values perfect_pavement = [].
Proof. reflexivity. Qed.

Lemma f64_head_highest (pos : list float) hdv rest :
  Forall (fun y => (y <=? y) = true) pos ->
  sort_reverse pos = hdv :: rest ->
  hdv ∈ pos /\ (forall d, d ∈ pos -> (d <=? hdv) = true).
Proof.
  intros Hnan Hsort.
  pose proof (f64_sort_reverse_sorted pos Hnan) as Hs. rewrite Hsort in Hs.
  apply StronglySorted_inv in Hs. destruct Hs as [_ Hall].
  assert (Hin : hdv ∈ pos).
  { rewrite <- (f64_sort_reverse_perm pos), Hsort.
    apply elem_of_cons; left; reflexivity. }
  split; [exact Hin|].
  intros d Hd. rewrite <- (f64_sort_reverse_perm pos), Hsort in Hd.
  apply elem_of_cons in Hd. destruct Hd as [->|Hd].
  - rewrite Forall_forall in Hnan. apply Hnan, Hin.
  - rewrite Forall_forall in Hall. apply Hall, Hd.
Qed.

Lemma f64_su_001_returns :
  F64.calculate_sample_pci 3 F64.example_calculator F64.su_001_observations 2500
  = Return F64.su_001_result.
Proof. vm_compute. reflexivity. Qed.

Lemma f64_su_001_nonempty : deduct_values F64.su_001_result <> [].
Proof. discriminate. Qed.

Lemma f64_init_example : F64.PCICalculator_init = Return F64.example_calculator.
Proof. vm_compute. reflexivity. Qed.

(** C2.  In every round of the CDV iteration, on the binary64 model:
    [q] is the number of working-set entries strictly greater than 2.0
    (0 treated as 1), the total deduct value is the total of all current
    working-set entries (added from the first to the last, as [sum]
    does), a round with [q > 1] replaces the last entry above 2.0 of the
    descending working set by exactly 2.0, and the loop stops after
    recording the CDV of a round with [q <= 1].  The count and the total
    of the relation [rounds] are defined on their own, not through the
    functions the code calls. *)
Theorem cdv_rounds_follow_procedure (fuel : nat) (self : F64.PCICalculator)
    (observations : list F64.DistressObservation.t) (sample_area : float)
    (r : F64.PCIResult) :
  F64.calculate_sample_pci fuel self observations sample_area = F64.Return r ->
  F64.deduct_values r <> [] ->
  F64.descending (F64.deduct_values r) /\
  (forall ws ws',
     F64.descending ws -> F64.flattened ws ws' -> F64.descending ws') /\
  exists final,
    F64.rounds self (F64.deduct_values r) (F64.iteration_cdvs r) final /\
    (F64.q_of final <= 1)%Z /\
    length final = length (F64.deduct_values r).
Proof.
  intros Hr Hne.
  destruct (f64_returned_result _ _ _ _ _ Hr) as (_ & all & _ & Hres).
  destruct (positive_only all) as [|p0 prest] eqn:Hpos.
  { subst r. destruct Hne. reflexivity. }
  rewrite <- Hpos in *.
  destruct Hres as (hdv & rest & m & mx & Hsort & Hm & Hdv & Hit & _).
  destruct (f64_max_deduct_values_floor _ _ Hm) as [_ Hm1].
  split; [|split].
  - rewrite Hdv, f64_slice_to_take by lia.
    apply f64_descending_take, f64_sort_reverse_sorted, f64_positive_not_nan.
  - exact f64_flattened_descending.
  - exact (f64_iterate_cdvs_rounds self fuel _ _ Hit).
Qed.

Lemma cdv_rounds_follow_procedure_witness :
  F64.calculate_sample_pci 3 F64.example_calculator F64.su_001_observations 2500
  = F64.Return F64.su_001_result /\
  F64.deduct_values F64.su_001_result <> [] /\
  exists final,
    F64.rounds F64.example_calculator (F64.deduct_values F64.su_001_result)
      (F64.iteration_cdvs F64.su_001_result) final.
Proof.
  split; [exact f64_su_001_returns|]. split; [exact f64_su_001_nonempty|].
  destruct (cdv_rounds_follow_procedure 3 F64.example_calculator
              F64.su_001_observations 2500 F64.su_001_result f64_su_001_returns
              f64_su_001_nonempty) as (_ & _ & final & Hrounds & _).
  exists final. exact Hrounds.
Defined.

(** C3.  On the binary64 model: the deduct values above zero are sorted
    descending, their head [hdv] is the highest of them, and the result
    reports, and the iteration starts from, the first [m] entries, where
    [m] is the cap the code computes: the floor, at least 1, of the
    float that the four rounded operations of
    [1 + (9 / 98) * (100 - hdv)] give.  The reported list never has more
    than [m] entries. *)
Theorem deduct_values_capped (fuel : nat) (self : F64.PCICalculator)
    (observations : list F64.DistressObservation.t) (sample_area : float)
    (r : F64.PCIResult) (all : list float) :
  F64.calculate_sample_pci fuel self observations sample_area = F64.Return r ->
  F64.computed_deduct_values self sample_area observations = F64.Return all ->
  F64.positive_only all <> [] ->
  exists hdv,
    head (F64.sort_reverse (F64.positive_only all)) = Some hdv /\
    hdv ∈ F64.positive_only all /\
    (forall d, d ∈ F64.positive_only all -> (d <=? hdv) = true) /\
    F64.descending (F64.sort_reverse (F64.positive_only all)) /\
    Permutation (F64.sort_reverse (F64.positive_only all)) (F64.positive_only all) /\
    let m := F64.cap_as_rounded hdv in
    F64._calculate_max_deduct_values hdv = F64.Return m /\
    (1 <= m)%Z /\
    F64.deduct_values r
    = take (Z.to_nat m) (F64.sort_reverse (F64.positive_only all)) /\
    (length (F64.deduct_values r) <= Z.to_nat m)%nat /\
    exists final,
      F64.rounds self (F64.deduct_values r) (F64.iteration_cdvs r) final.
Proof.
  intros Hr Hall Hne.
  destruct (f64_returned_result _ _ _ _ _ Hr) as (_ & all' & Hall' & Hres).
  rewrite Hall in Hall'. injection Hall' as <-.
  destruct (positive_only all) as [|p0 prest] eqn:Hpos; [congruence|].
  rewrite <- Hpos in *.
  destruct Hres as (hdv & rest & m & mx & Hsort & Hm & Hdv & Hit & _).
  destruct (f64_max_deduct_values_floor _ _ Hm) as [-> Hm1].
  pose proof (f64_positive_not_nan all) as Hnan.
  destruct (f64_head_highest _ _ _ Hnan Hsort) as [Hin Hmax].
  exists hdv. split; [rewrite Hsort; reflexivity|].
  split; [exact Hin|]. split; [exact Hmax|].
  split; [apply f64_sort_reverse_sorted; exact Hnan|].
  split; [apply f64_sort_reverse_perm|].
  cbv zeta. split; [exact Hm|]. split; [exact Hm1|].
  rewrite f64_slice_to_take in Hdv by lia.
  split; [exact Hdv|].
  split; [rewrite Hdv, length_take; lia|].
  destruct (f64_iterate_cdvs_rounds self fuel _ _ Hit) as (final & Hrounds & _).
  exists final. exact Hrounds.
Qed.

Lemma f64_su_001_computed :
  F64.computed_deduct_values F64.example_calculator 2500 F64.su_001_observations
  = Return [34.4; 4; 8].
Proof. vm_compute. reflexivity. Qed.

Lemma deduct_values_capped_witness :
  F64.calculate_sample_pci 3 F64.example_calculator F64.su_001_observations 2500
  = F64.Return F64.su_001_result /\
  F64.computed_deduct_values F64.example_calculator 2500 F64.su_001_observations
  = F64.Return [34.4; 4; 8] /\
  F64.positive_only [34.4; 4; 8] <> [] /\
  exists hdv,
    head (F64.sort_reverse (F64.positive_only [34.4; 4; 8])) = Some hdv /\
    (length (F64.deduct_values F64.su_001_result)
     <= Z.to_nat (F64.cap_as_rounded hdv))%nat.
Proof.
  split; [exact f64_su_001_returns|]. split; [exact f64_su_001_computed|].
  assert (Hne : F64.positive_only [34.4; 4; 8] <> []) by discriminate.
  split; [exact Hne|].
  destruct (deduct_values_capped 3 F64.example_calculator
              F64.su_001_observations 2500 F64.su_001_result [34.4; 4; 8]
              f64_su_001_returns f64_su_001_computed Hne)
    as (hdv & Hhd & _ & _ & _ & _ & _ & _ & _ & Hlen & _).
  exists hdv. split; [exact Hhd | exact Hlen].
Defined.

(** C3 as stated, with the formula read in exact arithmetic, fails.
    Seventy low-severity potholes on 2500 sq ft have the deduct value
    34.66666666666667 on the example curves; the exact value of
    [1 + (9/98)(100 - 34.66666666666667)] lies just below 7, so the
    formula allows 6 deduct values, while the code computes exactly 7.0
    and reports 7. *)
Lemma cap_above_exact_formula :
  F64.PCICalculator_init = F64.Return F64.example_calculator /\
  exists r hdv,
    F64.calculate_sample_pci 7 F64.example_calculator F64.seven_distresses 2500
    = F64.Return r /\
    head (F64.deduct_values r) = Some hdv /\
    hdv = 34.66666666666667 /\
    F64.cap_in_exact_arithmetic hdv = 6%Z /\
    F64._calculate_max_deduct_values hdv = F64.Return 7%Z /\
    length (F64.deduct_values r) = 7%nat /\
    ~ (length (F64.deduct_values r)
       <= Z.to_nat (F64.cap_in_exact_arithmetic hdv))%nat.
Proof.
  split; [exact f64_init_example|].
  destruct (F64.calculate_sample_pci 7 F64.example_calculator
              F64.seven_distresses 2500) as [r| |] eqn:Hr;
    [|vm_compute in Hr; discriminate|vm_compute in Hr; discriminate].
  vm_compute in Hr. injection Hr as <-.
  eexists. exists 34.66666666666667.
  split; [reflexivity|]. split; [reflexivity|]. split; [reflexivity|].
  assert (Hcap : F64.cap_in_exact_arithmetic 34.66666666666667 = 6%Z)
    by (vm_compute; reflexivity).
  split; [exact Hcap|]. split; [vm_compute; reflexivity|].
  split; [reflexivity|].
  rewrite Hcap. cbn [length F64.deduct_values]. lia.
Qed.

(** ** Range of the index and the perfect score *)

Lemma f64_max_list_range (l : list float) (mx : float) :
  Forall (fun c => (0 <=? c) = true /\ (c <=? 100) = true) l ->
  Py.max_list l = Return mx ->
  (0 <=? mx) = true /\ (mx <=? 100) = true.
Proof.
  destruct l as [|x l]; [discriminate|]. cbn [Py.max_list].
  intros Hall H; injection H as <-.
  apply Forall_cons in Hall. destruct Hall as [Hx Hl]. revert x Hx.
  induction Hl as [|y l Hy _ IH]; intros x Hx; cbn [fold_left]; [exact Hx|].
  apply IH. unfold Py.max2. destruct (x <? y); assumption.
Qed.

Lemma f64_rounds_range (self : PCICalculator) ws hist final :
  rounds self ws hist final ->
  Forall (fun c => (0 <=? c) = true /\ (c <=? 100) = true) hist.
Proof.
  induction 1 as [ws cdv _ Hcdv | ws ws' cdv hist final _ Hcdv _ _ IH].
  - constructor; [exact (f64_get_cdv_range _ _ _ _ Hcdv) | constructor].
  - constructor; [exact (f64_get_cdv_range _ _ _ _ Hcdv) | exact IH].
Qed.

Lemma f64_positive_only_nil (dvs : list float) :
  Forall (fun dv => (0 <=? dv) = true) dvs ->
  positive_only dvs = [] <-> Forall (fun dv => (dv =? 0) = true) dvs.
Proof.
  unfold positive_only. induction 1 as [|d dvs Hd _ IH]; simpl.
  - split; [constructor | reflexivity].
  - destruct (0 <? d) eqn:Hpos.
    + split; [discriminate|]. intros Hall. apply Forall_cons in Hall.
      destruct Hall as [Hz _]. rewrite (f64_eqb_not_ltb _ _ Hz) in Hpos.
      discriminate.
    + rewrite IH. split.
      * intros Hall. constructor; [|exact Hall].
        exact (f64_leb_not_ltb_eqb _ _ Hd Hpos).
      * intros Hall. apply Forall_cons in Hall. tauto.
Qed.

(** The clamp of [100 - mx] is 100 exactly when the difference is not
    below 100, which is the case when [mx] is 0 or too small to show in
    the difference. *)
Lemma f64_clamped_is_100 (v : float) :
  (Py.clamp100 v =? 100) = true <-> (v <? 100) = false.
Proof.
  unfold Py.clamp100, Py.min2, Py.max2.
  destruct (v <? 100) eqn:Hhi.
  - split; [|discriminate]. destruct (0 <? v).
    + rewrite (f64_ltb_not_eqb _ _ Hhi). discriminate.
    + discriminate.
  - split; reflexivity.
Qed.

(** C4.  On the binary64 model: every returned [pci] lies in [0, 100]
    and is 100 when there is no observation or every computed deduct
    value is 0.  The converse fails: [pci] is 100 exactly when there is
    no observation, or every deduct value is 0, or [100 - max_cdv] is not
    below 100 as a float, which holds when the largest recorded CDV is 0
    and also when it is positive but too small to show in the
    difference. *)
Theorem pci_range_and_perfect_score (fuel : nat) (self : F64.PCICalculator)
    (observations : list F64.DistressObservation.t) (sample_area : float)
    (r : F64.PCIResult) (all : list float) :
  F64.calculate_sample_pci fuel self observations sample_area = F64.Return r ->
  F64.computed_deduct_values self sample_area observations = F64.Return all ->
  (0 <=? F64.pci r) = true /\ (F64.pci r <=? 100) = true /\
  (observations = [] \/ Forall (fun dv => (dv =? 0) = true) all ->
     F64.pci r = 100) /\
  ((F64.pci r =? 100) = true <->
     (observations = [] \/ Forall (fun dv => (dv =? 0) = true) all) \/
     (F64.iteration_cdvs r <> [] /\ (100 - F64.max_cdv r <? 100) = false)).
Proof.
  intros Hr Hall.
  destruct (f64_returned_result _ _ _ _ _ Hr) as (_ & all' & Hall' & Hres).
  rewrite Hall in Hall'. injection Hall' as <-.
  pose proof (f64_computed_deduct_values_range _ _ _ _ Hall) as Hrange.
  assert (Hnonneg : Forall (fun dv => (0 <=? dv) = true) all).
  { eapply Forall_impl; [exact Hrange|]. intros dv [H0 _]. exact H0. }
  pose proof (f64_positive_only_nil all Hnonneg) as Hnil.
  assert (Hempty : observations = [] -> positive_only all = []).
  { intros ->. injection Hall as <-. reflexivity. }
  destruct (positive_only all) as [|p0 prest] eqn:Hpos.
  - subst r. cbn [pci iteration_cdvs max_cdv perfect_pavement].
    split; [reflexivity|]. split; [reflexivity|]. split; [reflexivity|].
    split; [|reflexivity].
    intros _. left. right. apply Hnil. reflexivity.
  - destruct Hres as (hdv & rest & m & mx & _ & _ & _ & Hit & Hmax & Hmx & Hpci & _).
    assert (Hne : iteration_cdvs r <> []).
    { intros Heq. rewrite Heq in Hmax. discriminate. }
    assert (Hnot : ~ (observations = [] \/ Forall (fun dv => (dv =? 0) = true) all)).
    { intros [He|Hz]; [specialize (Hempty He) | apply Hnil in Hz]; discriminate. }
    rewrite Hpci, Hmx.
    split; [apply f64_clamp100_range|]. split; [apply f64_clamp100_range|].
    split; [intros H; destruct (Hnot H)|].
    rewrite f64_clamped_is_100. split.
    + intros Hv. right. split; assumption.
    + intros [H|[_ Hv]]; [destruct (Hnot H) | exact Hv].
Qed.

Lemma pci_range_and_perfect_score_witness :
  F64.calculate_sample_pci 3 F64.example_calculator F64.su_001_observations 2500
  = F64.Return F64.su_001_result /\
  F64.computed_deduct_values F64.example_calculator 2500 F64.su_001_observations
  = F64.Return [34.4; 4; 8] /\
  (0 <=? F64.pci F64.su_001_result) = true /\
  (F64.pci F64.su_001_result <=? 100) = true.
Proof.
  split; [exact f64_su_001_returns|]. split; [exact f64_su_001_computed|].
  destruct (pci_range_and_perfect_score 3 F64.example_calculator
              F64.su_001_observations 2500 F64.su_001_result [34.4; 4; 8]
              f64_su_001_returns f64_su_001_computed) as (H0 & H1 & _).
  split; assumption.
Defined.

(** C4 as stated fails, with the example curves: weathering over
    2.5e-17 sq ft of a 2500 sq ft sample has the deduct value and the
    CDV 9.999999999999999e-19, both above zero, and [100.0 - max_cdv]
    rounds to 100. *)
Lemma perfect_score_with_positive_deduct :
  F64.PCICalculator_init = F64.Return F64.example_calculator /\
  exists r dv,
    F64.calculate_sample_pci 1 F64.example_calculator F64.faint_weathering 2500
    = F64.Return r /\
    F64.computed_deduct_values F64.example_calculator 2500 F64.faint_weathering
    = F64.Return [dv] /\
    (0 <? dv) = true /\
    F64.deduct_values r = [dv] /\
    (0 <? F64.max_cdv r) = true /\
    (F64.pci r =? 100) = true /\
    ~ (F64.faint_weathering = [] \/ Forall (fun dv => (dv =? 0) = true) [dv]).
Proof.
  split; [exact f64_init_example|].
  destruct (F64.calculate_sample_pci 1 F64.example_calculator
              F64.faint_weathering 2500) as [r| |] eqn:Hr;
    [|vm_compute in Hr; discriminate|vm_compute in Hr; discriminate].
  vm_compute in Hr. injection Hr as <-.
  eexists. exists 9.9999999999999988e-19.
  split; [reflexivity|]. split; [vm_compute; reflexivity|].
  split; [reflexivity|]. split; [reflexivity|]. split; [reflexivity|].
  split; [reflexivity|].
  intros [H|H]; [discriminate|].
  apply Forall_cons in H. destruct H as [H _]. vm_compute in H. discriminate.
Qed.

(** ** Sums of floats above zero *)

Lemma digits2_pos_lower (m : positive) :
  (2 ^ (Zpos (digits2_pos m) - 1) <= Zpos m)%Z.
Proof.
  induction m as [m IH|m IH|]; cbn [digits2_pos].
  - rewrite Pos2Z.inj_succ.
    replace (Z.succ (Zpos (digits2_pos m)) - 1)%Z
      with (Z.succ (Zpos (digits2_pos m) - 1))%Z by lia.
    rewrite Z.pow_succ_r by lia. lia.
  - rewrite Pos2Z.inj_succ.
    replace (Z.succ (Zpos (digits2_pos m)) - 1)%Z
      with (Z.succ (Zpos (digits2_pos m) - 1))%Z by lia.
    rewrite Z.pow_succ_r by lia. lia.
  - simpl. lia.
Qed.

Lemma shr_1_m (r : shr_record) :
  (0 <= shr_m r)%Z -> shr_m (shr_1 r) = (shr_m r / 2)%Z.
Proof.
  destruct r as [m r s]. cbn [shr_m]. intros Hm.
  destruct m as [|[p|p|]|p]; cbn [shr_1 shr_m]; try reflexivity; try lia.
  - apply Z.div_unique with 1%Z; lia.
  - apply Z.div_unique with 0%Z; lia.
Qed.

Lemma iter_pos_shr_1_m (p : positive) :
  forall r, (0 <= shr_m r)%Z ->
    shr_m (iter_pos shr_1 p r) = (shr_m r / 2 ^ Zpos p)%Z.
Proof.
  assert (Hdd : forall m k, (0 <= m)%Z ->
            (m / 2 ^ Zpos k / 2 ^ Zpos k = m / 2 ^ Zpos k~0)%Z).
  { intros m k Hm. rewrite Z.div_div by lia.
    rewrite <- Z.pow_add_r by lia. f_equal. f_equal. lia. }
  induction p as [p IH|p IH|]; intros r Hr; cbn [iter_pos].
  - assert (H1 : (0 <= shr_m (shr_1 r))%Z)
      by (rewrite shr_1_m by assumption; apply Z.div_pos; lia).
    assert (H2 : (0 <= shr_m (iter_pos shr_1 p (shr_1 r)))%Z)
      by (rewrite IH by assumption; apply Z.div_pos; lia).
    rewrite IH by assumption. rewrite IH by assumption.
    rewrite Hdd by assumption. rewrite shr_1_m by assumption.
    rewrite Z.div_div by lia. f_equal.
  - assert (H1 : (0 <= shr_m (iter_pos shr_1 p r))%Z)
      by (rewrite IH by assumption; apply Z.div_pos; lia).
    rewrite IH by assumption. rewrite IH by assumption.
    apply Hdd. assumption.
  - rewrite shr_1_m by assumption. reflexivity.
Qed.

Lemma shr_record_of_loc_m m l : shr_m (shr_record_of_loc m l) = m.
Proof. destruct l as [|[]]; reflexivity. Qed.

Lemma fexp_emin e : (SpecFloat.emin prec emax <= fexp prec emax e)%Z.
Proof. unfold fexp. lia. Qed.

(** Shifting a mantissa above zero to its canonical exponent leaves it
    above zero, as long as the exponent is not below [emin]: there is no
    flush to zero. *)
Lemma shr_fexp_pos (m e : Z) (l : location) :
  (0 < m)%Z -> (SpecFloat.emin prec emax <= e)%Z ->
  (0 < shr_m (fst (shr_fexp prec emax m e l)))%Z /\
  (SpecFloat.emin prec emax <= snd (shr_fexp prec emax m e l))%Z.
Proof.
  intros Hm He. unfold shr_fexp, shr.
  destruct (fexp prec emax (Zdigits2 m + e) - e)%Z as [|p|p] eqn:Hn;
    cbn [fst snd]; rewrite ?shr_record_of_loc_m; try (split; assumption).
  split.
  - rewrite iter_pos_shr_1_m by (rewrite shr_record_of_loc_m; lia).
    rewrite shr_record_of_loc_m.
    destruct m as [|m|m]; try lia. cbn [Zdigits2] in Hn.
    pose proof (digits2_pos_lower m) as Hd.
    assert (Hp : (Zpos p <= Zpos (digits2_pos m) - 1)%Z).
    { unfold fexp in Hn. unfold prec in Hn at 1. lia. }
    apply Z.div_str_pos. split; [lia|].
    apply Z.le_trans with (2 := Hd).
    apply Z.pow_le_mono_r; lia.
  - rewrite <- Hn.
    replace (e + (fexp prec emax (Zdigits2 m + e) - e))%Z
      with (fexp prec emax (Zdigits2 m + e)) by lia.
    apply fexp_emin.
Qed.

Lemma round_nearest_even_pos m l : (0 < m)%Z -> (0 < round_nearest_even m l)%Z.
Proof.
  intros Hm. unfold round_nearest_even.
  destruct l as [|[]]; try destruct (Z.even m); lia.
Qed.

Lemma binary_round_aux_pos (m e : Z) (l : location) :
  (0 < m)%Z -> (SpecFloat.emin prec emax <= e)%Z ->
  SFltb (S754_zero false) (binary_round_aux prec emax false m e l) = true.
Proof.
  intros Hm He. unfold binary_round_aux.
  destruct (shr_fexp_pos m e l Hm He) as [H1 H1e].
  destruct (shr_fexp prec emax m e l) as [mrs' e']. cbn [fst snd] in H1, H1e.
  pose proof (round_nearest_even_pos (shr_m mrs') (loc_of_shr_record mrs') H1)
    as Hr.
  destruct (shr_fexp_pos _ e' loc_Exact Hr H1e) as [H2 _].
  destruct (shr_fexp prec emax _ e' loc_Exact) as [mrs'' e''].
  cbn [fst] in H2.
  destruct (shr_m mrs'') as [|p|p]; try lia.
  destruct (e'' <=? emax - prec)%Z; reflexivity.
Qed.

Lemma binary_round_pos (m : positive) (e : Z) :
  (SpecFloat.emin prec emax <= e)%Z -> SFltb (S754_zero false) (binary_round prec emax false m e) = true.
Proof.
  intros He. unfold binary_round, shl_align.
  destruct (fexp prec emax (Zpos (digits2_pos m) + e) - e)%Z eqn:Hn;
    try (apply binary_round_aux_pos; [lia | assumption]).
  apply binary_round_aux_pos; [lia | apply fexp_emin].
Qed.

Lemma valid_binary_emin s m e :
  valid_binary prec emax (S754_finite s m e) = true -> (SpecFloat.emin prec emax <= e)%Z.
Proof.
  cbn [valid_binary]. unfold bounded, canonical_mantissa.
  intros H. apply andb_prop in H. destruct H as [H _].
  apply Z.eqb_eq in H. rewrite <- H. apply fexp_emin.
Qed.

Lemma SFadd_pos (x y : spec_float) :
  valid_binary prec emax x = true -> valid_binary prec emax y = true ->
  SFleb (S754_zero false) x = true -> SFltb (S754_zero false) y = true ->
  SFltb (S754_zero false) (SFadd prec emax x y) = true.
Proof.
  intros Vx Vy Hx Hy.
  destruct y as [sy|[]| |[] my ey]; try discriminate Hy;
    destruct x as [sx|[]| |[] mx ex]; try discriminate Hx;
    try reflexivity.
  apply valid_binary_emin in Vx, Vy.
  unfold SFadd. cbn [cond_Zopp]. cbn [Z.add binary_normalize].
  apply binary_round_pos. lia.
Qed.

Lemma f64_add_pos (a b : float) :
  (0 <=? a) = true -> (0 <? b) = true -> (0 <? a + b) = true.
Proof.
  rewrite FloatAxioms.leb_spec, !FloatAxioms.ltb_spec, FloatAxioms.add_spec. intros Ha Hb.
  change (Prim2SF 0) with (S754_zero false) in *.
  exact (SFadd_pos _ _ (FloatAxioms.Prim2SF_valid a) (FloatAxioms.Prim2SF_valid b) Ha Hb).
Qed.

(** ** Differences of floats *)

Lemma digits2_pos_upper (m : positive) :
  (Zpos m < 2 ^ Zpos (digits2_pos m))%Z.
Proof.
  induction m as [m IH|m IH|]; cbn [digits2_pos];
    rewrite ?Pos2Z.inj_succ, ?Z.pow_succ_r by lia; lia.
Qed.

Lemma pos_iter_xO (d m : positive) :
  Zpos (Pos.iter xO m d) = (Zpos m * 2 ^ Zpos d)%Z.
Proof.
  revert m. induction d as [d IH|d IH|]; intros m; cbn [Pos.iter].
  - rewrite Pos2Z.inj_xO, !IH.
    replace (Zpos d~1) with (Zpos d + Zpos d + 1)%Z by lia.
    rewrite !Z.pow_add_r by lia. lia.
  - rewrite !IH.
    replace (Zpos d~0) with (Zpos d + Zpos d)%Z by lia.
    rewrite !Z.pow_add_r by lia. lia.
  - lia.
Qed.

Lemma shl_align_value (m : positive) (e ez : Z) :
  (ez <= e)%Z ->
  Zpos (fst (shl_align m e ez)) = (Zpos m * 2 ^ (e - ez))%Z.
Proof.
  intros H. unfold shl_align.
  destruct (ez - e)%Z as [|d|d] eqn:Hd; cbn [fst]; try lia.
  - replace (e - ez)%Z with 0%Z by lia. lia.
  - rewrite pos_iter_xO. f_equal. f_equal. lia.
Qed.

Lemma bounded_digits (m : positive) (e : Z) :
  bounded prec emax m e = true ->
  (SpecFloat.emin prec emax <= e)%Z /\
  (Zpos (digits2_pos m) <= prec)%Z /\
  ((SpecFloat.emin prec emax < e)%Z -> Zpos (digits2_pos m) = prec).
Proof.
  unfold bounded, canonical_mantissa, fexp. intros H.
  apply andb_prop in H. destruct H as [H _]. apply Z.eqb_eq in H. lia.
Qed.

(** Of two valid mantissas the one with the larger exponent is larger,
    also after alignment. *)
Lemma bounded_exponent_order (m m' : positive) (e e' : Z) :
  bounded prec emax m e = true -> bounded prec emax m' e' = true ->
  (e < e')%Z -> (Zpos m < Zpos m' * 2 ^ (e' - e))%Z.
Proof.
  intros Hb Hb' He.
  destruct (bounded_digits _ _ Hb) as (Hmin & Hd & _).
  destruct (bounded_digits _ _ Hb') as (_ & _ & Hd').
  specialize (Hd' ltac:(lia)).
  pose proof (digits2_pos_upper m) as Hu.
  pose proof (digits2_pos_lower m') as Hl. rewrite Hd' in Hl.
  assert (H53 : (2 ^ Zpos (digits2_pos m) <= 2 ^ prec)%Z)
    by (apply Z.pow_le_mono_r; lia).
  assert (H2 : (2 ^ 1 <= 2 ^ (e' - e))%Z) by (apply Z.pow_le_mono_r; lia).
  assert (Hp : (2 ^ prec = 2 * 2 ^ (prec - 1))%Z) by reflexivity.
  change (2 ^ 1)%Z with 2%Z in H2. nia.
Qed.

Lemma SFsub_pos (x y : spec_float) :
  valid_binary prec emax x = true -> valid_binary prec emax y = true ->
  SFltb y x = true ->
  SFltb (S754_zero false) (SFsub prec emax x y) = true.
Proof.
  intros Vx Vy H. unfold SFltb in H.
  destruct x as [sx|sx| |sx mx ex], y as [sy|sy| |sy my ey];
    try discriminate H;
    try (destruct sx; try discriminate H; destruct sy; try discriminate H;
         reflexivity);
    try (destruct sx; try discriminate H; reflexivity);
    try (destruct sy; try discriminate H; reflexivity).
  cbn [valid_binary] in Vx, Vy.
  destruct (bounded_digits _ _ Vx) as (Hex & _ & _).
  destruct (bounded_digits _ _ Vy) as (Hey & _ & _).
  unfold SFsub. cbv zeta.
  rewrite (shl_align_value mx ex (Z.min ex ey)) by lia.
  rewrite (shl_align_value my ey (Z.min ex ey)) by lia.
  assert (Hpos : (0 < cond_Zopp sx (Zpos mx * 2 ^ (ex - Z.min ex ey))
                    - cond_Zopp sy (Zpos my * 2 ^ (ey - Z.min ex ey)))%Z).
  { cbn [SFcompare] in H.
    assert (Hpx : (0 < 2 ^ (ex - Z.min ex ey))%Z) by (apply Z.pow_pos_nonneg; lia).
    assert (Hpy : (0 < 2 ^ (ey - Z.min ex ey))%Z) by (apply Z.pow_pos_nonneg; lia).
    destruct sy, sx; cbn [cond_Zopp]; try discriminate H.
    - destruct (ey ?= ex)%Z eqn:Hc; try discriminate H.
      + apply Z.compare_eq in Hc. subst ey.
        rewrite Z.min_id, Z.sub_diag, !Z.mul_1_r.
        destruct (Pos.compare_cont Eq my mx) eqn:Hm; try discriminate H.
        change (Pos.compare_cont Eq my mx) with (my ?= mx)%positive in Hm.
        pose proof (proj1 (Pos.compare_gt_iff _ _) Hm) as Hlt. lia.
      + apply Z.compare_gt_iff in Hc.
        pose proof (bounded_exponent_order _ _ _ _ Vx Vy Hc) as Ho.
        replace (Z.min ex ey) with ex by lia.
        rewrite Z.sub_diag, Z.mul_1_r. lia.
    - nia.
    - destruct (ey ?= ex)%Z eqn:Hc; try discriminate H.
      + apply Z.compare_eq in Hc. subst ey.
        rewrite Z.min_id, Z.sub_diag, !Z.mul_1_r.
        change (Pos.compare_cont Eq my mx) with (my ?= mx)%positive in H.
        destruct (my ?= mx)%positive eqn:Hm; try discriminate H.
        assert (Hlt : (my < mx)%positive) by exact Hm. lia.
      + assert (Hlt : (ey < ex)%Z) by exact Hc.
        pose proof (bounded_exponent_order _ _ _ _ Vy Vx Hlt) as Ho.
        replace (Z.min ex ey) with ey by lia.
        rewrite Z.sub_diag, Z.mul_1_r. lia. }
  destruct (cond_Zopp sx (Zpos mx * 2 ^ (ex - Z.min ex ey))
            - cond_Zopp sy (Zpos my * 2 ^ (ey - Z.min ex ey)))%Z
    as [|d|d]; try lia.
  cbn [binary_normalize]. apply binary_round_pos. lia.
Qed.

(** The difference of two floats in strict order is above zero: it never
    rounds to zero. *)
Lemma f64_sub_pos (a b : float) : (a <? b) = true -> (0 <? b - a) = true.
Proof.
  rewrite !FloatAxioms.ltb_spec, FloatAxioms.sub_spec. intros H.
  exact (SFsub_pos _ _ (FloatAxioms.Prim2SF_valid b) (FloatAxioms.Prim2SF_valid a) H).
Qed.

Lemma f64_total_from_pos (ws : list float) :
  Forall (fun a => (0 <? a) = true) ws ->
  forall acc, (0 <=? acc) = true -> ws <> [] ->
    (0 <? total_from acc ws) = true.
Proof.
  induction 1 as [|w ws Hw _ IH]; intros acc Hacc Hne; [congruence|].
  cbn [total_from].
  pose proof (f64_add_pos acc w Hacc Hw) as Hstep.
  destruct ws as [|w' ws']; [exact Hstep|].
  apply IH; [apply f64_ltb_leb; exact Hstep | discriminate].
Qed.

Lemma f64_total_pos (ws : list float) :
  ws <> [] -> Forall (fun a => (0 <? a) = true) ws -> (0 <? total ws) = true.
Proof.
  intros Hne Hall. apply f64_total_from_pos; [exact Hall|reflexivity|exact Hne].
Qed.

Lemma f64_pos_not_zero (a : float) : (0 <? a) = true -> (a =? 0) = false.
Proof.
  rewrite FloatAxioms.ltb_spec, FloatAxioms.eqb_spec.
  unfold SFltb, SFeqb. intros H.
  destruct (SFcompare (Prim2SF 0) (Prim2SF a)) as [c|] eqn:Hc; [|discriminate].
  rewrite (SFcompare_antisym _ _ _ Hc). destruct c; try discriminate.
  reflexivity.
Qed.

(** ** Curve interpolation on floats *)

Lemma f64_ltb_not_leb a b : (a <? b) = true -> (b <=? a) = false.
Proof.
  rewrite FloatAxioms.ltb_spec, FloatAxioms.leb_spec. unfold SFltb, SFleb.
  destruct (SFcompare (Prim2SF a) (Prim2SF b)) as [c|] eqn:Hc; [|discriminate].
  rewrite (SFcompare_antisym _ _ _ Hc). destruct c; try discriminate; reflexivity.
Qed.

Lemma f64_ltb_self a b :
  (a <? b) = true -> (a <=? a) = true /\ (b <=? b) = true.
Proof. intros H. apply f64_leb_self, f64_ltb_leb, H. Qed.

Lemma f64_ltb_leb_trans a b c :
  (a <? b) = true -> (b <=? c) = true -> (a <? c) = true.
Proof.
  intros Hab Hbc. destruct (a <? c) eqn:Hac; [reflexivity|].
  destruct (f64_ltb_self _ _ Hab) as [Ha _].
  destruct (f64_leb_self _ _ Hbc) as [_ Hc].
  pose proof (f64_not_ltb_leb a c Ha Hc Hac) as Hca.
  pose proof (f64_leb_trans _ _ _ Hbc Hca) as Hba.
  rewrite (f64_ltb_not_leb _ _ Hab) in Hba. discriminate.
Qed.

Lemma f64_leb_ltb_trans a b c :
  (a <=? b) = true -> (b <? c) = true -> (a <? c) = true.
Proof.
  intros Hab Hbc. destruct (a <? c) eqn:Hac; [reflexivity|].
  destruct (f64_leb_self _ _ Hab) as [Ha _].
  destruct (f64_ltb_self _ _ Hbc) as [_ Hc].
  pose proof (f64_not_ltb_leb a c Ha Hc Hac) as Hca.
  pose proof (f64_leb_trans _ _ _ Hca Hab) as Hcb.
  rewrite (f64_ltb_not_leb _ _ Hbc) in Hcb. discriminate.
Qed.

Lemma f64_ltb_trans a b c :
  (a <? b) = true -> (b <? c) = true -> (a <? c) = true.
Proof.
  intros Hab Hbc. apply f64_ltb_leb_trans with b; [exact Hab|].
  apply f64_ltb_leb. exact Hbc.
Qed.

Lemma f64_eqb_leb a b :
  (a =? b) = true -> (a <=? b) = true /\ (b <=? a) = true.
Proof.
  rewrite FloatAxioms.eqb_spec, !FloatAxioms.leb_spec. unfold SFeqb, SFleb.
  destruct (SFcompare (Prim2SF a) (Prim2SF b)) as [c|] eqn:Hc; [|discriminate].
  rewrite (SFcompare_antisym _ _ _ Hc). destruct c; try discriminate.
  split; reflexivity.
Qed.

Lemma f64_ltb_neq a b : (a <? b) = true -> (b =? a) = false.
Proof.
  rewrite FloatAxioms.ltb_spec, FloatAxioms.eqb_spec. unfold SFltb, SFeqb.
  destruct (SFcompare (Prim2SF a) (Prim2SF b)) as [c|] eqn:Hc; [|discriminate].
  rewrite (SFcompare_antisym _ _ _ Hc). destruct c; try discriminate; reflexivity.
Qed.

Section Bisect64.
Variables (a : list float) (x : float).
(** [a] ascends, stated on indices, and the query is not NaN. *)
Hypothesis a_sorted :
  forall i j, (i <= j < length a)%nat -> (nth i a 0 <=? nth j a 0) = true.
Hypothesis x_number : (x <=? x) = true.

Lemma f64_bisect_loop_spec n : forall lo hi,
  (hi - lo <= n)%nat -> (lo <= hi <= length a)%nat ->
  (forall i, (i < lo)%nat -> (nth i a 0 <=? x) = true) ->
  (forall i, (hi <= i < length a)%nat -> (x <? nth i a 0) = true) ->
  let r := bisect_loop a x lo hi in
  (lo <= r <= hi)%nat /\
  (forall i, (i < r)%nat -> (nth i a 0 <=? x) = true) /\
  (forall i, (r <= i < length a)%nat -> (x <? nth i a 0) = true).
Proof.
  induction n as [|n IH]; intros lo hi Hn Hb Hlo Hhi; cbv zeta;
    rewrite bisect_loop_equation_1; destruct (lt_dec lo hi) as [Hlt|Hge];
    simp bisect_loop; try lia.
  - assert (lo = hi) by lia; subst hi. auto with lia.
  - cbv zeta.
    pose proof (Nat.div_mod_eq (lo + hi) 2) as Hd.
    pose proof (Nat.mod_upper_bound (lo + hi) 2 ltac:(lia)) as Hm.
    set (mid := ((lo + hi) / 2)%nat) in *.
    destruct (x <? nth mid a 0) eqn:Hc.
    + destruct (IH lo mid) as (H1 & H2 & H3); try lia; auto.
      { intros i Hi. apply f64_ltb_leb_trans with (nth mid a 0);
          [exact Hc | apply a_sorted; lia]. }
      split; [lia | auto].
    + assert (Hmid : (nth mid a 0 <=? x) = true).
      { apply f64_not_ltb_leb; [exact x_number| |exact Hc].
        apply a_sorted. lia. }
      destruct (IH (mid + 1)%nat hi) as (H1 & H2 & H3); try lia; auto.
      { intros i Hi. apply f64_leb_trans with (nth mid a 0);
          [apply a_sorted; lia | exact Hmid]. }
      split; [lia | auto].
  - assert (lo = hi) by lia; subst hi. auto with lia.
Qed.

Lemma f64_bisect_right_spec :
  let r := bisect_right a x in
  (r <= length a)%nat /\
  (forall i, (i < r)%nat -> (nth i a 0 <=? x) = true) /\
  (forall i, (r <= i < length a)%nat -> (x <? nth i a 0) = true).
Proof.
  destruct (f64_bisect_loop_spec (length a) 0 (length a)) as (H1 & H2 & H3);
    try lia.
  unfold bisect_right. split; [lia | auto].
Qed.
End Bisect64.

Lemma f64_getitem_nat {A} (l : list A) (i : nat) (v : A) :
  l !! i = Some v -> Py.getitem l (Z.of_nat i) = Return v.
Proof.
  intros Hi. unfold Py.getitem. cbv zeta.
  assert (Hpos : (Z.of_nat i <? 0)%Z = false) by (apply Z.ltb_ge; lia).
  rewrite Hpos. cbv iota. rewrite Hpos, Nat2Z.id, Hi. reflexivity.
Qed.

Lemma f64_getitem_last {A} (l : list A) (v : A) :
  last l = Some v -> Py.getitem l (-1) = Return v.
Proof.
  intros Hl. unfold Py.getitem.
  assert (Hlen : (0 < length l)%nat).
  { destruct l; [discriminate | simpl; lia]. }
  rewrite last_lookup in Hl.
  cbv zeta. change (-1 <? 0)%Z with true. cbv iota.
  assert (Hpos : (-1 + Z.of_nat (length l) <? 0)%Z = false) by (apply Z.ltb_ge; lia).
  rewrite Hpos.
  replace (Z.to_nat (-1 + Z.of_nat (length l))) with (Nat.pred (length l)) by lia.
  rewrite Hl. reflexivity.
Qed.

Lemma f64_nth_map_fst (points : list (float * float)) i p :
  points !! i = Some p -> nth i (map fst points) 0 = fst p.
Proof.
  revert i; induction points as [|q l IH]; intros [|i] Hi; try discriminate.
  - injection Hi as <-. reflexivity.
  - simpl. apply IH. exact Hi.
Qed.

Lemma f64_x_values_sorted (points : list (float * float)) :
  (2 <= length points)%nat -> x_ascending points ->
  forall i j, (i <= j < length (map fst points))%nat ->
    (nth i (map fst points) 0 <=? nth j (map fst points) 0) = true.
Proof.
  intros Hlen Hs i j Hij. rewrite length_map in Hij.
  destruct (lookup_lt_is_Some_2 points i ltac:(lia)) as [p Hp].
  destruct (lookup_lt_is_Some_2 points j ltac:(lia)) as [p' Hp'].
  rewrite (f64_nth_map_fst _ _ _ Hp), (f64_nth_map_fst _ _ _ Hp').
  destruct (decide (i = j)) as [->|Hne].
  - rewrite Hp in Hp'. injection Hp' as <-.
    destruct j as [|j].
    + destruct (lookup_lt_is_Some_2 points 1 ltac:(lia)) as [q Hq].
      apply (f64_ltb_self _ _ (Hs 0%nat 1%nat p q ltac:(lia) Hp Hq)).
    + destruct (lookup_lt_is_Some_2 points 0 ltac:(lia)) as [q Hq].
      apply (f64_ltb_self _ _ (Hs 0%nat (S j) q p ltac:(lia) Hq Hp)).
  - apply f64_ltb_leb. apply (Hs i j); [lia | exact Hp | exact Hp'].
Qed.

(** Between the first and the last knot the code interpolates in the
    bracketing pair, and the division does not raise: the difference of
    the two x values is above zero. *)
Lemma f64_interpolate_bracket points x i pf p0 p1 :
  x_ascending points ->
  head points = Some pf -> (fst pf <? x) = true ->
  points !! i = Some p0 -> points !! S i = Some p1 ->
  (fst p0 <=? x) = true -> (x <? fst p1) = true ->
  interpolate_curve points x
  = Return (snd p0 + ((x - fst p0) / (fst p1 - fst p0)) * (snd p1 - snd p0)).
Proof.
  intros Hs Hf Hfx H0 H1 Hx0 Hx1.
  pose proof (lookup_lt_Some _ _ _ H0) as Hi0.
  pose proof (lookup_lt_Some _ _ _ H1) as Hi1.
  destruct points as [|pf' rest] eqn:Hpts; [discriminate|].
  injection Hf as ->. rewrite <- Hpts in *.
  assert (Hunf : interpolate_curve points x =
    if x <=? fst pf then Return (snd pf)
    else
      try plast <- Py.getitem points (-1);
      if fst plast <=? x then Return (snd plast)
      else
        let x_values := map fst points in
        let idx := Z.of_nat (bisect_right x_values x) in
        try p_lo <- Py.getitem points (idx - 1);
        try p_hi <- Py.getitem points idx;
        let '(x0, y0) := p_lo in
        let '(x1, y1) := p_hi in
        if x1 =? x0 then Return y0
        else
          try t <- Py.truediv (x - x0) (x1 - x0);
          Return (y0 + t * (y1 - y0))) by (rewrite Hpts; reflexivity).
  rewrite Hunf. clear Hunf.
  rewrite (f64_ltb_not_leb _ _ Hfx).
  destruct (last points) as [pl|] eqn:Hl;
    [|apply last_None in Hl; congruence].
  rewrite (f64_getitem_last _ _ Hl). cbn [obind].
  assert (Hlx : (x <? fst pl) = true).
  { rewrite last_lookup in Hl.
    destruct (decide (S i = Nat.pred (length points))) as [He|Hne].
    - rewrite <- He, H1 in Hl. injection Hl as <-. exact Hx1.
    - apply f64_ltb_trans with (fst p1); [exact Hx1|].
      apply (Hs (S i) (Nat.pred (length points))); [lia | exact H1 | exact Hl]. }
  rewrite (f64_ltb_not_leb _ _ Hlx). cbv zeta.
  assert (Hlen2 : (2 <= length points)%nat) by lia.
  destruct (f64_bisect_right_spec (map fst points) x
              (f64_x_values_sorted points Hlen2 Hs)
              (proj2 (f64_ltb_self _ _ Hfx)))
    as (Hr & Hlow & Hhigh).
  set (r := bisect_right (map fst points) x) in *.
  rewrite length_map in Hr, Hhigh.
  assert (Hri : r = S i).
  { destruct (Nat.lt_trichotomy r (S i)) as [Hlt|[Heq|Hgt]]; [|exact Heq|].
    - specialize (Hhigh i ltac:(lia)).
      rewrite (f64_nth_map_fst _ _ _ H0) in Hhigh.
      rewrite (f64_ltb_not_leb _ _ Hhigh) in Hx0. discriminate.
    - specialize (Hlow (S i) ltac:(lia)).
      rewrite (f64_nth_map_fst _ _ _ H1) in Hlow.
      rewrite (f64_ltb_not_leb _ _ Hx1) in Hlow. discriminate. }
  rewrite Hri.
  replace (Z.of_nat (S i) - 1)%Z with (Z.of_nat i) by lia.
  rewrite (f64_getitem_nat _ _ _ H0), (f64_getitem_nat _ _ _ H1). cbn [obind].
  destruct p0 as [x0 y0], p1 as [x1 y1]. cbn [fst snd] in *.
  assert (Hlt : (x0 <? x1) = true)
    by (apply (Hs i (S i) (x0, y0) (x1, y1)); [lia | exact H0 | exact H1]).
  rewrite (f64_ltb_neq _ _ Hlt).
  unfold Py.truediv. rewrite (f64_pos_not_zero _ (f64_sub_pos _ _ Hlt)).
  reflexivity.
Qed.

(** *** The value at a knot *)

Lemma SFeqb_refl x : x <> S754_nan -> SFeqb x x = true.
Proof.
  unfold SFeqb. destruct x as [[]|[]| |[] m e]; simpl; try congruence;
    intros _; rewrite Z.compare_refl;
    change (Pos.compare_cont Eq m m) with (Pos.compare m m);
    rewrite Pos.compare_refl; reflexivity.
Qed.

(** Two floats that compare equal are the same float or two zeros. *)
Lemma SFeqb_same x y :
  SFeqb x y = true -> x = y \/ exists s s', x = S754_zero s /\ y = S754_zero s'.
Proof.
  unfold SFeqb.
  destruct x as [sx|sx| |sx mx ex], y as [sy|sy| |sy my ey]; simpl;
    try discriminate;
    try (destruct sx; discriminate); try (destruct sy; discriminate).
  - intros _. right. eauto.
  - destruct sx, sy; try discriminate; intros _; left; reflexivity.
  - intros H. left.
    assert (Heq : sx = sy /\ ex = ey /\ mx = my).
    { destruct sx, sy; try discriminate H;
        destruct (ex ?= ey)%Z eqn:He; try discriminate H;
        apply Z.compare_eq in He;
        change (Pos.compare_cont Eq mx my) with (Pos.compare mx my) in H;
        destruct (mx ?= my)%positive eqn:Hm; try discriminate H;
        apply Pos.compare_eq in Hm; auto. }
    destruct Heq as (-> & -> & ->). reflexivity.
Qed.

Lemma SFsub_same x x0 :
  SFeqb x x0 = true -> SFnumber x0 ->
  exists s, SFsub prec emax x x0 = S754_zero s.
Proof.
  intros He Hn. destruct (SFeqb_same _ _ He) as [->|(s & s' & -> & ->)].
  - destruct x0 as [s|s| |s m e]; try destruct Hn.
    + destruct s; eexists; reflexivity.
    + unfold SFsub. cbv zeta. rewrite Z.sub_diag. eexists; reflexivity.
  - destruct s, s'; eexists; reflexivity.
Qed.

Lemma SF_knot_value (x x0 x1 y0 y1 : spec_float) :
  SFeqb x x0 = true -> SFnumber x0 ->
  SFltb (S754_zero false) (SFsub prec emax x1 x0) = true ->
  SFnumber (SFsub prec emax y1 y0) ->
  SFeqb (SFadd prec emax y0
           (SFmul prec emax
              (SFdiv prec emax (SFsub prec emax x x0) (SFsub prec emax x1 x0))
              (SFsub prec emax y1 y0)))
        y0 = true.
Proof.
  intros He Hn Hd Hw.
  destruct (SFsub_same _ _ He Hn) as [s ->].
  assert (Ht : exists s', SFdiv prec emax (S754_zero s) (SFsub prec emax x1 x0)
                          = S754_zero s').
  { destruct (SFsub prec emax x1 x0) as [sd|sd| |sd md ed];
      try discriminate Hd; eexists; reflexivity. }
  destruct Ht as [s' ->].
  assert (Hy : SFnumber y0).
  { destruct y0 as [s0|s0| |s0 m0 e0], y1 as [s1|s1| |s1 m1 e1];
      try exact I; try (destruct Hw; fail);
      try (destruct s0, s1; destruct Hw). }
  assert (Hp : exists s'', SFmul prec emax (S754_zero s') (SFsub prec emax y1 y0)
                           = S754_zero s'').
  { destruct (SFsub prec emax y1 y0) as [sw|sw| |sw mw ew];
      try destruct Hw; eexists; reflexivity. }
  destruct Hp as [s'' ->].
  destruct y0 as [s0|s0| |s0 m0 e0]; try destruct Hy.
  - destruct s0, s''; reflexivity.
  - cbn [SFadd]. apply SFeqb_refl. discriminate.
Qed.

Lemma f64_is_finite_number (w : float) :
  is_finite w = true -> SFnumber (Prim2SF w).
Proof.
  unfold is_finite, is_nan, is_infinity.
  rewrite negb_true_iff, orb_false_iff, negb_false_iff.
  rewrite !FloatAxioms.eqb_spec, FloatAxioms.abs_spec.
  change (Prim2SF infinity) with (S754_infinity false).
  intros [Hn Hi].
  destruct (Prim2SF w) as [s|s| |s m e]; try exact I; discriminate.
Qed.

Lemma f64_between_number (a b c : float) :
  (a <? b) = true -> (b <? c) = true -> SFnumber (Prim2SF b).
Proof.
  rewrite !FloatAxioms.ltb_spec. unfold SFltb. intros Hab Hbc.
  destruct (Prim2SF b) as [s|s| |s m e]; try exact I.
  - destruct (Prim2SF a) as [sa|sa| |sa ma ea], (Prim2SF c) as [sc|sc| |sc mc ec];
      destruct s; try discriminate Hab; try discriminate Hbc;
      try (destruct sa; discriminate Hab); try (destruct sc; discriminate Hbc).
  - destruct (Prim2SF a); discriminate Hab.
Qed.

(** At a knot the interpolation formula of the code gives a value equal
    to the knot's y, as long as the difference of the two y values is
    finite. *)
Lemma f64_knot_value (x xm x0 x1 y0 y1 : float) :
  (x =? x0) = true -> (xm <? x0) = true -> (x0 <? x1) = true ->
  is_finite (y1 - y0) = true ->
  (y0 + ((x - x0) / (x1 - x0)) * (y1 - y0) =? y0) = true.
Proof.
  intros He Hm Hlt Hw.
  pose proof (f64_between_number _ _ _ Hm Hlt) as Hn.
  pose proof (f64_sub_pos _ _ Hlt) as Hd.
  apply f64_is_finite_number in Hw.
  rewrite FloatAxioms.eqb_spec in He |- *.
  rewrite FloatAxioms.ltb_spec in Hd.
  rewrite FloatAxioms.add_spec, FloatAxioms.mul_spec, FloatAxioms.div_spec.
  rewrite !FloatAxioms.sub_spec in *.
  exact (SF_knot_value _ _ _ _ _ He Hn Hd Hw).
Qed.

Lemma f64_x_ascending_checked (points : list (float * float)) :
  x_strictly_increasing points = true ->
  Forall (fun p => (fst p =? fst p) = true) points ->
  x_ascending points.
Proof.
  unfold x_ascending.
  induction points as [|a [|b rest] IH]; intros Hs Hn i j p p' Hij Hi Hj.
  - discriminate.
  - destruct i, j; try discriminate; lia.
  - cbn [x_strictly_increasing] in Hs.
    destruct (fst b <=? fst a) eqn:Hab; [discriminate|].
    apply Forall_cons in Hn. destruct Hn as [Ha Hn].
    pose proof Hn as Hn'. apply Forall_cons in Hn'. destruct Hn' as [Hb _].
    assert (Hlt : (fst a <? fst b) = true).
    { destruct (fst a <? fst b) eqn:Hc; [reflexivity|].
      rewrite (f64_not_ltb_leb (fst a) (fst b)) in Hab;
        [discriminate | apply (f64_eqb_leb _ _ Ha)
         | apply (f64_eqb_leb _ _ Hb) | exact Hc]. }
    assert (Hhead : forall k q, (b :: rest) !! k = Some q ->
                                (fst a <? fst q) = true).
    { intros [|k] q Hk.
      - injection Hk as <-. exact Hlt.
      - apply f64_ltb_trans with (fst b); [exact Hlt|].
        apply (IH Hs Hn 0%nat (S k) b q); [lia | reflexivity | exact Hk]. }
    destruct i as [|i], j as [|j]; try lia.
    + injection Hi as <-. apply (Hhead j). exact Hj.
    + apply (IH Hs Hn i j); [lia | exact Hi | exact Hj].
Qed.

(** C6.  On the binary64 model, for a point list whose x values ascend
    strictly: [interpolate_curve] answers the first point's y at or below
    the first x and the last point's y at or above the last x; strictly
    between two adjacent knots it answers the interpolation formula of
    the bracketing pair, each operation rounded, and the division never
    raises; at an interior knot it answers the formula of the segment to
    the right of the knot, whose value equals the knot's own y when the
    difference of the two y values is finite. *)
Theorem interpolate_curve_contract (points : list (float * float)) (x : float) :
  points <> [] ->
  F64.x_ascending points ->
  (forall p, head points = Some p -> (x <=? fst p) = true ->
     F64.interpolate_curve points x = F64.Return (snd p)) /\
  (forall p, last points = Some p -> (fst p <=? x) = true ->
     F64.interpolate_curve points x = F64.Return (snd p)) /\
  (forall i p p', (0 < i)%nat ->
     points !! i = Some p -> points !! S i = Some p' -> (x =? fst p) = true ->
     exists y, F64.interpolate_curve points x = F64.Return y /\
       (is_finite (snd p' - snd p) = true -> (y =? snd p) = true)) /\
  (forall i p0 p1, points !! i = Some p0 -> points !! S i = Some p1 ->
     (fst p0 <? x) = true -> (x <? fst p1) = true ->
     F64.interpolate_curve points x =
     F64.Return
       (snd p0 + ((x - fst p0) / (fst p1 - fst p0)) * (snd p1 - snd p0))).
Proof.
  intros Hne Hs.
  destruct points as [|pf rest] eqn:Hpts; [congruence|]. rewrite <- Hpts in *.
  assert (Hhd : head points = Some pf) by (rewrite Hpts; reflexivity).
  assert (Hfirst : forall i p, (0 < i)%nat -> points !! i = Some p ->
                               (fst pf <? fst p) = true).
  { intros i p Hi Hp. apply (Hs 0%nat i); [lia | | exact Hp].
    rewrite Hpts. reflexivity. }
  split; [|split; [|split]].
  - intros p Hp Hx. rewrite Hhd in Hp. injection Hp as <-.
    rewrite Hpts. unfold interpolate_curve. rewrite Hx. reflexivity.
  - intros p Hp Hx. pose proof Hp as Hlast.
    rewrite last_lookup in Hp.
    rewrite Hpts in Hlast |- *. unfold interpolate_curve.
    destruct (x <=? fst pf) eqn:Hc.
    + destruct (decide (Nat.pred (length points) = 0%nat)) as [Hz|Hnz].
      * rewrite Hz, Hpts in Hp. injection Hp as <-. reflexivity.
      * assert (Hpos : (0 < Nat.pred (length points))%nat) by lia.
        pose proof (f64_ltb_leb_trans _ _ _ (Hfirst _ _ Hpos Hp) Hx) as Hlt.
        rewrite (f64_ltb_not_leb _ _ Hlt) in Hc. discriminate.
    + rewrite (f64_getitem_last _ _ Hlast). cbn [obind].
      rewrite Hx. reflexivity.
  - intros i p p' Hi Hp Hp' Hx.
    destruct (f64_eqb_leb _ _ Hx) as [Hxp Hpx].
    pose proof (Hfirst i p Hi Hp) as Hfp.
    pose proof (Hs i (S i) p p' ltac:(lia) Hp Hp') as Hpp.
    eexists. split.
    + apply (f64_interpolate_bracket points x i pf p p' Hs Hhd); auto.
      * apply f64_ltb_leb_trans with (fst p); assumption.
      * apply f64_leb_ltb_trans with (fst p); assumption.
    + intros Hw. apply (f64_knot_value x (fst pf)); assumption.
  - intros i p0 p1 H0 H1 Hx0 Hx1.
    apply (f64_interpolate_bracket points x i pf p0 p1 Hs Hhd); auto.
    + destruct i as [|i].
      * rewrite Hpts in H0. injection H0 as <-. exact Hx0.
      * apply f64_ltb_trans with (fst p0); [|exact Hx0].
        apply (Hfirst (S i)); [lia | exact H0].
    + apply f64_ltb_leb. exact Hx0.
Qed.

Lemma f64_alligator_low_ascending : x_ascending alligator_low_points.
Proof.
  apply f64_x_ascending_checked; [reflexivity|].
  repeat constructor.
Qed.

Lemma interpolate_curve_contract_witness :
  F64.alligator_low_points <> [] /\
  F64.x_ascending F64.alligator_low_points /\
  F64.interpolate_curve F64.alligator_low_points 3 =
  F64.Return (6 + ((3 - 1) / (5 - 1)) * (18 - 6)).
Proof.
  split; [discriminate|]. split; [exact f64_alligator_low_ascending|].
  exact (proj2 (proj2 (proj2
    (interpolate_curve_contract F64.alligator_low_points 3
       ltac:(discriminate) f64_alligator_low_ascending)))
    1%nat (1, 6) (5, 18) eq_refl eq_refl eq_refl eq_refl).
Defined.

(** C6 as stated, for every x-ascending sequence, fails when two points
    share an x.  On [(0, 1); (0, 2)] the x values ascend, the query 0 is
    at or above the last x, and the code answers 1, the first point's y,
    not the last point's y 2: the test against the first x comes
    first. *)
Lemma interpolate_curve_tie_keeps_first :
  let points := [(0, 1); (0, 2)] in
  points <> [] /\
  StronglySorted (fun p p' => (fst p <=? fst p') = true) points /\
  F64.x_strictly_increasing points = false /\
  last points = Some (0, 2) /\
  (fst (0, 2) <=? 0) = true /\
  F64.interpolate_curve points 0 = F64.Return 1 /\
  (1 =? 2) = false.
Proof.
  cbv zeta.
  split; [discriminate|].
  split; [repeat constructor|].
  split; [reflexivity|]. split; [reflexivity|].
  split; [reflexivity|]. split; reflexivity.
Qed.

(** At an interior knot the value is the knot's y only while the
    difference of the two y values is finite: on
    [(0, 0); (1, -1e308); (2, 1e308)], whose x values ascend strictly,
    the difference overflows, [0 * inf] is NaN, and the code answers NaN
    at the knot 1. *)
Lemma interpolate_curve_knot_overflow :
  let points := [(0, 0); (1, -1e308); (2, 1e308)] in
  F64.x_strictly_increasing points = true /\
  is_finite (1e308 - -1e308) = false /\
  F64.interpolate_curve points 1 = F64.Return nan /\
  (nan =? -1e308) = false.
Proof.
  cbv zeta. split; [reflexivity|]. split; [reflexivity|].
  split; [vm_compute; reflexivity|]. reflexivity.
Qed.

(** ** Section aggregation *)

Lemma f64_accumulate_run fuel calculator units results :
  Forall2 (fun su r => unit_pci fuel calculator su = Return r) units results ->
  forall weighted_sum,
    PavementSection.accumulate fuel calculator units weighted_sum
    = Return (total_from weighted_sum
                ((fun s => fst s * snd s) <$> paired units results)).
Proof.
  induction 1 as [|su r units results Hr _ IH]; intros ws.
  - reflexivity.
  - cbn [PavementSection.accumulate]. unfold unit_pci in Hr. rewrite Hr.
    cbn [obind]. rewrite IH. reflexivity.
Qed.

Lemma f64_areas_paired units results :
  length units = length results ->
  snd <$> paired units results = SampleUnit.area <$> units.
Proof.
  intros Hlen. unfold paired. apply snd_zip.
  rewrite !length_fmap. lia.
Qed.

Lemma f64_section_mean fuel (section : PavementSection.t) calculator results :
  let units := PavementSection.sample_units section in
  units <> [] ->
  (total (SampleUnit.area <$> units) =? 0) = false ->
  Forall2 (fun su r => unit_pci fuel calculator su = Return r) units results ->
  PavementSection.calculate_section_pci fuel section calculator
  = Return (weighted_mean (paired units results)).
Proof.
  cbv zeta. set (units := PavementSection.sample_units section).
  intros Hne Hnz Hall.
  unfold PavementSection.calculate_section_pci. fold units.
  destruct units as [|su0 rest] eqn:Hu; [congruence|]. rewrite <- Hu in *.
  rewrite f64_sum_total, Hnz.
  rewrite (f64_accumulate_run fuel calculator units results Hall 0).
  cbn [obind]. unfold Py.truediv. rewrite Hnz.
  unfold weighted_mean.
  rewrite (f64_areas_paired units results (Forall2_length _ _ _ Hall)).
  reflexivity.
Qed.

(** C8.  On the binary64 model: an empty section and a section whose
    total area is zero return 100; the total of areas that are all above
    zero is above zero; and for a section whose units all have an area
    above zero and whose per-sample calls all return, the section index
    is the total of the products [pci * area] divided by the total of
    the areas, both totals taken from the first unit to the last with
    every operation rounded.  For two units of the same area [a] this is
    [(p1 * a + p2 * a) / (a + a)]. *)
Theorem section_pci_weighted_mean (fuel : nat) (section : F64.PavementSection.t)
    (calculator : F64.PCICalculator) :
  let units := F64.PavementSection.sample_units section in
  let areas := F64.SampleUnit.area <$> units in
  (units = [] ->
     F64.PavementSection.calculate_section_pci fuel section calculator
     = F64.Return 100) /\
  ((F64.total areas =? 0) = true ->
     F64.PavementSection.calculate_section_pci fuel section calculator
     = F64.Return 100) /\
  (units <> [] -> Forall (fun a => (0 <? a) = true) areas ->
     (0 <? F64.total areas) = true) /\
  (forall results,
     units <> [] ->
     Forall (fun a => (0 <? a) = true) areas ->
     Forall2 (fun su r => F64.unit_pci fuel calculator su = F64.Return r)
       units results ->
     F64.PavementSection.calculate_section_pci fuel section calculator
     = F64.Return (F64.weighted_mean (F64.paired units results))) /\
  (forall su1 su2 r1 r2 a,
     units = [su1; su2] ->
     F64.SampleUnit.area su1 = a -> F64.SampleUnit.area su2 = a ->
     (0 <? a) = true ->
     F64.unit_pci fuel calculator su1 = F64.Return r1 ->
     F64.unit_pci fuel calculator su2 = F64.Return r2 ->
     F64.PavementSection.calculate_section_pci fuel section calculator
     = F64.Return ((0 + F64.pci r1 * a + F64.pci r2 * a) / (0 + a + a))).
Proof.
  cbv zeta. set (units := PavementSection.sample_units section).
  assert (Hareas : units <> [] -> SampleUnit.area <$> units <> [])
    by (destruct units; [congruence | discriminate]).
  assert (Hmean : forall results,
     units <> [] ->
     Forall (fun a => (0 <? a) = true) (SampleUnit.area <$> units) ->
     Forall2 (fun su r => unit_pci fuel calculator su = Return r)
       units results ->
     PavementSection.calculate_section_pci fuel section calculator
     = Return (weighted_mean (paired units results))).
  { intros results Hne Hpos Hall.
    apply (f64_section_mean fuel section calculator results Hne); [|exact Hall].
    apply f64_pos_not_zero, f64_total_pos; [apply Hareas; exact Hne|exact Hpos]. }
  split; [|split; [|split; [|split]]].
  - intros Hempty. unfold PavementSection.calculate_section_pci. fold units.
    rewrite Hempty. reflexivity.
  - intros Hzero. unfold PavementSection.calculate_section_pci. fold units.
    destruct units; [reflexivity|].
    rewrite f64_sum_total, Hzero. reflexivity.
  - intros Hne Hpos. apply f64_total_pos; [apply Hareas; exact Hne|exact Hpos].
  - exact Hmean.
  - intros su1 su2 r1 r2 a Hu Ha1 Ha2 Hpos Hr1 Hr2.
    rewrite (Hmean [r1; r2]).
    + rewrite Hu. unfold weighted_mean, paired, total.
      cbn [fmap list_fmap zip zip_with total_from fst snd].
      rewrite Ha1, Ha2. reflexivity.
    + rewrite Hu. discriminate.
    + rewrite Hu. cbn [fmap list_fmap]. rewrite Ha1, Ha2.
      repeat constructor; exact Hpos.
    + rewrite Hu. repeat constructor; assumption.
Qed.

Lemma f64_su_slight_returns :
  F64.unit_pci 1 F64.example_calculator F64.su_slight
  = Return (Build_PCIResult 99.96 GOOD [0.04] 0.04 [0.04]).
Proof. vm_compute. reflexivity. Qed.

Lemma section_pci_weighted_mean_witness :
  F64.PavementSection.calculate_section_pci 1 F64.equal_area_section
    F64.example_calculator
  = F64.Return ((0 + 99.96 * 2500 + 100 * 2500) / (0 + 2500 + 2500)).
Proof.
  exact (proj2 (proj2 (proj2 (proj2
    (section_pci_weighted_mean 1 F64.equal_area_section F64.example_calculator))))
    F64.su_slight F64.su_clean
    (Build_PCIResult 99.96 GOOD [0.04] 0.04 [0.04]) F64.perfect_pavement 2500
    eq_refl eq_refl eq_refl eq_refl f64_su_slight_returns eq_refl).
Defined.

(** C8 as stated, with the simple mean for two samples of equal area,
    fails: for a slightly weathered unit (pci 99.96) and a clean one
    (pci 100) of 2500 sq ft each the code answers 99.98, while
    [(p1 + p2) / 2] is 99.97999999999999. *)
Lemma equal_areas_not_simple_mean :
  F64.PCICalculator_init = F64.Return F64.example_calculator /\
  exists r1 r2 v,
    F64.unit_pci 1 F64.example_calculator F64.su_slight = F64.Return r1 /\
    F64.unit_pci 1 F64.example_calculator F64.su_clean = F64.Return r2 /\
    F64.SampleUnit.area F64.su_slight = F64.SampleUnit.area F64.su_clean /\
    F64.PavementSection.calculate_section_pci 1 F64.equal_area_section
      F64.example_calculator = F64.Return v /\
    v = 99.98 /\
    (F64.pci r1 + F64.pci r2) / 2 = 99.97999999999999 /\
    (v =? (F64.pci r1 + F64.pci r2) / 2) = false.
Proof.
  split; [exact f64_init_example|].
  exists (Build_PCIResult 99.96 GOOD [0.04] 0.04 [0.04]), F64.perfect_pavement,
    99.98.
  split; [exact f64_su_slight_returns|].
  split; [reflexivity|]. split; [reflexivity|].
  split; [vm_compute; reflexivity|].
  split; [reflexivity|]. split; reflexivity.
Qed.

(** ** Further properties of the binary64 model *)

Lemma f64_count_gt2_le_length (l : list float) : (count_gt2 l <= length l)%nat.
Proof.
  induction l as [|x l IH]; simpl; [lia|].
  destruct (2 <? x); lia.
Qed.

Lemma f64_rounds_length (self : PCICalculator) ws hist final :
  rounds self ws hist final -> length hist = Nat.max 1 (count_gt2 ws).
Proof.
  induction 1 as [ws cdv Hq _ | ws ws' cdv hist final Hq _ Hflat _ IH].
  - apply f64_q_of_le_1 in Hq. simpl. lia.
  - simpl. rewrite IH. pose proof (f64_flattened_count _ _ Hflat).
    assert (~ (count_gt2 ws <= 1)%nat) by (rewrite <- f64_q_of_le_1; lia).
    lia.
Qed.

Lemma f64_positive_only_elem (dvs : list float) d :
  d ∈ positive_only dvs -> d ∈ dvs /\ (0 <? d) = true.
Proof.
  unfold positive_only. induction dvs as [|x dvs IH]; simpl.
  - intros H. apply elem_of_nil in H. destruct H.
  - destruct (0 <? x) eqn:Hx.
    + intros H. apply elem_of_cons in H. destruct H as [->|H].
      * split; [apply elem_of_cons; left; reflexivity | exact Hx].
      * destruct (IH H). split; [apply elem_of_cons; right|]; assumption.
    + intros H. destruct (IH H). split; [apply elem_of_cons; right|]; assumption.
Qed.

(** X14.  Every result returned on the binary64 model is well formed:
    its deduct values are above zero, at most 100 and in descending
    order; its recorded CDVs lie in [0, 100], are no more than the deduct
    values and are missing exactly when there is no deduct value;
    [max_cdv] lies in [0, 100]; [pci] is the clamp of [100 - max_cdv] and
    lies in [0, 100]; and the rating is the rating of [pci], also on the
    two short-circuit returns. *)
Theorem result_well_formed (fuel : nat) (self : F64.PCICalculator)
    (observations : list F64.DistressObservation.t) (sample_area : float)
    (r : F64.PCIResult) :
  F64.calculate_sample_pci fuel self observations sample_area = F64.Return r ->
  Forall (fun d => (0 <? d) = true /\ (d <=? 100) = true) (F64.deduct_values r) /\
  F64.descending (F64.deduct_values r) /\
  Forall (fun c => (0 <=? c) = true /\ (c <=? 100) = true)
    (F64.iteration_cdvs r) /\
  (length (F64.iteration_cdvs r) <= length (F64.deduct_values r))%nat /\
  (F64.deduct_values r = [] <-> F64.iteration_cdvs r = []) /\
  (0 <=? F64.max_cdv r) = true /\ (F64.max_cdv r <=? 100) = true /\
  F64.pci r = F64.Py.clamp100 (100 - F64.max_cdv r) /\
  (0 <=? F64.pci r) = true /\ (F64.pci r <=? 100) = true /\
  F64.rating r = F64.get_pci_rating (F64.pci r).
Proof.
  intros Hr.
  destruct (f64_returned_result _ _ _ _ _ Hr) as (_ & all & Hall & Hres).
  destruct (positive_only all) as [|p0 prest] eqn:Hpos.
  { subst r. cbn [deduct_values iteration_cdvs max_cdv pci rating perfect_pavement].
    repeat split; try reflexivity; constructor. }
  rewrite <- Hpos in *.
  destruct Hres as (hdv & rest & m & mx & Hsort & Hm & Hdv & Hit & Hmax & Hmx
                    & Hpci & Hrating).
  destruct (f64_max_deduct_values_floor _ _ Hm) as [_ Hm1].
  rewrite f64_slice_to_take in Hdv by lia.
  destruct (f64_iterate_cdvs_rounds self fuel _ _ Hit) as (final & Hrounds & _).
  pose proof (f64_rounds_range _ _ _ _ Hrounds) as Hcdvs.
  pose proof (f64_rounds_length _ _ _ _ Hrounds) as Hlen.
  pose proof (f64_count_gt2_le_length (deduct_values r)) as Hcount.
  assert (Hdvne : deduct_values r <> []).
  { rewrite Hdv, Hsort. destruct (Z.to_nat m) eqn:Hz; [lia | discriminate]. }
  assert (Hdvlen : (0 < length (deduct_values r))%nat).
  { destruct (deduct_values r); [congruence | simpl; lia]. }
  assert (Hcdvne : iteration_cdvs r <> []).
  { intros Heq. rewrite Heq in Hmax. discriminate. }
  destruct (f64_max_list_range _ _ Hcdvs Hmax) as [Hmx0 Hmx1].
  split.
  { rewrite Hdv. rewrite Forall_forall. intros d Hd.
    apply elem_of_take in Hd. destruct Hd as (i & Hd & _).
    apply list_elem_of_lookup_2 in Hd.
    rewrite (f64_sort_reverse_perm (positive_only all)) in Hd.
    destruct (f64_positive_only_elem _ _ Hd) as [Hin Hd0].
    pose proof (f64_computed_deduct_values_range _ _ _ _ Hall) as Hrange.
    rewrite Forall_forall in Hrange. split; [exact Hd0 | apply Hrange, Hin]. }
  split.
  { rewrite Hdv. apply f64_descending_take, f64_sort_reverse_sorted,
      f64_positive_not_nan. }
  split; [exact Hcdvs|]. split; [lia|].
  split; [split; intros H; congruence|].
  rewrite Hmx. split; [exact Hmx0|]. split; [exact Hmx1|].
  split; [exact Hpci|]. rewrite Hpci.
  split; [apply f64_clamp100_range|]. split; [apply f64_clamp100_range|].
  rewrite <- Hpci. exact Hrating.
Qed.

Lemma result_well_formed_witness :
  F64.calculate_sample_pci 3 F64.example_calculator F64.su_001_observations 2500
  = F64.Return F64.su_001_result /\
  F64.descending (F64.deduct_values F64.su_001_result) /\
  (0 <=? F64.pci F64.su_001_result) = true.
Proof.
  split; [exact f64_su_001_returns|].
  destruct (result_well_formed 3 F64.example_calculator F64.su_001_observations
              2500 F64.su_001_result f64_su_001_returns)
    as (_ & Hd & _ & _ & _ & _ & _ & _ & H0 & _).
  split; assumption.
Defined.

(** *** A query that is not a number *)

Lemma f64_nan_compares (x : float) :
  (x =? x) = false ->
  forall y, (x <=? y) = false /\ (y <=? x) = false /\ (x <? y) = false.
Proof.
  rewrite FloatAxioms.eqb_spec. intros Hx y.
  rewrite !FloatAxioms.leb_spec, FloatAxioms.ltb_spec.
  assert (Hnan : Prim2SF x = S754_nan).
  { destruct (Prim2SF x) as [s|s| |s m e] eqn:Hsx; [| |reflexivity|];
      exfalso; pose proof (SFleb_refl (Prim2SF x)) as Hrefl;
      rewrite Hsx in Hrefl; specialize (Hrefl ltac:(discriminate));
      unfold SFleb, SFeqb in *;
      destruct (SFcompare _ _) as [c|] eqn:Hc; try discriminate;
      pose proof (SFcompare_antisym _ _ _ Hc) as Ha; rewrite Hc in Ha;
      destruct c; discriminate. }
  rewrite Hnan. unfold SFleb, SFltb.
  destruct (Prim2SF y); repeat split; reflexivity.
Qed.

Lemma f64_interpolate_returns (points : list (float * float)) (x : float) :
  (2 <= length points)%nat ->
  x_ascending points ->
  (x =? x) = true ->
  exists v, interpolate_curve points x = Return v.
Proof.
  intros Hlen Hs Hx.
  destruct (f64_eqb_leb _ _ Hx) as [Hxx _].
  destruct points as [|pf rest] eqn:Hpts; [simpl in Hlen; lia|].
  rewrite <- Hpts in *.
  assert (Hhd : head points = Some pf) by (rewrite Hpts; reflexivity).
  assert (H0 : points !! 0%nat = Some pf) by (rewrite Hpts; reflexivity).
  destruct (last points) as [pl|] eqn:Hl;
    [|apply last_None in Hl; congruence].
  pose proof Hl as Hll. rewrite last_lookup in Hll.
  assert (Hfl : (fst pf <? fst pl) = true)
    by (apply (Hs 0%nat (Nat.pred (length points))); [lia | exact H0 | exact Hll]).
  destruct (f64_ltb_self _ _ Hfl) as [Hff Hlast].
  destruct (x <=? fst pf) eqn:Hc.
  { exists (snd pf). rewrite Hpts. unfold interpolate_curve.
    rewrite Hc. reflexivity. }
  destruct (fst pl <=? x) eqn:Hc'.
  { exists (snd pl). rewrite Hpts. unfold interpolate_curve.
    rewrite Hc. rewrite <- Hpts. rewrite (f64_getitem_last _ _ Hl).
    cbn [obind]. rewrite Hc'. reflexivity. }
  assert (Hfx : (fst pf <? x) = true).
  { destruct (fst pf <? x) eqn:Hlt; [reflexivity|].
    rewrite (f64_not_ltb_leb _ _ Hff Hxx Hlt) in Hc. discriminate. }
  assert (Hxl : (x <? fst pl) = true).
  { destruct (x <? fst pl) eqn:Hlt; [reflexivity|].
    rewrite (f64_not_ltb_leb _ _ Hxx Hlast Hlt) in Hc'. discriminate. }
  destruct (f64_bisect_right_spec (map fst points) x
              (f64_x_values_sorted points Hlen Hs) Hxx)
    as (Hr & Hlow & Hhigh).
  set (r := bisect_right (map fst points) x) in *.
  rewrite length_map in Hr, Hhigh.
  assert (Hr0 : (0 < r)%nat).
  { destruct r as [|r']; [|lia].
    specialize (Hhigh 0%nat ltac:(lia)).
    rewrite (f64_nth_map_fst _ _ _ H0) in Hhigh.
    pose proof (f64_ltb_leb _ _ Hhigh) as Hle.
    rewrite Hc in Hle. discriminate. }
  assert (Hr1 : (r < length points)%nat).
  { destruct (Nat.lt_ge_cases r (length points)) as [Hlt|Hge]; [exact Hlt|].
    specialize (Hlow (Nat.pred (length points)) ltac:(lia)).
    rewrite (f64_nth_map_fst _ _ _ Hll) in Hlow.
    rewrite Hlow in Hc'. discriminate. }
  destruct (lookup_lt_is_Some_2 points (Nat.pred r) ltac:(lia)) as [p0 Hp0].
  destruct (lookup_lt_is_Some_2 points r Hr1) as [p1 Hp1].
  pose proof (Hlow (Nat.pred r) ltac:(lia)) as Hx0.
  pose proof (Hhigh r ltac:(lia)) as Hx1.
  rewrite (f64_nth_map_fst _ _ _ Hp0) in Hx0.
  rewrite (f64_nth_map_fst _ _ _ Hp1) in Hx1.
  eexists.
  apply (f64_interpolate_bracket points x (Nat.pred r) pf p0 p1 Hs Hhd Hfx Hp0);
    [|exact Hx0|exact Hx1].
  replace (S (Nat.pred r)) with r by lia. exact Hp1.
Qed.

(** X22.  On the binary64 model, a point list of two points or more
    whose x values ascend strictly is answered for every query that is
    not NaN: below, inside or above the range of the points the call
    returns, and the division of the interpolation never raises. *)
Theorem interpolate_curve_answers_numbers (points : list (float * float))
    (x : float) :
  (2 <= length points)%nat ->
  F64.x_ascending points ->
  (x =? x) = true ->
  exists v, F64.interpolate_curve points x = F64.Return v.
Proof. apply f64_interpolate_returns. Qed.


Lemma interpolate_curve_answers_numbers_witness :
  (2 <= length F64.alligator_low_points)%nat /\
  F64.x_ascending F64.alligator_low_points /\
  (3 =? 3) = true /\
  exists v, F64.interpolate_curve F64.alligator_low_points 3 = F64.Return v.
Proof.
  split; [simpl; lia|]. split; [exact f64_alligator_low_ascending|].
  split; [reflexivity|].
  apply (interpolate_curve_answers_numbers F64.alligator_low_points 3);
    [simpl; lia | exact f64_alligator_low_ascending | reflexivity].
Defined.

Lemma f64_validate_curve_parts (points : list (float * float)) :
  validate_curve points = Return true ->
  (2 <= length points)%nat /\ x_strictly_increasing points = true /\
  all_non_negative points = true.
Proof.
  unfold validate_curve. destruct points as [|p rest] eqn:Hpts; [discriminate|].
  rewrite <- Hpts.
  destruct (length points <? 2)%nat eqn:Hlen; [discriminate|].
  apply Nat.ltb_ge in Hlen.
  destruct (x_strictly_increasing points); [|discriminate].
  destruct (all_non_negative points); [|discriminate].
  intros _. split; [exact Hlen|]. split; reflexivity.
Qed.

(** X23.  On the binary64 model, a point list that [validate_curve]
    accepts and none of whose x values is NaN has two points or more and
    strictly ascending x values, and [interpolate_curve] answers every
    query on it that is not NaN. *)
Theorem validated_curve_answers (points : list (float * float)) (x : float) :
  F64.validate_curve points = F64.Return true ->
  Forall (fun p => (fst p =? fst p) = true) points ->
  (2 <= length points)%nat /\
  F64.x_ascending points /\
  ((x =? x) = true -> exists v, F64.interpolate_curve points x = F64.Return v).
Proof.
  intros Hv Hn.
  destruct (f64_validate_curve_parts points Hv) as (Hlen & Hs & _).
  pose proof (f64_x_ascending_checked points Hs Hn) as Ha.
  split; [exact Hlen|]. split; [exact Ha|].
  apply f64_interpolate_returns; assumption.
Qed.

Lemma validated_curve_answers_witness :
  F64.validate_curve F64.alligator_low_points = F64.Return true /\
  Forall (fun p => (fst p =? fst p) = true) F64.alligator_low_points /\
  (2 <= length F64.alligator_low_points)%nat /\
  F64.x_ascending F64.alligator_low_points.
Proof.
  split; [reflexivity|]. split; [repeat constructor|].
  destruct (validated_curve_answers F64.alligator_low_points 3 eq_refl
              ltac:(repeat constructor)) as (Hlen & Ha & _).
  split; assumption.
Defined.

(** [validate_curve] itself lets an x that is NaN pass: no comparison
    with NaN is true. *)
Lemma f64_validate_curve_accepts_nan :
  validate_curve [(0, 0); (nan, 1)] = Return true.
Proof. reflexivity. Qed.

Lemma f64_bisect_loop_nan (a : list float) (x : float) :
  (x =? x) = false ->
  forall n lo hi, (hi - lo <= n)%nat -> (lo <= hi)%nat ->
    bisect_loop a x lo hi = hi.
Proof.
  intros Hx. induction n as [|n IH]; intros lo hi Hn Hle;
    rewrite bisect_loop_equation_1; destruct (lt_dec lo hi) as [Hlt|Hge];
    simp bisect_loop; try lia.
  cbv zeta.
  pose proof (Nat.div_mod_eq (lo + hi) 2) as Hd.
  pose proof (Nat.mod_upper_bound (lo + hi) 2 ltac:(lia)) as Hm.
  set (mid := ((lo + hi) / 2)%nat) in *.
  rewrite (proj2 (proj2 (f64_nan_compares x Hx (nth mid a 0)))).
  apply IH; lia.
Qed.

(** X21.  A query that is NaN is answered with an [IndexError], on every
    non-empty point list: both range tests fail, the bisection runs to
    the end of the list, and [points[idx]] is out of range. *)
Theorem interpolate_curve_nan_query (points : list (float * float)) (x : float) :
  points <> [] ->
  (x =? x) = false ->
  F64.interpolate_curve points x
  = F64.Raise (F64.IndexError "list index out of range").
Proof.
  intros Hne Hx. unfold interpolate_curve.
  destruct points as [|p0 rest] eqn:Hpts; [congruence|]. rewrite <- Hpts.
  rewrite (proj1 (f64_nan_compares x Hx (fst p0))).
  assert (Hlen : (0 < length points)%nat) by (rewrite Hpts; simpl; lia).
  destruct (lookup_lt_is_Some_2 points (length points - 1) ltac:(lia))
    as [pl Hpl].
  assert (Hlast : Py.getitem points (-1) = Return pl).
  { unfold Py.getitem. cbv zeta.
    change (-1 <? 0)%Z with true. cbv iota.
    destruct (Z.ltb_spec (-1 + Z.of_nat (length points)) 0); [lia|].
    replace (Z.to_nat (-1 + Z.of_nat (length points)))
      with (length points - 1)%nat by lia.
    rewrite Hpl. reflexivity. }
  rewrite Hlast. cbn [obind].
  rewrite (proj1 (proj2 (f64_nan_compares x Hx (fst pl)))).
  cbv zeta. unfold bisect_right.
  rewrite (f64_bisect_loop_nan _ x Hx (length (map fst points)) 0
             (length (map fst points))) by lia.
  rewrite length_map.
  assert (Hlo : Py.getitem points (Z.of_nat (length points) - 1) = Return pl).
  { unfold Py.getitem. cbv zeta.
    destruct (Z.ltb_spec (Z.of_nat (length points) - 1) 0); [lia|].
    destruct (Z.ltb_spec (Z.of_nat (length points) - 1) 0); [lia|].
    replace (Z.to_nat (Z.of_nat (length points) - 1))
      with (length points - 1)%nat by lia.
    rewrite Hpl. reflexivity. }
  rewrite Hlo. cbn [obind].
  unfold Py.getitem. cbv zeta.
  destruct (Z.ltb_spec (Z.of_nat (length points)) 0); [lia|].
  destruct (Z.ltb_spec (Z.of_nat (length points)) 0); [lia|].
  rewrite Nat2Z.id, (lookup_ge_None_2 points (length points)) by lia.
  reflexivity.
Qed.

Lemma interpolate_curve_nan_query_witness :
  [(0, 0); (1, 6)] <> ([] : list (float * float)) /\
  (nan =? nan) = false /\
  F64.interpolate_curve [(0, 0); (1, 6)] nan
  = F64.Raise (F64.IndexError "list index out of range").
Proof.
  split; [discriminate|]. split; [reflexivity|].
  apply (interpolate_curve_nan_query [(0, 0); (1, 6)] nan);
    [discriminate | reflexivity].
Defined.
